(** * XDL processing: filename parser, entity catalog, impact-region
      detector and k-factor estimator

    A shallow embedding of [src/filename_parser.py], [src/data_model.py]
    and [src/esa_analysis.py], followed by the properties established
    about them.

    Conventions of the embedding.
    - A Python [str] is a Rocq [string]; a character is read as the code
      point of the same number (0..255), and the regular-expression
      classes [\d], [\s], [\w] are those of Python's [re] on that range.
    - A Python or NumPy float is an exact rational ([Q]): rounding and
      overflow are not modelled.  The special values NumPy produces on
      degenerate arrays (the mean or standard deviation of an empty array
      is [nan], a quotient by zero is [inf] or [nan]) are kept, in
      [npfloat].  No property below uses the exactness to place a
      mean, a median or a weighted average among the values it is taken
      over, nor to say that a statistic is a number: binary64 can round
      such a result past those values, and can overflow.
    - A raised exception is the [Raise] branch of [result]; mutation of a
      dataclass instance is explicit record passing. *)

From Stdlib Require Import String Ascii List Bool Arith NArith ZArith QArith
  Qabs Qminmax DecimalString Sorted Lia Lqa.
Import ListNotations.

Set Implicit Arguments.

(** ** Exceptions *)

Inductive exn : Type :=
| ValueError
| NameError
| ZeroDivisionError
| TypeError.

Inductive result (A : Type) : Type :=
| Ok (a : A)
| Raise (e : exn).

Arguments Ok {A} a.
Arguments Raise {A} e.

Definition bind {A B : Type} (m : result A) (f : A -> result B) : result B :=
  match m with
  | Ok a => f a
  | Raise e => Raise e
  end.

Notation "x <- m ;; k" := (bind m (fun x => k))
  (at level 61, m at next level, right associativity).

(** [for x in l: acc = f acc x], stopping at the first exception. *)
Fixpoint foldM {A B : Type} (f : B -> A -> result B) (l : list A) (acc : B)
  : result B :=
  match l with
  | [] => Ok acc
  | x :: l' => acc' <- f acc x ;; foldM f l' acc'
  end.

(** ** Python string operations *)

Module PyStr.

Local Open Scope string_scope.

(** [s.endswith(suf)]: some suffix of [s] is [suf]. *)
Fixpoint endswith (s suf : string) : bool :=
  if String.eqb s suf then true
  else match s with
       | EmptyString => false
       | String _ s' => endswith s' suf
       end.

(** [s[:-n]] for [n > 0]. *)
Definition drop_last (n : nat) (s : string) : string :=
  substring 0 (String.length s - n) s.

(** [sep in s]. *)
Fixpoint contains (sep s : string) : bool :=
  if prefix sep s then true
  else match s with
       | EmptyString => false
       | String _ s' => contains sep s'
       end.

(** [s.split(sep)] for a non-empty [sep]: a left-to-right scan for
    non-overlapping occurrences.  [skip] counts the characters of an
    occurrence still to be passed over, [cur] is the piece being built. *)
Fixpoint split_go (sep : string) (skip : nat) (s cur : string) : list string :=
  match s with
  | EmptyString => [cur]
  | String c s' =>
      match skip with
      | S n => split_go sep n s' cur
      | O =>
          if prefix sep s
          then cur :: split_go sep (String.length sep - 1) s' EmptyString
          else split_go sep 0 s' (cur ++ String c EmptyString)
      end
  end.

Definition split (sep s : string) : list string := split_go sep 0 s EmptyString.

(** [os.path.basename] (POSIX): what follows the last ["/"]. *)
Fixpoint basename (p : string) : string :=
  match p with
  | EmptyString => EmptyString
  | String c p' =>
      if contains "/" p then basename p' else p
  end.

(** Truthiness of an [Optional[str]]: neither [None] nor empty. *)
Definition truthy (o : option string) : option string :=
  match o with
  | Some EmptyString => None
  | Some s => Some s
  | None => None
  end.

Definition or_else {A : Type} (o : option A) (d : option A) : option A :=
  match o with
  | Some a => Some a
  | None => d
  end.

End PyStr.

(** ** Character classes of [re] on code points 0..255 *)

Module CharClass.

Local Open Scope N_scope.

Definition code (c : ascii) : N := N_of_ascii c.

Definition between (lo hi n : N) : bool := (lo <=? n) && (n <=? hi).

(** [\d] *)
Definition is_digit (c : ascii) : bool := between 48 57 (code c).

(** [\s] *)
Definition is_space (c : ascii) : bool :=
  let n := code c in
  between 9 13 n || between 28 32 n || (n =? 133) || (n =? 160).

(** [\w] *)
Definition is_word (c : ascii) : bool :=
  let n := code c in
  between 48 57 n || between 65 90 n || (n =? 95) || between 97 122 n
  || (n =? 170) || between 178 179 n || (n =? 181) || between 185 186 n
  || between 188 190 n || between 192 214 n || between 216 246 n
  || between 248 255 n.

(** [[\w\-\.]] *)
Definition is_token_char (c : ascii) : bool :=
  is_word c || (code c =? 45) || (code c =? 46).

(** [[kK]] and [[eE]] *)
Definition is_kK (c : ascii) : bool := (code c =? 107) || (code c =? 75).
Definition is_eE (c : ascii) : bool := (code c =? 101) || (code c =? 69).

End CharClass.

(** ** A backtracking matcher for the fragment of [re] the parser uses

    Literals, one-character classes, greedy [+], [*] and [{n}] over a
    class, greedy [?] over a sub-pattern, concatenation and named groups.
    The matcher is written in continuation-passing style: [k] is the
    rest of the pattern, and a failure of [k] makes the quantifiers give
    back what they took, longest first, as [re] does. *)

Module Re.

Import PyStr.
Local Open Scope string_scope.

Inductive regex : Type :=
| Lit (l : string)
| Cls (p : ascii -> bool)
| Plus (p : ascii -> bool)
| Star (p : ascii -> bool)
| Rep (n : nat) (p : ascii -> bool)
| Opt (r : regex)
| Seq (r1 r2 : regex)
| Grp (name : string) (r : regex).

(** Captured groups, most recent first. *)
Definition groups : Type := list (string * string).

Fixpoint lookup (g : groups) (name : string) : option string :=
  match g with
  | [] => None
  | (n, v) :: g' => if String.eqb n name then Some v else lookup g' name
  end.

Fixpoint strip_prefix (l s : string) : option string :=
  match l, s with
  | EmptyString, _ => Some s
  | String a l', String b s' => if Ascii.eqb a b then strip_prefix l' s' else None
  | String _ _, EmptyString => None
  end.

Fixpoint take_class (n : nat) (p : ascii -> bool) (s : string) : option string :=
  match n with
  | O => Some s
  | S n' =>
      match s with
      | String c s' => if p c then take_class n' p s' else None
      | EmptyString => None
      end
  end.

Fixpoint greedy {A : Type} (p : ascii -> bool) (s : string)
  (k : string -> option A) : option A :=
  match s with
  | String c s' =>
      if p c
      then match greedy p s' k with
           | Some x => Some x
           | None => k s
           end
      else k s
  | EmptyString => k s
  end.

(** The text a sub-pattern consumed, given the input before and after. *)
Definition consumed (s s' : string) : string :=
  substring 0 (String.length s - String.length s') s.

Fixpoint rmatch {A : Type} (r : regex) (s : string) (g : groups)
  (k : string -> groups -> option A) : option A :=
  match r with
  | Lit l =>
      match strip_prefix l s with
      | Some s' => k s' g
      | None => None
      end
  | Cls p =>
      match s with
      | String c s' => if p c then k s' g else None
      | EmptyString => None
      end
  | Plus p =>
      match s with
      | String c s' => if p c then greedy p s' (fun s'' => k s'' g) else None
      | EmptyString => None
      end
  | Star p => greedy p s (fun s'' => k s'' g)
  | Rep n p =>
      match take_class n p s with
      | Some s' => k s' g
      | None => None
      end
  | Opt r' =>
      match rmatch r' s g k with
      | Some x => Some x
      | None => k s g
      end
  | Seq r1 r2 => rmatch r1 s g (fun s' g' => rmatch r2 s' g' k)
  | Grp name r' =>
      rmatch r' s g (fun s' g' => k s' ((name, consumed s s') :: g'))
  end.

(** [pattern.search(s).groupdict()]: the first start position, scanning
    from the left, at which the pattern matches. *)
Fixpoint search (r : regex) (s : string) : option groups :=
  match rmatch r s [] (fun _ g => Some g) with
  | Some g => Some g
  | None =>
      match s with
      | String _ s' => search r s'
      | EmptyString => None
      end
  end.

(** The words a pattern can match, read off its syntax. *)
Fixpoint all_in (p : ascii -> bool) (w : string) : Prop :=
  match w with
  | EmptyString => True
  | String c w' => p c = true /\ all_in p w'
  end.

Fixpoint lang (r : regex) (w : string) : Prop :=
  match r with
  | Lit l => w = l
  | Cls p => exists c, w = String c EmptyString /\ p c = true
  | Plus p => w <> EmptyString /\ all_in p w
  | Star p => all_in p w
  | Rep n p => String.length w = n /\ all_in p w
  | Opt r' => w = EmptyString \/ lang r' w
  | Seq r1 r2 => exists w1 w2, w = w1 ++ w2 /\ lang r1 w1 /\ lang r2 w2
  | Grp _ r' => lang r' w
  end.

(** The groups a match of [r] is sure to set: those not under a [?]. *)
Fixpoint defines (r : regex) (name : string) : bool :=
  match r with
  | Seq r1 r2 => defines r1 name || defines r2 name
  | Grp n r' => String.eqb n name || defines r' name
  | _ => false
  end.

(** Every named group of [r] only captures words satisfying [good]. *)
Fixpoint groups_good (good : string -> string -> Prop) (r : regex) : Prop :=
  match r with
  | Opt r' => groups_good good r'
  | Seq r1 r2 => groups_good good r1 /\ groups_good good r2
  | Grp name r' => (forall w, lang r' w -> good name w) /\ groups_good good r'
  | _ => True
  end.

(** The captures of a match all satisfy [good]. *)
Definition captures_good (good : string -> string -> Prop) (d : groups) : Prop :=
  forall n v, In (n, v) d -> good n v.

End Re.

(** ** [src/filename_parser.py] *)

Module FilenameParser.

Import PyStr CharClass Re.
Local Open Scope string_scope.

(** *** [float(token)]

    The parser only calls [float] on text captured by its patterns, which
    is an optional ["-"], decimal digits and an optional fraction.  On
    that syntax [py_float] is the number written; every other string is
    treated as a [ValueError]. *)

Definition digit_value (c : ascii) : Z := Z.of_N (code c) - 48.

Fixpoint digits_value (s : string) (acc : Z) : option Z :=
  match s with
  | EmptyString => Some acc
  | String c s' =>
      if is_digit c then digits_value s' (10 * acc + digit_value c) else None
  end.

(** Splits [s] at its first ["."], if any. *)
Fixpoint cut_at_dot (s : string) : string * option string :=
  match s with
  | EmptyString => (EmptyString, None)
  | String c s' =>
      if Ascii.eqb c "."%char then (EmptyString, Some s')
      else let (a, b) := cut_at_dot s' in (String c a, b)
  end.

Definition unsigned_value (s : string) : option Q :=
  match cut_at_dot s with
  | (EmptyString, _) => None
  | (ip, None) =>
      match digits_value ip 0 with
      | Some n => Some (inject_Z n)
      | None => None
      end
  | (_, Some EmptyString) => None
  | (ip, Some fp) =>
      match digits_value ip 0, digits_value fp 0 with
      | Some n, Some m =>
          Some (inject_Z n + inject_Z m / inject_Z (10 ^ Z.of_nat (String.length fp)))%Q
      | _, _ => None
      end
  end.

Definition unsigned_float (s : string) : result Q :=
  match unsigned_value s with
  | Some q => Ok q
  | None => Raise ValueError
  end.

Definition py_float (s : string) : result Q :=
  match s with
  | String c s' =>
      if Ascii.eqb c "-"%char
      then q <- unsigned_float s' ;; Ok (- q)%Q
      else unsigned_float s
  | EmptyString => Raise ValueError
  end.

(** *** [datetime.strptime(token, '%y%m%d-%H%M%S')] *)

Record datetime : Type := mk_datetime {
  year : Z; month : Z; day : Z; hour : Z; minute : Z; second : Z
}.

Definition is_leap (y : Z) : bool :=
  ((y mod 4 =? 0) && negb (y mod 100 =? 0) || (y mod 400 =? 0))%Z.

Definition days_in_month (y m : Z) : Z :=
  if (m =? 2)%Z then (if is_leap y then 29 else 28)
  else if ((m =? 4) || (m =? 6) || (m =? 9) || (m =? 11))%Z then 30
  else 31.

(** [%y]: 69..99 are 1969..1999, 00..68 are 2000..2068. *)
Definition full_year (yy : Z) : Z :=
  if (69 <=? yy)%Z then 1900 + yy else 2000 + yy.

Definition two_digits (s : string) : option (Z * string) :=
  match s with
  | String a (String b s') =>
      if is_digit a && is_digit b
      then Some (10 * digit_value a + digit_value b, s')%Z
      else None
  | _ => None
  end.

(** Defined on the thirteen characters [\d{6}-\d{6}] a pattern captures;
    a field out of range is the [ValueError] the source turns into
    [None]. *)
Definition _parse_timestamp (timestamp_str : string) : option datetime :=
  match two_digits timestamp_str with
  | Some (yy, s1) =>
  match two_digits s1 with
  | Some (mo, s2) =>
  match two_digits s2 with
  | Some (dd, String "-"%char s3) =>
  match two_digits s3 with
  | Some (hh, s4) =>
  match two_digits s4 with
  | Some (mi, s5) =>
  match two_digits s5 with
  | Some (ss, EmptyString) =>
      let y := full_year yy in
      if ((1 <=? mo) && (mo <=? 12) && (1 <=? dd) && (dd <=? days_in_month y mo)
          && (hh <=? 23) && (mi <=? 59) && (ss <=? 59))%Z
      then Some (mk_datetime y mo dd hh mi ss)
      else None
  | _ => None end
  | None => None end
  | None => None end
  | _ => None end
  | None => None end
  | None => None end.

(** *** The record *)

Record ExperimentalParameters : Type := mk_params {
  filename : string;
  file_type : string;
  base_name : string;
  beam_energy : option string;
  beam_energy_value : option Q;
  beam_energy_unit : option string;
  esa_voltage : option string;
  esa_voltage_value : option Q;
  mcp_voltage : option string;
  mcp_voltage_value : option Q;
  inner_angle : option string;
  inner_angle_value : option Q;
  inner_angle_range : option (Q * Q);
  is_angle_range : bool;
  horizontal_value : option string;
  horizontal_value_num : option Q;
  focus_x : option string;
  focus_y : option string;
  offset_x : option string;
  offset_y : option string;
  wave_type : option string;
  timestamp : option string;
  datetime_obj : option datetime;
  is_dark : bool;
  is_ramp : bool;
  is_rotating : bool;
  test_type : option string;
  sequence_info : option string
}.

(** [ExperimentalParameters(filename=..., file_type=..., base_name=...)] *)
Definition new_parameters (fname ftype bname : string) : ExperimentalParameters :=
  {| filename := fname; file_type := ftype; base_name := bname;
     beam_energy := None; beam_energy_value := None; beam_energy_unit := None;
     esa_voltage := None; esa_voltage_value := None;
     mcp_voltage := None; mcp_voltage_value := None;
     inner_angle := None; inner_angle_value := None;
     inner_angle_range := None; is_angle_range := false;
     horizontal_value := None; horizontal_value_num := None;
     focus_x := None; focus_y := None; offset_x := None; offset_y := None;
     wave_type := None; timestamp := None; datetime_obj := None;
     is_dark := false; is_ramp := false; is_rotating := false;
     test_type := None; sequence_info := None |}.

(** *** [FilenameParser.patterns] *)

Declare Scope regex_scope.
Delimit Scope regex_scope with re.
Infix "+>" := Seq (at level 60, right associativity) : regex_scope.
Local Open Scope regex_scope.

(** [\d+(?:\.\d+)?] *)
Definition number : regex := Plus is_digit +> Opt (Lit "." +> Plus is_digit).

(** [(?P<timestamp>\d{6}-\d{6})?] *)
Definition timestamp_opt : regex :=
  Opt (Grp "timestamp" (Rep 6 is_digit +> Lit "-" +> Rep 6 is_digit)).

(** The tail shared by ['detailed'] and ['rotating'], from [Beam-] on. *)
Definition beam_to_end : regex :=
  Lit "Beam-" +> Grp "beam_energy" (number +> Opt (Lit "k") +> Lit "eV") +> Lit "_"
  +> Lit "Focus-X-" +> Grp "focus_x" (Plus is_token_char)
  +> Lit "-Y-" +> Grp "focus_y" (Plus is_token_char) +> Lit "_"
  +> Lit "Offset-X-" +> Grp "offset_x" (Plus is_token_char)
  +> Lit "_Y-" +> Grp "offset_y" (Plus is_token_char) +> Lit "_"
  +> Lit "Wave-" +> Grp "wave_type" (Plus is_word) +> Lit "_"
  +> Lit "ESA-" +> Grp "esa_voltage" (Opt (Lit "-") +> number) +> Lit "_"
  +> Lit "MCP-" +> Grp "mcp_voltage" number
  +> Lit "-" +> Grp "mcp_extra" (Plus is_digit)
  +> timestamp_opt.

Definition detailed : regex :=
  Lit "ACI_ESA-Inner-"
  +> Grp "inner_angle"
       (Opt (Lit "-") +> Plus is_digit
        +> Opt (Lit "to" +> Opt (Lit "-") +> Plus is_digit))
  +> Lit "-Hor" +> Grp "hor_value" (Plus is_digit) +> Lit "_"
  +> beam_to_end.

Definition simple_energy : regex :=
  Lit "ACI" +> Plus is_space +> Lit "ESA" +> Plus is_space
  +> Grp "beam_energy" (number +> Opt (Lit "k") +> Lit "eV")
  +> timestamp_opt.

(** [\d+(?:\.\d+)?[kK]?[eE]V] *)
Definition energy_any_case : regex :=
  number +> Opt (Cls is_kK) +> Cls is_eE +> Lit "V".

Definition voltage_energy : regex :=
  Lit "ACI" +> Plus is_space +> Lit "ESA" +> Plus is_space
  +> Grp "esa_voltage" (Plus is_digit) +> Lit "V" +> Plus is_space
  +> Grp "beam_energy" energy_any_case +> Plus is_space +> Lit "BEAM"
  +> timestamp_opt.

Definition beam_prep : regex :=
  Lit "ACI" +> Plus is_space +> Lit "ESA" +> Plus is_space
  +> Grp "beam_energy" energy_any_case
  +> Plus is_space +> Lit "BEAM" +> Plus is_space +> Lit "PREP"
  +> timestamp_opt.

Definition ramp_up : regex :=
  Lit "ACI" +> Plus is_space +> Opt (Lit "ESA" +> Plus is_space)
  +> Lit "RAMP" +> Plus is_space +> Lit "UP"
  +> Opt (Plus is_space +> Grp "sequence" (Plus is_word +> Star is_digit))
  +> Opt (Plus is_space +> Grp "date" (Rep 8 is_digit))
  +> Opt (Plus is_space +> Lit "ESA" +> Plus is_space
          +> Grp "esa_voltage" (Plus is_digit) +> Lit "V")
  +> timestamp_opt.

Definition dark : regex :=
  Lit "ACI" +> Plus is_space +> Lit "ESA" +> Plus is_space
  +> Lit "Dark" +> Plus is_space +> Grp "date" (Rep 6 is_digit)
  +> Opt (Lit ".fits")
  +> timestamp_opt.

Definition rotating : regex :=
  Lit "ACI_ESA_Rotating" +> Opt (Grp "sequence" (Plus is_digit)) +> Lit "_"
  +> beam_to_end.

(** The dictionary, in insertion order. *)
Definition patterns : list (string * regex) :=
  [ ("detailed", detailed);
    ("simple_energy", simple_energy);
    ("voltage_energy", voltage_energy);
    ("beam_prep", beam_prep);
    ("ramp_up", ramp_up);
    ("dark", dark);
    ("rotating", rotating) ].

(** The [for ... if match: ...; break] loop of [parse_filename]. *)
Fixpoint first_match (ps : list (string * regex)) (s : string)
  : option (string * groups) :=
  match ps with
  | [] => None
  | (pattern_name, pattern) :: ps' =>
      match search pattern s with
      | Some g => Some (pattern_name, g)
      | None => first_match ps' s
      end
  end.

(** *** Helpers *)

Definition _get_file_type (fname : string) : string :=
  if endswith fname ".fits" then "fits"
  else if endswith fname ".map" then "map"
  else if endswith fname ".phd" then "phd"
  else "unknown".

Definition _clean_filename_for_parsing (fname : string) : string :=
  if endswith fname ".fits.map" then drop_last 9 fname
  else if endswith fname ".fits.phd" then drop_last 9 fname
  else if endswith fname ".fits" then drop_last 5 fname
  else if endswith fname ".map" then drop_last 4 fname
  else if endswith fname ".phd" then drop_last 4 fname
  else fname.

Definition _parse_energy (energy_str : string) : result (Q * string) :=
  if endswith energy_str "keV" || endswith energy_str "kEV"
     || endswith energy_str "KEV" || endswith energy_str "KeV"
  then value <- py_float (drop_last 3 energy_str) ;;
       Ok ((value * 1000)%Q, "eV")
  else if endswith energy_str "eV" || endswith energy_str "EV"
  then value <- py_float (drop_last 2 energy_str) ;;
       Ok (value, "eV")
  else value <- py_float energy_str ;;
       Ok (value, "eV").

(** [Union[float, Tuple[float, float]]] *)
Inductive angle : Type :=
| Single (a : Q)
| Range (lo hi : Q).

(** The builtins [min(a, b)] and [max(a, b)] on two numbers. *)
Definition py_min (a b : Q) : Q := if Qlt_le_dec b a then b else a.
Definition py_max (a b : Q) : Q := if Qlt_le_dec a b then b else a.

(** The module never defines [logger]: the [except ValueError] branch
    raises [NameError] when it evaluates [logger.warning]. *)
Definition _parse_angle (angle_str : string) : result angle :=
  if contains "to" angle_str then
    match split "to" angle_str with
    | [p0; p1] =>
        match (angle1 <- py_float p0 ;; angle2 <- py_float p1 ;;
               Ok (Range (py_min angle1 angle2) (py_max angle1 angle2))) with
        | Raise ValueError => Raise NameError
        | r => r
        end
    | p0 :: _ => a <- py_float p0 ;; Ok (Single a)
    | [] => Raise ValueError
    end
  else a <- py_float angle_str ;; Ok (Single a).

(** [groups[name]] when [name in groups and groups[name]]. *)
Definition group (g : groups) (name : string) : option string :=
  truthy (lookup g name).

(** [float(groups[name])] when the group is set. *)
Definition float_group (g : groups) (name : string) : result (option Q) :=
  match group g name with
  | Some tok => v <- py_float tok ;; Ok (Some v)
  | None => Ok None
  end.

(** The assignments of [_extract_parameters_from_match], given the
    converted energy, voltages, angle and horizontal value. *)
Definition assign_parameters (params : ExperimentalParameters) (g : groups)
  (pattern_name : string) (energy : option (Q * string)) (esa mcp : option Q)
  (ang : option angle) (hor : option Q) : ExperimentalParameters :=
  {| filename := filename params;
     file_type := file_type params;
     base_name := base_name params;
     beam_energy := or_else (group g "beam_energy") (beam_energy params);
     beam_energy_value :=
       or_else (option_map fst energy) (beam_energy_value params);
     beam_energy_unit :=
       or_else (option_map snd energy) (beam_energy_unit params);
     esa_voltage := or_else (group g "esa_voltage") (esa_voltage params);
     esa_voltage_value := or_else esa (esa_voltage_value params);
     mcp_voltage := or_else (group g "mcp_voltage") (mcp_voltage params);
     mcp_voltage_value := or_else mcp (mcp_voltage_value params);
     inner_angle := or_else (group g "inner_angle") (inner_angle params);
     inner_angle_value :=
       match ang with
       | Some (Range lo hi) => Some ((lo + hi) / 2)%Q
       | Some (Single a) => Some a
       | None => inner_angle_value params
       end;
     inner_angle_range :=
       match ang with
       | Some (Range lo hi) => Some (lo, hi)
       | _ => inner_angle_range params
       end;
     is_angle_range :=
       match ang with
       | Some (Range _ _) => true
       | Some (Single _) => false
       | None => is_angle_range params
       end;
     horizontal_value := or_else (group g "hor_value") (horizontal_value params);
     horizontal_value_num := or_else hor (horizontal_value_num params);
     focus_x := or_else (group g "focus_x") (focus_x params);
     focus_y := or_else (group g "focus_y") (focus_y params);
     offset_x := or_else (group g "offset_x") (offset_x params);
     offset_y := or_else (group g "offset_y") (offset_y params);
     wave_type := or_else (group g "wave_type") (wave_type params);
     timestamp := or_else (group g "timestamp") (timestamp params);
     datetime_obj :=
       match group g "timestamp" with
       | Some tok => _parse_timestamp tok
       | None => datetime_obj params
       end;
     is_dark := if String.eqb pattern_name "dark" then true else is_dark params;
     is_ramp :=
       if String.eqb pattern_name "dark" then is_ramp params
       else if String.eqb pattern_name "ramp_up" then true
       else is_ramp params;
     is_rotating :=
       if String.eqb pattern_name "dark" then is_rotating params
       else if String.eqb pattern_name "ramp_up" then is_rotating params
       else if String.eqb pattern_name "rotating" then true
       else is_rotating params;
     test_type := test_type params;
     sequence_info := or_else (group g "sequence") (sequence_info params) |}.

(** [_parse_energy(groups['beam_energy'])] when the group is set. *)
Definition energy_group (g : groups) : result (option (Q * string)) :=
  match group g "beam_energy" with
  | Some tok => vu <- _parse_energy tok ;; Ok (Some vu)
  | None => Ok None
  end.

(** [_parse_angle(groups['inner_angle'])] when the group is set. *)
Definition angle_group (g : groups) : result (option angle) :=
  match group g "inner_angle" with
  | Some tok => a <- _parse_angle tok ;; Ok (Some a)
  | None => Ok None
  end.

Definition _extract_parameters_from_match (params : ExperimentalParameters)
  (g : groups) (pattern_name : string) : result ExperimentalParameters :=
  energy <- energy_group g ;;
  esa <- float_group g "esa_voltage" ;;
  mcp <- float_group g "mcp_voltage" ;;
  ang <- angle_group g ;;
  hor <- float_group g "hor_value" ;;
  Ok (assign_parameters params g pattern_name energy esa mcp ang hor).

(** Truthiness of the token fields tested by [_post_process_parameters]. *)
Definition is_truthy (o : option string) : bool :=
  match truthy o with
  | Some _ => true
  | None => false
  end.

Definition classify (params : ExperimentalParameters) : string :=
  if is_dark params then "dark"
  else if is_ramp params then "ramp_up"
  else if is_rotating params then "rotating"
  else if is_truthy (beam_energy params) && is_truthy (esa_voltage params)
  then "voltage_sweep"
  else if is_truthy (beam_energy params) then "energy_test"
  else "unknown".

Definition set_test_type (params : ExperimentalParameters) (t : string)
  : ExperimentalParameters :=
  {| filename := filename params;
     file_type := file_type params;
     base_name := base_name params;
     beam_energy := beam_energy params;
     beam_energy_value := beam_energy_value params;
     beam_energy_unit := beam_energy_unit params;
     esa_voltage := esa_voltage params;
     esa_voltage_value := esa_voltage_value params;
     mcp_voltage := mcp_voltage params;
     mcp_voltage_value := mcp_voltage_value params;
     inner_angle := inner_angle params;
     inner_angle_value := inner_angle_value params;
     inner_angle_range := inner_angle_range params;
     is_angle_range := is_angle_range params;
     horizontal_value := horizontal_value params;
     horizontal_value_num := horizontal_value_num params;
     focus_x := focus_x params;
     focus_y := focus_y params;
     offset_x := offset_x params;
     offset_y := offset_y params;
     wave_type := wave_type params;
     timestamp := timestamp params;
     datetime_obj := datetime_obj params;
     is_dark := is_dark params;
     is_ramp := is_ramp params;
     is_rotating := is_rotating params;
     test_type := Some t;
     sequence_info := sequence_info params |}.

Definition _post_process_parameters (params : ExperimentalParameters)
  : ExperimentalParameters :=
  set_test_type params (classify params).

Definition parse_filename (fname : string) : result ExperimentalParameters :=
  let bname := basename fname in
  let ftype := _get_file_type bname in
  let name_for_parsing := _clean_filename_for_parsing bname in
  let params := new_parameters fname ftype bname in
  params' <- match first_match patterns name_for_parsing with
             | Some (pattern_name, g) =>
                 _extract_parameters_from_match params g pattern_name
             | None => Ok params
             end ;;
  Ok (_post_process_parameters params').

(** [parse_filenames]: the list comprehension over [parse_filename]. *)
Fixpoint parse_filenames (filenames : list string)
  : result (list ExperimentalParameters) :=
  match filenames with
  | [] => Ok []
  | fname :: rest =>
      p <- parse_filename fname ;;
      ps <- parse_filenames rest ;;
      Ok (p :: ps)
  end.

(** The classification in the words of the specification: presence of
    the numeric energy and voltage, in the priority
    dark > ramp > rotating > both > energy only > unknown. *)
Definition present {A : Type} (o : option A) : bool :=
  match o with
  | Some _ => true
  | None => false
  end.

Definition test_type_of_flags (params : ExperimentalParameters) : string :=
  if is_dark params then "dark"
  else if is_ramp params then "ramp_up"
  else if is_rotating params then "rotating"
  else if present (beam_energy_value params) && present (esa_voltage_value params)
  then "voltage_sweep"
  else if present (beam_energy_value params) then "energy_test"
  else "unknown".

End FilenameParser.

(** ** [src/data_model.py] *)

Module DataModel.

Import PyStr FilenameParser.
Local Open Scope string_scope.

(** A two-dimensional array, as its list of rows. *)
Definition image : Type := list (list Q).

(** [fits_handler.FitsData], reduced to what the analyses read. *)
Record FitsData : Type := mk_fits_data {
  data : option image;
  fits_has_errors : bool
}.

Record DataFile : Type := mk_data_file {
  filepath : string;
  parameters : ExperimentalParameters;
  df_file_type : string;
  fits_data : option FitsData;
  is_loaded : bool;
  has_errors : bool;
  error_messages : list string
}.

(** The property [DataFile.filename]. *)
Definition df_filename (f : DataFile) : string := basename (filepath f).

(** *** Attribute access by name *)

(** The values an attribute of [ExperimentalParameters] can hold. *)
Inductive value : Type :=
| VStr (s : string)
| VFloat (q : Q)
| VRange (lo hi : Q)
| VBool (b : bool)
| VDatetime (d : datetime).

Definition attributes (p : ExperimentalParameters) : list (string * option value) :=
  [ ("filename", Some (VStr (filename p)));
    ("file_type", Some (VStr (file_type p)));
    ("base_name", Some (VStr (base_name p)));
    ("beam_energy", option_map VStr (beam_energy p));
    ("beam_energy_value", option_map VFloat (beam_energy_value p));
    ("beam_energy_unit", option_map VStr (beam_energy_unit p));
    ("esa_voltage", option_map VStr (esa_voltage p));
    ("esa_voltage_value", option_map VFloat (esa_voltage_value p));
    ("mcp_voltage", option_map VStr (mcp_voltage p));
    ("mcp_voltage_value", option_map VFloat (mcp_voltage_value p));
    ("inner_angle", option_map VStr (inner_angle p));
    ("inner_angle_value", option_map VFloat (inner_angle_value p));
    ("inner_angle_range",
       option_map (fun r => VRange (fst r) (snd r)) (inner_angle_range p));
    ("is_angle_range", Some (VBool (is_angle_range p)));
    ("horizontal_value", option_map VStr (horizontal_value p));
    ("horizontal_value_num", option_map VFloat (horizontal_value_num p));
    ("focus_x", option_map VStr (focus_x p));
    ("focus_y", option_map VStr (focus_y p));
    ("offset_x", option_map VStr (offset_x p));
    ("offset_y", option_map VStr (offset_y p));
    ("wave_type", option_map VStr (wave_type p));
    ("timestamp", option_map VStr (timestamp p));
    ("datetime_obj", option_map VDatetime (datetime_obj p));
    ("is_dark", Some (VBool (is_dark p)));
    ("is_ramp", Some (VBool (is_ramp p)));
    ("is_rotating", Some (VBool (is_rotating p)));
    ("test_type", option_map VStr (test_type p));
    ("sequence_info", option_map VStr (sequence_info p)) ].

Fixpoint assoc {A : Type} (l : list (string * A)) (name : string) : option A :=
  match l with
  | [] => None
  | (n, a) :: l' => if String.eqb n name then Some a else assoc l' name
  end.

(** [getattr(p, name, None)] on the fields of the dataclass: [None] when
    the field holds [None] or [name] is not a field. *)
Definition getattr (p : ExperimentalParameters) (name : string) : option value :=
  match assoc (attributes p) name with
  | Some (Some v) => Some v
  | _ => None
  end.

(** [==] on attribute values. *)
Definition datetime_eqb (a b : datetime) : bool :=
  ((year a =? year b) && (month a =? month b) && (day a =? day b)
   && (hour a =? hour b) && (minute a =? minute b) && (second a =? second b))%Z.

Definition value_eqb (a b : value) : bool :=
  match a, b with
  | VStr s, VStr t => String.eqb s t
  | VFloat x, VFloat y => Qeq_bool x y
  | VRange x1 x2, VRange y1 y2 => Qeq_bool x1 y1 && Qeq_bool x2 y2
  | VBool x, VBool y => Bool.eqb x y
  | VDatetime x, VDatetime y => datetime_eqb x y
  | _, _ => false
  end.

(** [<=] on attribute values.  All the values of one attribute are of
    one Python type, so [sorted] never compares across types; the order
    between constructors below only makes the function total. *)
Definition kind (v : value) : nat :=
  match v with
  | VStr _ => 0 | VFloat _ => 1 | VRange _ _ => 2 | VBool _ => 3
  | VDatetime _ => 4
  end.

Fixpoint lex_leb (a b : list Z) : bool :=
  match a, b with
  | [], _ => true
  | _ :: _, [] => false
  | x :: a', y :: b' => (x <? y)%Z || ((x =? y)%Z && lex_leb a' b')
  end.

Definition datetime_key (d : datetime) : list Z :=
  [year d; month d; day d; hour d; minute d; second d].

Definition value_leb (a b : value) : bool :=
  match a, b with
  | VStr s, VStr t => String.leb s t
  | VFloat x, VFloat y => Qle_bool x y
  | VRange x1 x2, VRange y1 y2 =>
      negb (Qle_bool y1 x1) || (Qeq_bool x1 y1 && Qle_bool x2 y2)
  | VBool x, VBool y => implb x y
  | VDatetime x, VDatetime y => lex_leb (datetime_key x) (datetime_key y)
  | _, _ => Nat.leb (kind a) (kind b)
  end.

(** [values.add(v)] on a set kept as a duplicate-free list. *)
Fixpoint set_add (v : value) (s : list value) : list value :=
  match s with
  | [] => [v]
  | w :: s' => if value_eqb w v then s else w :: set_add v s'
  end.

Fixpoint insert_sorted (v : value) (l : list value) : list value :=
  match l with
  | [] => [v]
  | w :: l' => if value_leb v w then v :: l else w :: insert_sorted v l'
  end.

Definition sorted (l : list value) : list value :=
  fold_right insert_sorted [] l.

(** *** [ExperimentGroup] *)

Record ExperimentGroup : Type := mk_group {
  name : string;
  description : string;
  files : list DataFile;
  common_parameters : list (string * option value);
  varying_parameters : list string
}.

Definition add_file (group : ExperimentGroup) (data_file : DataFile)
  : ExperimentGroup :=
  {| name := name group;
     description := description group;
     files := (files group ++ [data_file])%list;
     common_parameters := common_parameters group;
     varying_parameters := varying_parameters group |}.

Definition get_parameter_values (group : ExperimentGroup) (parameter : string)
  : list value :=
  let values :=
    fold_left
      (fun values file =>
         match getattr (parameters file) parameter with
         | Some param_value => set_add param_value values
         | None => values
         end)
      (files group) [] in
  sorted values.

(** [param_value == value], where either side may be [None]. *)
Definition opt_value_eqb (a b : option value) : bool :=
  match a, b with
  | Some x, Some y => value_eqb x y
  | None, None => true
  | _, _ => false
  end.

Definition get_files_by_parameter (group : ExperimentGroup) (parameter : string)
  (v : option value) : list DataFile :=
  filter (fun file => opt_value_eqb (getattr (parameters file) parameter) v)
         (files group).

(** *** [DataManager] grouping *)

Section Grouping.

(** [str(v)], as used by the f-strings that build keys and descriptions. *)
Variable py_str : value -> string.

Definition py_str_opt (o : option value) : string :=
  match o with
  | Some v => py_str v
  | None => "None"
  end.

(** [d[k] = v] on a dictionary kept in insertion order. *)
Fixpoint dict_set {A : Type} (d : list (string * A)) (k : string) (v : A)
  : list (string * A) :=
  match d with
  | [] => [(k, v)]
  | (k', v') :: d' =>
      if String.eqb k' k then (k', v) :: d' else (k', v') :: dict_set d' k v
  end.

(** The inner loop over [parameters]: the key parts and [param_dict]. *)
Definition key_of (parameters_ : list string) (file : DataFile)
  : list string * list (string * option value) :=
  fold_left
    (fun acc param =>
       let param_value := getattr (parameters file) param in
       (app (fst acc) [param ++ "_" ++ py_str_opt param_value],
        dict_set (snd acc) param param_value))
    parameters_ ([], []).

Definition describe (param_dict : list (string * option value)) : string :=
  "Files with "
  ++ String.concat ", "
       (map (fun pv => fst pv ++ "=" ++ py_str_opt (snd pv)) param_dict).

(** One iteration of the loop over [self.files]. *)
Definition group_step (parameters_ : list string)
  (groups : list (string * ExperimentGroup)) (file : DataFile)
  : list (string * ExperimentGroup) :=
  let (key_parts, param_dict) := key_of parameters_ file in
  match key_parts with
  | [] => groups
  | _ :: _ =>
      let key := String.concat "_" key_parts in
      let group :=
        match assoc groups key with
        | Some g => g
        | None =>
            {| name := key;
               description := describe param_dict;
               files := [];
               common_parameters := param_dict;
               varying_parameters := [] |}
        end in
      dict_set groups key (add_file group file)
  end.

Definition group_files_by_multiple_parameters (self_files : list DataFile)
  (parameters_ : list string) (min_group_size : nat) : list ExperimentGroup :=
  let groups := fold_left (group_step parameters_) self_files [] in
  filter (fun group => (min_group_size <=? List.length (files group))%nat)
         (map snd groups).

(** The body of the loop of [find_comparison_sets] for a retained group. *)
Definition mark_varying (group : ExperimentGroup) (varying_parameter : string)
  : ExperimentGroup :=
  {| name := name group;
     description := description group ++ ", varying " ++ varying_parameter;
     files := files group;
     common_parameters := common_parameters group;
     varying_parameters := [varying_parameter] |}.

Definition find_comparison_sets (self_files : list DataFile)
  (fixed_parameters : list string) (varying_parameter : string)
  : list ExperimentGroup :=
  let comparison_groups :=
    group_files_by_multiple_parameters self_files fixed_parameters 2 in
  fold_left
    (fun valid_comparison_groups group =>
       let varying_values := get_parameter_values group varying_parameter in
       if (1 <? List.length varying_values)%nat
       then (valid_comparison_groups
             ++ [mark_varying group varying_parameter])%list
       else valid_comparison_groups)
    comparison_groups [].

(** One iteration of the loop of [group_files_by_parameter]. *)
Definition parameter_step (parameter : string)
  (groups : list (string * ExperimentGroup)) (file : DataFile)
  : list (string * ExperimentGroup) :=
  match getattr (parameters file) parameter with
  | Some param_value =>
      let key := py_str param_value in
      let group :=
        match assoc groups key with
        | Some g => g
        | None =>
            {| name := parameter ++ "_" ++ key;
               description :=
                 "Files with " ++ parameter ++ " = " ++ py_str param_value;
               files := [];
               common_parameters := [(parameter, Some param_value)];
               varying_parameters := [] |}
        end in
      dict_set groups key (add_file group file)
  | None => groups
  end.

Definition group_files_by_parameter (self_files : list DataFile)
  (parameter : string) (min_group_size : nat) : list ExperimentGroup :=
  let groups := fold_left (parameter_step parameter) self_files [] in
  filter (fun group => (min_group_size <=? List.length (files group))%nat)
         (map snd groups).

End Grouping.

End DataModel.

(** ** [src/esa_analysis.py] *)

Module EsaAnalysis.

Import PyStr DataModel.
Local Open Scope Q_scope.

(** *** NumPy scalars and reductions *)

(** A float64 result: a number, or one of the special values.  The sign
    of zero is not modelled. *)
Inductive npfloat : Type :=
| Finite (q : Q)
| PInf
| NInf
| NaN.

Definition Qlt_bool (a b : Q) : bool := negb (Qle_bool b a).

Definition npf_add (a b : npfloat) : npfloat :=
  match a, b with
  | NaN, _ => NaN
  | _, NaN => NaN
  | Finite x, Finite y => Finite (x + y)
  | PInf, NInf => NaN
  | NInf, PInf => NaN
  | PInf, _ => PInf
  | _, PInf => PInf
  | NInf, _ => NInf
  | _, NInf => NInf
  end.

Definition npf_div (a b : npfloat) : npfloat :=
  match a, b with
  | NaN, _ => NaN
  | _, NaN => NaN
  | Finite x, Finite y =>
      if Qeq_bool y 0
      then (if Qeq_bool x 0 then NaN else if Qlt_bool 0 x then PInf else NInf)
      else Finite (x / y)
  | Finite _, _ => Finite 0
  | PInf, Finite y => if Qle_bool 0 y then PInf else NInf
  | NInf, Finite y => if Qle_bool 0 y then NInf else PInf
  | _, _ => NaN
  end.

(** [x >= 0] on a float64: false on [nan]. *)
Definition npf_nonneg (a : npfloat) : Prop :=
  match a with
  | Finite q => 0 <= q
  | PInf => True
  | NInf => False
  | NaN => False
  end.

Definition q_max (a b : Q) : Q := if Qle_bool a b then b else a.
Definition q_min (a b : Q) : Q := if Qle_bool b a then b else a.

Definition np_sum (l : list Q) : Q := fold_left Qplus l 0.

Definition count {A : Type} (l : list A) : Q :=
  inject_Z (Z.of_nat (List.length l)).

(** [np.max] and [np.min]: [ValueError] on a zero-size array. *)
Definition np_max (l : list Q) : result Q :=
  match l with
  | [] => Raise ValueError
  | x :: l' => Ok (fold_left q_max l' x)
  end.

Definition np_min (l : list Q) : result Q :=
  match l with
  | [] => Raise ValueError
  | x :: l' => Ok (fold_left q_min l' x)
  end.

Definition np_max_int (l : list Z) : result Z :=
  match l with
  | [] => Raise ValueError
  | x :: l' => Ok (fold_left Z.max l' x)
  end.

Definition np_min_int (l : list Z) : result Z :=
  match l with
  | [] => Raise ValueError
  | x :: l' => Ok (fold_left Z.min l' x)
  end.

(** [np.mean]: [nan] on a zero-size array; the exact quotient otherwise,
    where NumPy rounds. *)
Definition np_mean (l : list Q) : npfloat :=
  match l with
  | [] => NaN
  | _ :: _ => Finite (np_sum l / count l)
  end.

(** [np.average(a, weights=w)] for arrays of one length: NumPy raises
    [ZeroDivisionError] when the weights sum to zero.  The quotient is
    exact, where NumPy rounds. *)
Definition np_average (a : list Z) (w : list Q) : result Q :=
  let scl := np_sum w in
  if Qeq_bool scl 0 then Raise ZeroDivisionError
  else Ok (np_sum (map (fun aw => inject_Z (fst aw) * snd aw) (combine a w)) / scl).

Fixpoint insert_q (x : Q) (l : list Q) : list Q :=
  match l with
  | [] => [x]
  | y :: l' => if Qle_bool x y then x :: l else y :: insert_q x l'
  end.

Definition sort_q (l : list Q) : list Q := fold_right insert_q [] l.

(** [np.median]: the middle of the sorted values, or the mean of the two
    middle ones. *)
Definition np_median (l : list Q) : npfloat :=
  match l with
  | [] => NaN
  | _ :: _ =>
      let s := sort_q l in
      let n := List.length l in
      if Nat.even n
      then Finite ((nth (n / 2 - 1) s 0 + nth (n / 2) s 0) / 2)
      else Finite (nth (n / 2) s 0)
  end.

Section Sqrt.

(** [np.sqrt] on a non-negative number.  An exact rational model has no
    square root to offer, so the function is a parameter; the results
    that need it assume that it returns non-negative numbers. *)
Variable sqrtQ : Q -> Q.

(** [np.std]: [sqrt(mean(abs(x - mean(x))**2))], [nan] on a zero-size
    array. *)
Definition np_std (l : list Q) : npfloat :=
  match l with
  | [] => NaN
  | _ :: _ =>
      let m := np_sum l / count l in
      Finite (sqrtQ (np_sum (map (fun x => Qabs (x - m) * Qabs (x - m)) l)
                     / count l))
  end.

(** *** [ImpactRegion] and the detector *)

Record ImpactRegion : Type := mk_region {
  filename : string;
  beam_energy : Q;
  esa_voltage : Q;
  rotation_angle : option Q;
  centroid_x : Q;
  centroid_y : Q;
  peak_intensity : Q;
  total_intensity : Q;
  region_area : nat;
  min_x : Z;
  max_x : Z;
  min_y : Z;
  max_y : Z;
  signal_to_noise : npfloat;
  data_density : Q;
  rotation_angle_range : option (Q * Q);
  is_angle_range : bool
}.

(** [ESAAnalyzer.__init__] *)
Definition noise_threshold : Q := 5 # 100.
Definition min_region_size : nat := 10.

(** [1e-10] *)
Definition epsilon : Q := 1 # 10000000000.

(** A pixel with its position: [(y, x, value)], rows first as
    [np.where] and boolean indexing enumerate them. *)
Definition pixel : Type := (Z * Z * Q)%type.

Fixpoint enum_row (y x : Z) (row : list Q) : list pixel :=
  match row with
  | [] => []
  | v :: row' => (y, x, v) :: enum_row y (x + 1) row'
  end.

Fixpoint enum_rows (y : Z) (img : image) : list pixel :=
  match img with
  | [] => []
  | row :: img' => enum_row y 0 row ++ enum_rows (y + 1) img'
  end.

Definition pixels (img : image) : list pixel := enum_rows 0 img.

(** The array flattened; [raw_data.size] is its length. *)
Definition flat (img : image) : list Q := concat img.

(** Python [/] on numbers. *)
Definition py_div (a b : Q) : result Q :=
  if Qeq_bool b 0 then Raise ZeroDivisionError else Ok (a / b).

(** [v or 0.0] on an [Optional[float]]. *)
Definition or_zero (o : option Q) : Q :=
  match o with
  | Some v => if Qeq_bool v 0 then 0 else v
  | None => 0
  end.

(** [normalized_data > threshold] at one pixel. *)
Definition above (threshold : Q) (px : pixel) : bool :=
  Qlt_bool threshold (snd px).

(** [load_ok] is what [self.data_manager.load_file_data(data_file)]
    returned and [data_file] the entity as that call left it; reading the
    file is outside the model. *)
Definition _analyze_single_impact_region (load_ok : bool) (data_file : DataFile)
  : result (option ImpactRegion) :=
  if negb load_ok then Ok None else
  match fits_data data_file with
  | None => Ok None
  | Some fd =>
  match data fd with
  | None => Ok None
  | Some raw_data =>
      raw_max <- np_max (flat raw_data) ;;
      if Qlt_bool 0 raw_max then
        let normalized_data := map (map (fun v => v / raw_max)) raw_data in
        peak_value <- np_max (flat normalized_data) ;;
        let threshold := peak_value * noise_threshold in
        let signal := filter (above threshold) (pixels normalized_data) in
        let noise :=
          filter (fun px => negb (above threshold px)) (pixels normalized_data) in
        if (List.length signal <? min_region_size)%nat then Ok None else
        let y_coords := map (fun px : pixel => fst (fst px)) signal in
        let x_coords := map (fun px : pixel => snd (fst px)) signal in
        if (List.length x_coords =? 0)%nat then Ok None else
        let weights := map (fun px : pixel => snd px) signal in
        cx <- np_average x_coords weights ;;
        cy <- np_average y_coords weights ;;
        mnx <- np_min_int x_coords ;;
        mxx <- np_max_int x_coords ;;
        mny <- np_min_int y_coords ;;
        mxy <- np_max_int y_coords ;;
        let signal_region := weights in
        let noise_region := map (fun px : pixel => snd px) noise in
        let snr :=
          npf_div (np_mean signal_region)
                  (npf_add (np_std noise_region) (Finite epsilon)) in
        let params := parameters data_file in
        density <- py_div (count x_coords) (count (flat raw_data)) ;;
        Ok (Some
          {| filename := df_filename data_file;
             beam_energy := or_zero (FilenameParser.beam_energy_value params);
             esa_voltage := or_zero (FilenameParser.esa_voltage_value params);
             rotation_angle := FilenameParser.inner_angle_value params;
             rotation_angle_range := FilenameParser.inner_angle_range params;
             is_angle_range := FilenameParser.is_angle_range params;
             centroid_x := cx;
             centroid_y := cy;
             peak_intensity := peak_value;
             total_intensity := np_sum weights;
             region_area := List.length x_coords;
             min_x := mnx;
             max_x := mxx;
             min_y := mny;
             max_y := mxy;
             signal_to_noise := snr;
             data_density := density |})
      else Ok None
  end
  end.

(** *** [ESAMeasurement] and the k-factor estimator *)

Record ESAMeasurement : Type := mk_measurement {
  impact_region : ImpactRegion;
  theoretical_deflection : Q;
  measured_deflection : Q;
  k_factor_estimate : option Q
}.

Definition nonzero (q : Q) : bool := negb (Qeq_bool q 0).

(** The method stores the estimate on the measurement and returns it. *)
Definition calculate_k_factor (self : ESAMeasurement)
  : result (ESAMeasurement * option Q) :=
  let region := impact_region self in
  if nonzero (esa_voltage region) && nonzero (beam_energy region) then
    k <- py_div (beam_energy region) (Qabs (esa_voltage region)) ;;
    Ok ({| impact_region := region;
           theoretical_deflection := theoretical_deflection self;
           measured_deflection := measured_deflection self;
           k_factor_estimate := Some k |}, Some k)
  else Ok (self, k_factor_estimate self).

Definition _calculate_theoretical_deflection (beam_energy_ esa_voltage_ : Q)
  : result Q :=
  if Qlt_bool 0 beam_energy_ then py_div esa_voltage_ beam_energy_ else Ok 0.

(** The dictionary [estimate_k_factor] returns. *)
Record KFactorStats : Type := mk_stats {
  k_factor_mean : npfloat;
  k_factor_std : npfloat;
  k_factor_median : npfloat;
  k_factor_range : Q * Q;
  num_measurements : nat;
  measurements : list ESAMeasurement;
  k_factors : list Q
}.

Inductive KFactorResult : Type :=
| KError (error : string)
| KStats (results : KFactorStats).

(** The message of [logger.info] for a region collected over an angle
    range: the f-string formats [region.rotation_angle] with [:.1f],
    which raises [TypeError] on [None].  The text itself is not kept. *)
Definition log_angle_range (region : ImpactRegion) : result unit :=
  match rotation_angle region with
  | Some _ => Ok tt
  | None => Raise TypeError
  end.

(** The body of the first loop: one region.  The measurement is appended
    before the message is formatted. *)
Definition measure (ms : list ESAMeasurement) (region : ImpactRegion)
  : result (list ESAMeasurement) :=
  if nonzero (esa_voltage region) && nonzero (beam_energy region) then
    td <- _calculate_theoretical_deflection (beam_energy region) (esa_voltage region) ;;
    let detector_center_x := 512 in
    md <- py_div (centroid_x region - detector_center_x) detector_center_x ;;
    let ms' := ms ++ [ {| impact_region := region;
                          theoretical_deflection := td;
                          measured_deflection := md;
                          k_factor_estimate := None |} ] in
    if is_angle_range region
       && match rotation_angle_range region with
          | Some _ => true
          | None => false
          end
    then _ <- log_angle_range region ;; Ok ms'
    else Ok ms'
  else Ok ms.

(** The body of the second loop: one measurement, updated in place. *)
Definition collect (acc : list ESAMeasurement * list Q) (m : ESAMeasurement)
  : result (list ESAMeasurement * list Q) :=
  mk <- calculate_k_factor m ;;
  Ok (fst acc ++ [fst mk],
      match snd mk with
      | Some k => snd acc ++ [k]
      | None => snd acc
      end).

Definition estimate_k_factor (regions : list ImpactRegion) : result KFactorResult :=
  ms <- foldM measure regions [] ;;
  match ms with
  | [] => Ok (KError "No valid measurements for k-factor estimation")
  | _ :: _ =>
      mks <- foldM collect ms ([], []) ;;
      match snd mks with
      | [] => Ok (KError "Could not calculate any k-factors")
      | _ :: _ =>
          lo <- np_min (snd mks) ;;
          hi <- np_max (snd mks) ;;
          Ok (KStats
            {| k_factor_mean := np_mean (snd mks);
               k_factor_std := np_std (snd mks);
               k_factor_median := np_median (snd mks);
               k_factor_range := (lo, hi);
               num_measurements := List.length (snd mks);
               measurements := fst mks;
               k_factors := snd mks |})
      end
  end.

(** [analyze_impact_regions], each file paired with the outcome of its
    load. *)
Definition analyze_impact_regions (files_ : list (bool * DataFile))
  : result (list ImpactRegion) :=
  foldM (fun regions f =>
           region <- _analyze_single_impact_region (fst f) (snd f) ;;
           match region with
           | Some r => Ok (regions ++ [r])
           | None => Ok regions
           end)
        files_ [].

End Sqrt.

End EsaAnalysis.
(** ** Definitions used to state the properties of the estimator and the
       detector *)

Module EsaSpec.

Import PyStr DataModel EsaAnalysis.
Local Open Scope Q_scope.

(** The test [region.esa_voltage != 0 and region.beam_energy != 0]. *)
Definition valid_region (r : ImpactRegion) : bool :=
  nonzero (esa_voltage r) && nonzero (beam_energy r).

Definition k_of (r : ImpactRegion) : Q := beam_energy r / Qabs (esa_voltage r).

(** A region whose log message cannot be formatted: it is flagged as
    collected over an angle range, stores the range, and has no rotation
    angle. *)
Definition unformattable (r : ImpactRegion) : bool :=
  is_angle_range r
  && match rotation_angle_range r with
     | Some _ => true
     | None => false
     end
  && match rotation_angle r with
     | Some _ => false
     | None => true
     end.

(** The measurement the estimator holds for a region once both loops
    have run. *)
Definition measurement_of (r : ImpactRegion) : ESAMeasurement :=
  {| impact_region := r;
     theoretical_deflection :=
       if Qlt_bool 0 (beam_energy r) then esa_voltage r / beam_energy r else 0;
     measured_deflection := (centroid_x r - 512) / 512;
     k_factor_estimate := Some (k_of r) |}.

(** The same measurement as the first loop builds it. *)
Definition fresh_measurement_of (r : ImpactRegion) : ESAMeasurement :=
  {| impact_region := r;
     theoretical_deflection := theoretical_deflection (measurement_of r);
     measured_deflection := measured_deflection (measurement_of r);
     k_factor_estimate := None |}.

(** The statistics bundle for a non-empty list of k-factors. *)
Definition stats_of (sqrtQ : Q -> Q) (ms : list ESAMeasurement) (k0 : Q)
  (ks : list Q) : KFactorStats :=
  {| k_factor_mean := np_mean (k0 :: ks);
     k_factor_std := np_std sqrtQ (k0 :: ks);
     k_factor_median := np_median (k0 :: ks);
     k_factor_range := (fold_left q_min ks k0, fold_left q_max ks k0);
     num_measurements := List.length (k0 :: ks);
     measurements := ms;
     k_factors := k0 :: ks |}.

(** What [estimate_k_factor] returns, read off the regions that pass the
    test. *)
Definition estimate_of (sqrtQ : Q -> Q) (regions : list ImpactRegion)
  : KFactorResult :=
  match filter valid_region regions with
  | [] => KError "No valid measurements for k-factor estimation"
  | r :: rs =>
      KStats (stats_of sqrtQ (map measurement_of (r :: rs)) (k_of r) (map k_of rs))
  end.

(** A rational below the square root, to run the model on examples. *)
Definition sqrt_floor (q : Q) : Q :=
  Z.sqrt (Qnum q * Z.pos (Qden q)) # Qden q.

(** An entity whose load succeeded with image [img]. *)
Definition loaded_file (path : string) (img : image) : DataFile :=
  {| filepath := path;
     parameters :=
       FilenameParser.new_parameters path "fits" (basename path);
     df_file_type := "fits";
     fits_data := Some {| data := Some img; fits_has_errors := false |};
     is_loaded := true;
     has_errors := false;
     error_messages := [] |}.

(** A region with the given energy, voltage and horizontal centroid. *)
Definition region_with (e v cx : Q) : ImpactRegion :=
  {| filename := "region.fits";
     beam_energy := e;
     esa_voltage := v;
     rotation_angle := None;
     centroid_x := cx;
     centroid_y := 512;
     peak_intensity := 1;
     total_intensity := 40;
     region_area := 50;
     min_x := 500; max_x := 700; min_y := 480; max_y := 540;
     signal_to_noise := Finite 20;
     data_density := 50 # 1048576;
     rotation_angle_range := None;
     is_angle_range := false |}.

(** The pixels of an image that are strictly above [0.05] times the
    peak, once the image is divided by its maximum [m]. *)
Definition flagged (img : image) (m : Q) : list Q :=
  let normalized := map (fun v => v / m) (flat img) in
  match np_max normalized with
  | Ok peak => filter (fun v => Qlt_bool (peak * noise_threshold) v) normalized
  | Raise _ => []
  end.

(** The other pixels: the non-signal set. *)
Definition unflagged (img : image) (m : Q) : list Q :=
  let normalized := map (fun v => v / m) (flat img) in
  match np_max normalized with
  | Ok peak =>
      filter (fun v => negb (Qlt_bool (peak * noise_threshold) v)) normalized
  | Raise _ => []
  end.





(** A 4x4 image of ones: every pixel is in the signal set. *)
Definition uniform_image : image := repeat (repeat 1 4) 4.

(** A 4x4 image with a ten-pixel spot. *)
Definition spot_image : image :=
  [[0; 0; 0; 0]; [0; 5; 5; 5]; [5; 10; 5; 5]; [5; 5; 5; 0]].


End EsaSpec.

(** ** Definitions used to state the properties of the parser *)

Module ParserSpec.

Import PyStr CharClass Re FilenameParser.
Local Open Scope string_scope.

(** The characters of a token [float] accepts in this model. *)
Definition is_numeric_char (c : ascii) : bool :=
  is_digit c || Ascii.eqb c "."%char || Ascii.eqb c "-"%char.

Definition is_decimal_char (c : ascii) : bool :=
  is_digit c || Ascii.eqb c "."%char.

Definition is_not_t (c : ascii) : bool := negb (Ascii.eqb c "t"%char).

(** The string the patterns are tried on. *)
Definition name_for_parsing (fname : string) : string :=
  _clean_filename_for_parsing (basename fname).

(** No pattern of the dictionary matches. *)
Definition unmatched (fname : string) : Prop :=
  forall pattern_name pattern,
    In (pattern_name, pattern) patterns ->
    search pattern (name_for_parsing fname) = None.

(** Every optional field of the record is absent and no flag is set. *)
Definition all_optional_absent (p : ExperimentalParameters) : Prop :=
  beam_energy p = None /\ beam_energy_value p = None
  /\ beam_energy_unit p = None
  /\ esa_voltage p = None /\ esa_voltage_value p = None
  /\ mcp_voltage p = None /\ mcp_voltage_value p = None
  /\ inner_angle p = None /\ inner_angle_value p = None
  /\ inner_angle_range p = None /\ is_angle_range p = false
  /\ horizontal_value p = None /\ horizontal_value_num p = None
  /\ focus_x p = None /\ focus_y p = None
  /\ offset_x p = None /\ offset_y p = None
  /\ wave_type p = None /\ timestamp p = None /\ datetime_obj p = None
  /\ is_dark p = false /\ is_ramp p = false /\ is_rotating p = false
  /\ sequence_info p = None.

(** What a capture of each converted group is good for. *)
Definition converts (n w : string) : Prop :=
  (n = "beam_energy" -> exists q, _parse_energy w = Ok (q, "eV"))
  /\ (n = "esa_voltage" \/ n = "mcp_voltage" \/ n = "hor_value" ->
      exists q, py_float w = Ok q)
  /\ (n = "inner_angle" -> exists a, _parse_angle w = Ok a).

(** The energy token of the fully-annotated grammar: a number followed
    by ["eV"] or ["keV"], with the value [_parse_energy] gives it. *)
Definition annotated_energy (w : string) : Prop :=
  exists num q,
    py_float num = Ok q
    /\ ((w = num ++ "eV" /\ _parse_energy w = Ok (q, "eV"))
        \/ (w = num ++ "keV" /\ _parse_energy w = Ok ((q * 1000)%Q, "eV"))).

Definition detailed_capture (n w : string) : Prop :=
  n = "beam_energy" -> annotated_energy w.

(** The record [parse_filename] builds before classification. *)
Definition parsed_from (fname : string) (p' : ExperimentalParameters) : Prop :=
  let params :=
    new_parameters fname (_get_file_type (basename fname)) (basename fname) in
  (first_match patterns (name_for_parsing fname) = None /\ p' = params)
  \/ (exists pattern_name pattern g energy esa mcp ang hor,
        In (pattern_name, pattern) patterns
        /\ search pattern (name_for_parsing fname) = Some g
        /\ first_match patterns (name_for_parsing fname) = Some (pattern_name, g)
        /\ energy_group g = Ok energy
        /\ present energy = present (group g "beam_energy")
        /\ float_group g "esa_voltage" = Ok esa
        /\ present esa = present (group g "esa_voltage")
        /\ float_group g "mcp_voltage" = Ok mcp
        /\ angle_group g = Ok ang
        /\ float_group g "hor_value" = Ok hor
        /\ p' = assign_parameters params g pattern_name energy esa mcp ang hor).

(** Sample file names, after the test list of the source. *)
Definition sweep_file : string :=
  "data/ACI_ESA-Inner-84to-118-Hor79_Beam-1.5keV_Focus-X-pt4-Y-2_Offset-X--pt1_Y-1_Wave-Triangle_ESA--181_MCP-2200-100240922-213604.fits".

Definition energy_file : string := "ACI ESA 1000eV240922-190315.fits".

Definition annotated_file : string :=
  "ACI_ESA-Inner-62-Hor79_Beam-1000eV_Focus-X-pt4-Y-2_Offset-X--pt1_Y-1_Wave-Triangle_ESA--181_MCP-2200-100240922-213604.fits".

Definition unmatched_file : string := "notes/readme.txt".

End ParserSpec.

(** ** Definitions used to state the properties of the catalog *)

Module CatalogSpec.

Import PyStr FilenameParser DataModel.
Local Open Scope string_scope.

(** The values of a list are pairwise different under [==]. *)
Fixpoint distinct (l : list value) : Prop :=
  match l with
  | [] => True
  | v :: l' => (forall w, In w l' -> value_eqb v w = false) /\ distinct l'
  end.

(** Two attribute entries of one name whose values are of one type. *)
Definition same_kind (x y : string * option value) : Prop :=
  fst x = fst y
  /\ forall v v', snd x = Some v -> snd y = Some v' -> kind v = kind v'.

(** Two files of the group hold different, present values of
    [parameter]. *)
Definition varies (group : ExperimentGroup) (parameter : string) : Prop :=
  exists f1 f2 v1 v2,
    In f1 (files group) /\ In f2 (files group)
    /\ getattr (parameters f1) parameter = Some v1
    /\ getattr (parameters f2) parameter = Some v2
    /\ value_eqb v1 v2 = false.

(** A stand-in for [str] to run the grouping on examples: exact on
    strings, booleans and floats with an integer value. *)
Definition show_Z (z : Z) : string :=
  DecimalString.NilZero.string_of_int (Z.to_int z).

Definition show_Q (q : Q) : string :=
  let r := Qred q in
  if Pos.eqb (Qden r) 1 then show_Z (Qnum r) ++ ".0"
  else show_Z (Qnum r) ++ "/" ++ show_Z (Z.pos (Qden r)).

Definition show_value (v : value) : string :=
  match v with
  | VStr s => s
  | VFloat q => show_Q q
  | VRange lo hi => "(" ++ show_Q lo ++ ", " ++ show_Q hi ++ ")"
  | VBool true => "True"
  | VBool false => "False"
  | VDatetime d =>
      show_Z (year d) ++ "-" ++ show_Z (month d) ++ "-" ++ show_Z (day d)
      ++ " " ++ show_Z (hour d) ++ ":" ++ show_Z (minute d) ++ ":"
      ++ show_Z (second d)
  end.

(** The entity [discover_files] builds for a path. *)
Definition entity (path : string) : DataFile :=
  {| filepath := path;
     parameters :=
       match parse_filename path with
       | Ok p => p
       | Raise _ => new_parameters path "unknown" (basename path)
       end;
     df_file_type := "fits";
     fits_data := None;
     is_loaded := false;
     has_errors := false;
     error_messages := [] |}.

(** A small catalog: two voltages at 1000 eV, one file at 5000 eV. *)
Definition sample_catalog : list DataFile :=
  [ entity "data/ACI ESA 181V 1000eV BEAM240921-215501.fits";
    entity "data/ACI ESA 5000eV240922-190315.fits";
    entity "data/ACI ESA 190V 1000eV BEAM240921-220102.fits" ].

End CatalogSpec.

(** ** Definitions used to state further properties *)

Module CatalogMore.

Import PyStr FilenameParser DataModel.
Local Open Scope string_scope.

(** The files of a list whose grouping key is [key]. *)
Definition members (keyf : DataFile -> option string) (key : string)
  (fs : list DataFile) : list DataFile :=
  filter (fun f => match keyf f with
                   | Some k => String.eqb k key
                   | None => false
                   end) fs.

(** The shape shared by the two grouping loops: a file with a key joins
    the group of that key, created from the file when it is new. *)
Definition grouping_step (keyf : DataFile -> option string)
  (fresh : string -> DataFile -> ExperimentGroup)
  (groups : list (string * ExperimentGroup)) (file : DataFile)
  : list (string * ExperimentGroup) :=
  match keyf file with
  | Some key =>
      dict_set groups key
        (add_file (match assoc groups key with
                   | Some g => g
                   | None => fresh key file
                   end) file)
  | None => groups
  end.

(** [g] is the group of key [key] over the files [fs]: the header of the
    group created from the first file, and [fs] as its files. *)
Definition group_of (fresh : string -> DataFile -> ExperimentGroup)
  (key : string) (fs : list DataFile) (g : ExperimentGroup) : Prop :=
  match fs with
  | [] => False
  | f0 :: _ =>
      g = {| name := name (fresh key f0);
             description := description (fresh key f0);
             files := fs;
             common_parameters := common_parameters (fresh key f0);
             varying_parameters := varying_parameters (fresh key f0) |}
  end.

(** The dictionary of groups after the files [seen]. *)
Definition grouped (keyf : DataFile -> option string)
  (fresh : string -> DataFile -> ExperimentGroup) (seen : list DataFile)
  (groups : list (string * ExperimentGroup)) : Prop :=
  NoDup (map fst groups)
  /\ forall k,
       match assoc groups k with
       | Some g => group_of fresh k (members keyf k seen) g
       | None => members keyf k seen = []
       end.

(** The number of files held by the groups of a dictionary. *)
Definition held (groups : list (string * ExperimentGroup)) : nat :=
  list_sum (map (fun kg => List.length (files (snd kg))) groups).

Definition has_key (keyf : DataFile -> option string) (f : DataFile) : bool :=
  match keyf f with
  | Some _ => true
  | None => false
  end.

Section Keys.

Variable py_str : value -> string.

(** The key [group_files_by_multiple_parameters] gives a file. *)
Definition multi_key (parameters_ : list string) (file : DataFile)
  : option string :=
  match fst (key_of py_str parameters_ file) with
  | [] => None
  | part :: parts => Some (String.concat "_" (part :: parts))
  end.

Definition multi_fresh (parameters_ : list string) (key : string)
  (file : DataFile) : ExperimentGroup :=
  {| name := key;
     description := describe py_str (snd (key_of py_str parameters_ file));
     files := [];
     common_parameters := snd (key_of py_str parameters_ file);
     varying_parameters := [] |}.

(** The key [group_files_by_parameter] gives a file. *)
Definition single_key (parameter : string) (file : DataFile) : option string :=
  option_map py_str (getattr (parameters file) parameter).

Definition single_fresh (parameter : string) (key : string) (file : DataFile)
  : ExperimentGroup :=
  {| name := parameter ++ "_" ++ key;
     description :=
       "Files with " ++ parameter ++ " = "
       ++ py_str_opt py_str (getattr (parameters file) parameter);
     files := [];
     common_parameters := [(parameter, getattr (parameters file) parameter)];
     varying_parameters := [] |}.

End Keys.

(** The relation behind [value_leb]. *)
Definition value_le (a b : value) : Prop := value_leb a b = true.

End CatalogMore.

Module ParserMore.

Import PyStr CharClass Re FilenameParser ParserSpec.
Local Open Scope string_scope.

(** The names of the groups of a pattern, optional ones included. *)
Fixpoint group_names (r : regex) : list string :=
  match r with
  | Opt r' => group_names r'
  | Seq r1 r2 => (group_names r1 ++ group_names r2)%list
  | Grp n r' => n :: group_names r'
  | _ => []
  end.

(** The test type a match of each pattern of the dictionary leads to. *)
Definition test_type_of_pattern (pattern_name : string) : string :=
  if String.eqb pattern_name "dark" then "dark"
  else if String.eqb pattern_name "ramp_up" then "ramp_up"
  else if String.eqb pattern_name "rotating" then "rotating"
  else if String.eqb pattern_name "detailed"
          || String.eqb pattern_name "voltage_energy" then "voltage_sweep"
  else if String.eqb pattern_name "simple_energy"
          || String.eqb pattern_name "beam_prep" then "energy_test"
  else "unknown".

(** An energy token converts to a value that is not negative. *)
Definition energy_not_negative (n w : string) : Prop :=
  n = "beam_energy" ->
  exists q, _parse_energy w = Ok (q, "eV") /\ (0 <= q)%Q.

(** The extensions [_clean_filename_for_parsing] removes, each with the
    type [_get_file_type] gives a name that ends with it. *)
Definition extensions : list (string * string) :=
  [ ("", "unknown"); (".fits", "fits"); (".map", "map"); (".fits.map", "map");
    (".phd", "phd"); (".fits.phd", "phd") ].

(** A datetime [datetime.strptime] can return for the format
    ['%y%m%d-%H%M%S']. *)
Definition valid_datetime (d : datetime) : Prop :=
  (1969 <= year d <= 2068 /\ 1 <= month d <= 12
   /\ 1 <= day d <= days_in_month (year d) (month d)
   /\ 0 <= hour d <= 23 /\ 0 <= minute d <= 59 /\ 0 <= second d <= 59)%Z.

End ParserMore.

Module EsaMore.

Import PyStr DataModel EsaAnalysis EsaSpec.
Local Open Scope Q_scope.

(** The signal set with its positions: the pixels of the image divided
    by its maximum [m] that are above the threshold, rows first. *)
Definition signal_pixels (img : image) (m : Q) : list pixel :=
  filter (above (m / m * noise_threshold))
         (pixels (map (map (fun v => v / m)) img)).

Definition xs_of (l : list pixel) : list Z := map (fun px : pixel => snd (fst px)) l.
Definition ys_of (l : list pixel) : list Z := map (fun px : pixel => fst (fst px)) l.
Definition weights_of (l : list pixel) : list Q := map (fun px : pixel => snd px) l.

(** The regions [analyze_impact_regions] appends for one file. *)
Definition produced (sqrtQ : Q -> Q) (f : bool * DataFile) : list ImpactRegion :=
  match _analyze_single_impact_region sqrtQ (fst f) (snd f) with
  | Ok (Some r) => [r]
  | _ => []
  end.

(** A file the detector can work on: its load failed, or it has no
    image, or its image has at least one pixel. *)
Definition workable (f : bool * DataFile) : Prop :=
  fst f = false
  \/ fits_data (snd f) = None
  \/ (exists fd, fits_data (snd f) = Some fd
                 /\ (data fd = None
                     \/ exists img, data fd = Some img /\ flat img <> [])).

(** A region with the polarity of its voltage reversed. *)
Definition reverse_polarity (r : ImpactRegion) : ImpactRegion :=
  {| filename := filename r;
     beam_energy := beam_energy r;
     esa_voltage := - esa_voltage r;
     rotation_angle := rotation_angle r;
     centroid_x := centroid_x r;
     centroid_y := centroid_y r;
     peak_intensity := peak_intensity r;
     total_intensity := total_intensity r;
     region_area := region_area r;
     min_x := min_x r;
     max_x := max_x r;
     min_y := min_y r;
     max_y := max_y r;
     signal_to_noise := signal_to_noise r;
     data_density := data_density r;
     rotation_angle_range := rotation_angle_range r;
     is_angle_range := is_angle_range r |}.

(** The statistics of a result, without the measurements. *)
Definition summary (res : KFactorResult)
  : option (npfloat * npfloat * npfloat * (Q * Q) * nat * list Q) :=
  match res with
  | KError _ => None
  | KStats st =>
      Some (k_factor_mean st, k_factor_std st, k_factor_median st,
            k_factor_range st, num_measurements st, k_factors st)
  end.

(** An entity of the catalog whose load succeeded with image [img]. *)
Definition loaded_entity (path : string) (img : image) : DataFile :=
  {| filepath := path;
     parameters := parameters (CatalogSpec.entity path);
     df_file_type := "fits";
     fits_data := Some {| data := Some img; fits_has_errors := false |};
     is_loaded := true;
     has_errors := false;
     error_messages := [] |}.

End EsaMore.

(** * Properties *)

Unset Implicit Arguments.

(** ** Strings *)

Section StringFacts.

Import PyStr.
Local Open Scope string_scope.

Lemma append_assoc (a b c : string) : (a ++ b) ++ c = a ++ (b ++ c).
Proof. induction a as [|x a IH]; simpl; [reflexivity|now rewrite IH]. Qed.

Lemma append_nil_r (a : string) : a ++ "" = a.
Proof. induction a as [|x a IH]; simpl; [reflexivity|now rewrite IH]. Qed.

Lemma length_append (a b : string) :
  String.length (a ++ b) = (String.length a + String.length b)%nat.
Proof. induction a as [|x a IH]; simpl; [reflexivity|now rewrite IH]. Qed.

Lemma substring_append (a b : string) : substring 0 (String.length a) (a ++ b) = a.
Proof.
  induction a as [|x a IH]; simpl.
  - now destruct b.
  - now rewrite IH.
Qed.

Lemma list_of_append (a b : string) :
  list_ascii_of_string (a ++ b)
  = (list_ascii_of_string a ++ list_ascii_of_string b)%list.
Proof. induction a as [|x a IH]; simpl; [reflexivity|now rewrite IH]. Qed.

Lemma list_of_string_inj (a b : string) :
  list_ascii_of_string a = list_ascii_of_string b -> a = b.
Proof.
  intro H. rewrite <- (string_of_list_ascii_of_string a),
    <- (string_of_list_ascii_of_string b). now rewrite H.
Qed.

Lemma append_inv_tail (a b c : string) : a ++ c = b ++ c -> a = b.
Proof.
  intro H. apply list_of_string_inj.
  apply (f_equal list_ascii_of_string) in H. rewrite !list_of_append in H.
  now apply app_inv_tail in H.
Qed.

(** A string that is not empty ends with some character. *)
Lemma string_snoc (s : string) :
  s = "" \/ exists s' c, s = s' ++ String c "".
Proof.
  induction s as [|x s IH]; [now left|right].
  destruct IH as [->|[s' [c ->]]].
  - now exists "", x.
  - now exists (String x s'), c.
Qed.

Lemma append_snoc_inj (a b : string) (x y : ascii) :
  a ++ String x "" = b ++ String y "" -> a = b /\ x = y.
Proof.
  intro H. apply (f_equal list_ascii_of_string) in H.
  rewrite !list_of_append in H. simpl in H.
  apply app_inj_tail in H. destruct H as [H ->].
  split; [now apply list_of_string_inj|reflexivity].
Qed.

Lemma consumed_append (w s' : string) : Re.consumed (w ++ s') s' = w.
Proof.
  unfold Re.consumed. rewrite length_append.
  replace (String.length w + String.length s' - String.length s')%nat
    with (String.length w) by lia.
  apply substring_append.
Qed.

Lemma drop_last_append (a suf : string) :
  drop_last (String.length suf) (a ++ suf) = a.
Proof.
  unfold drop_last. rewrite length_append.
  replace (String.length a + String.length suf - String.length suf)%nat
    with (String.length a) by lia.
  apply substring_append.
Qed.

Lemma endswith_append (a suf : string) : endswith (a ++ suf) suf = true.
Proof.
  induction a as [|x a IH].
  - destruct suf; [reflexivity|]. cbn [append endswith].
    now rewrite String.eqb_refl.
  - cbn [append endswith].
    destruct (String.eqb (String x (a ++ suf)) suf); [reflexivity|exact IH].
Qed.

Lemma endswith_inv (s suf : string) :
  endswith s suf = true -> exists a, s = a ++ suf.
Proof.
  induction s as [|x s IH]; cbn [endswith].
  - destruct suf; [now exists ""|discriminate].
  - destruct (String.eqb (String x s) suf) eqn:E.
    + apply String.eqb_eq in E. now exists "".
    + intro H. destruct (IH H) as [a ->]. now exists (String x a).
Qed.

Lemma all_in_append (p : ascii -> bool) (a b : string) :
  Re.all_in p (a ++ b) <-> Re.all_in p a /\ Re.all_in p b.
Proof.
  induction a as [|x a IH]; simpl; [tauto|]. rewrite IH. tauto.
Qed.

Lemma all_in_weaken (p q : ascii -> bool) (w : string) :
  (forall c, p c = true -> q c = true) -> Re.all_in p w -> Re.all_in q w.
Proof.
  intro H. induction w as [|x w IH]; simpl; [auto|].
  intros [Hx Hw]. auto.
Qed.

End StringFacts.

(** ** The matcher only accepts words of the pattern *)

Section MatcherFacts.

Import PyStr Re.
Local Open Scope string_scope.

Lemma strip_prefix_spec (l : string) : forall s s',
  strip_prefix l s = Some s' -> s = l ++ s'.
Proof.
  induction l as [|a l IH]; intros s s' H; simpl in *.
  - now injection H as ->.
  - destruct s as [|b s]; [discriminate|].
    destruct (Ascii.eqb a b) eqn:E; [|discriminate].
    apply Ascii.eqb_eq in E. subst b. now rewrite (IH _ _ H).
Qed.

Lemma take_class_spec (n : nat) (p : ascii -> bool) : forall s s',
  take_class n p s = Some s' ->
  exists w, s = w ++ s' /\ String.length w = n /\ all_in p w.
Proof.
  induction n as [|n IH]; intros s s' H; simpl in *.
  - injection H as ->. now exists "".
  - destruct s as [|c s]; [discriminate|].
    destruct (p c) eqn:E; [|discriminate].
    destruct (IH _ _ H) as [w [-> [Hl Hw]]].
    exists (String c w). simpl. auto.
Qed.

Lemma greedy_spec {A : Type} (p : ascii -> bool) (k : string -> option A)
  (x : A) : forall s,
  greedy p s k = Some x ->
  exists w s', s = w ++ s' /\ all_in p w /\ k s' = Some x.
Proof.
  induction s as [|c s IH]; cbn [greedy]; intro H.
  - exists "", "". simpl. auto.
  - destruct (p c) eqn:E.
    + destruct (greedy p s k) as [y|] eqn:G.
      * injection H as ->. destruct (IH eq_refl) as [w [s' [-> [Hw Hk]]]].
        exists (String c w), s'. simpl. auto.
      * exists "", (String c s). simpl. auto.
    + exists "", (String c s). simpl. auto.
Qed.

Lemma lookup_app_some (d g : groups) (n : string) :
  lookup d n <> None -> lookup (d ++ g)%list n = lookup d n.
Proof.
  induction d as [|[m v] d IH]; simpl; [congruence|].
  destruct (String.eqb m n); auto.
Qed.

Lemma lookup_app_keep (d g : groups) (n : string) :
  lookup g n <> None -> lookup (d ++ g)%list n <> None.
Proof.
  induction d as [|[m v] d IH]; simpl; [auto|].
  destruct (String.eqb m n); [discriminate|auto].
Qed.

Lemma lookup_In (g : groups) (n v : string) : lookup g n = Some v -> In (n, v) g.
Proof.
  induction g as [|[m w] g IH]; simpl; [discriminate|].
  destruct (String.eqb m n) eqn:E.
  - apply String.eqb_eq in E. intro H. injection H as ->. subst. now left.
  - auto.
Qed.

Variable good : string -> string -> Prop.

Lemma rmatch_sound {A : Type} (r : regex) :
  groups_good good r ->
  forall s g (k : string -> groups -> option A) x,
  rmatch r s g k = Some x ->
  exists w s' d,
    s = w ++ s' /\ lang r w /\ captures_good good d
    /\ (forall n, defines r n = true -> lookup d n <> None)
    /\ k s' (d ++ g)%list = Some x.
Proof.
  induction r as [l|p|p|p|n p|r IH|r1 IH1 r2 IH2|name r IH];
    intros Hgood s g k x H; simpl in H.
  - destruct (strip_prefix l s) as [s'|] eqn:E; [|discriminate].
    apply strip_prefix_spec in E. exists l, s', [].
    repeat split; try assumption; try discriminate. intros n v [].
  - destruct s as [|c s]; [discriminate|].
    destruct (p c) eqn:E; [|discriminate].
    exists (String c ""), s, []. simpl.
    repeat split; eauto; try discriminate. intros n v [].
  - destruct s as [|c s]; [discriminate|].
    destruct (p c) eqn:E; [|discriminate].
    apply greedy_spec in H. destruct H as [w [s' [-> [Hw Hk]]]].
    exists (String c w), s', []. simpl.
    repeat split; auto; try discriminate. intros n v [].
  - apply greedy_spec in H. destruct H as [w [s' [-> [Hw Hk]]]].
    exists w, s', []. simpl. repeat split; auto; try discriminate.
    intros n v [].
  - destruct (take_class n p s) as [s'|] eqn:E; [|discriminate].
    apply take_class_spec in E. destruct E as [w [-> [Hl Hw]]].
    exists w, s', []. simpl. repeat split; auto; try discriminate.
    intros m v [].
  - destruct (rmatch r s g k) as [y|] eqn:E.
    + injection H as ->. destruct (IH Hgood _ _ _ _ E)
        as [w [s' [d [-> [Hw [Hd [_ Hk]]]]]]].
      exists w, s', d. simpl. repeat split; auto; discriminate.
    + exists "", s, []. simpl. repeat split; auto; try discriminate.
      intros n v [].
  - destruct Hgood as [Hg1 Hg2].
    destruct (IH1 Hg1 _ _ _ _ H) as [w1 [s1 [d1 [-> [Hw1 [Hd1 [Hdef1 Hk1]]]]]]].
    destruct (IH2 Hg2 _ _ _ _ Hk1) as [w2 [s2 [d2 [-> [Hw2 [Hd2 [Hdef2 Hk2]]]]]]].
    exists (w1 ++ w2), s2, (d2 ++ d1)%list. split; [now rewrite append_assoc|].
    split; [simpl; eauto|]. split.
    { intros n v Hin. apply in_app_or in Hin. destruct Hin; auto. }
    split; [|now rewrite <- app_assoc].
    intros n Hn. simpl in Hn. apply orb_prop in Hn.
    destruct (lookup d2 n) eqn:E2.
    + rewrite (lookup_app_some d2 d1 n); congruence.
    + destruct Hn as [Hn|Hn]; [|now apply Hdef2 in Hn].
      apply lookup_app_keep. now apply Hdef1.
  - destruct Hgood as [Hname Hg].
    destruct (IH Hg _ _ _ _ H) as [w [s' [d [-> [Hw [Hd [Hdef Hk]]]]]]].
    rewrite consumed_append in Hk.
    exists w, s', ((name, w) :: d). simpl.
    repeat split; auto.
    + intros n v [E|Hin]; [injection E as <- <-; auto|auto].
    + intros n Hn. destruct (String.eqb name n); [discriminate|].
      simpl in Hn. auto.
Qed.

Lemma search_sound (r : regex) (Hgood : groups_good good r) : forall s g,
  search r s = Some g ->
  captures_good good g
  /\ (forall n, defines r n = true -> lookup g n <> None).
Proof.
  induction s as [|c s IH]; intros g H; simpl in H.
  - destruct (rmatch r "" [] (fun _ g0 => Some g0)) as [g0|] eqn:E; [|discriminate].
    injection H as ->.
    destruct (rmatch_sound r Hgood _ _ _ _ E) as [w [s' [d [_ [_ [Hd [Hdef Hk]]]]]]].
    injection Hk as <-. rewrite app_nil_r. auto.
  - destruct (rmatch r (String c s) [] (fun _ g0 => Some g0)) as [g0|] eqn:E.
    + injection H as ->.
      destruct (rmatch_sound r Hgood _ _ _ _ E) as [w [s' [d [_ [_ [Hd [Hdef Hk]]]]]]].
      injection Hk as <-. rewrite app_nil_r. auto.
    + auto.
Qed.

End MatcherFacts.

(** ** Tokens: what [float], [_parse_energy] and [_parse_angle] do on the
       text the patterns capture *)

Section TokenFacts.

Import PyStr CharClass Re FilenameParser ParserSpec.
Local Open Scope string_scope.

Ltac ascii_cases c :=
  destruct c as [[] [] [] [] [] [] [] []]; vm_compute; intuition congruence.

Lemma digit_is_numeric c : is_digit c = true -> is_numeric_char c = true.
Proof. unfold is_numeric_char. now intros ->. Qed.

Lemma digit_not_dot c : is_digit c = true -> Ascii.eqb c "." = false.
Proof. ascii_cases c. Qed.

Lemma digit_not_minus c : is_digit c = true -> Ascii.eqb c "-" = false.
Proof. ascii_cases c. Qed.

Lemma numeric_not_t c : is_numeric_char c = true -> is_not_t c = true.
Proof. ascii_cases c. Qed.

Lemma numeric_not_unit c :
  is_numeric_char c = true ->
  c <> "k"%char /\ c <> "K"%char /\ c <> "e"%char /\ c <> "E"%char.
Proof. ascii_cases c. Qed.

Lemma all_in_In (p : ascii -> bool) (w : string) (c : ascii) :
  all_in p w -> In c (list_ascii_of_string w) -> p c = true.
Proof.
  induction w as [|x w IH]; simpl; [tauto|].
  intros [Hx Hw] [<-|Hin]; auto.
Qed.

Lemma rev_list_of_append (a u : string) :
  rev (list_ascii_of_string (a ++ u))
  = (rev (list_ascii_of_string u) ++ rev (list_ascii_of_string a))%list.
Proof. now rewrite list_of_append, rev_app_distr. Qed.

(** *** Numbers *)

Lemma digits_value_some (w : string) : forall acc,
  all_in is_digit w -> exists n, digits_value w acc = Some n.
Proof.
  induction w as [|c w IH]; intros acc H; simpl in *; [eauto|].
  destruct H as [Hc Hw]. rewrite Hc. auto.
Qed.

Lemma digits_value_inv (w : string) : forall acc n,
  digits_value w acc = Some n -> all_in is_digit w.
Proof.
  induction w as [|c w IH]; intros acc n H; simpl in *; [exact I|].
  destruct (is_digit c) eqn:E; [|discriminate]. eauto.
Qed.

Lemma cut_at_dot_digits (w rest : string) :
  all_in is_digit w ->
  (rest = "" \/ exists f, rest = String "." f) ->
  cut_at_dot (w ++ rest)
  = (w, match rest with String _ f => Some f | EmptyString => None end).
Proof.
  intros Hw Hrest. induction w as [|c w IH]; simpl in *.
  - destruct Hrest as [->|[f ->]]; reflexivity.
  - destruct Hw as [Hc Hw]. rewrite (digit_not_dot _ Hc), (IH Hw).
    reflexivity.
Qed.

Lemma cut_at_dot_spec (s : string) : forall a b,
  cut_at_dot s = (a, b) ->
  s = a ++ match b with Some f => String "." f | None => "" end.
Proof.
  induction s as [|c s IH]; intros a b H; simpl in H.
  - now injection H as <- <-.
  - destruct (Ascii.eqb c ".") eqn:E.
    + apply Ascii.eqb_eq in E. subst c. now injection H as <- <-.
    + destruct (cut_at_dot s) as [a' b'] eqn:C. injection H as <- <-.
      simpl. now rewrite <- (IH _ _ eq_refl).
Qed.

Lemma decimal_is_numeric c : is_decimal_char c = true -> is_numeric_char c = true.
Proof. unfold is_decimal_char, is_numeric_char. intros ->. reflexivity. Qed.

Lemma digit_is_decimal c : is_digit c = true -> is_decimal_char c = true.
Proof. unfold is_decimal_char. now intros ->. Qed.

Lemma unsigned_value_chars (s : string) (q : Q) :
  unsigned_value s = Some q -> all_in is_decimal_char s.
Proof.
  unfold unsigned_value. destruct (cut_at_dot s) as [a b] eqn:C.
  apply cut_at_dot_spec in C. subst s.
  destruct a as [|x a]; [discriminate|].
  destruct b as [f|].
  - destruct f as [|y f]; [discriminate|].
    destruct (digits_value (String x a) 0) as [n|] eqn:Dn; [|discriminate].
    destruct (digits_value (String y f) 0) as [m|] eqn:Dm; [|discriminate].
    intros _. apply all_in_append. split.
    + apply (all_in_weaken is_digit); [apply digit_is_decimal|].
      now apply digits_value_inv in Dn.
    + split; [reflexivity|].
      apply (all_in_weaken is_digit); [apply digit_is_decimal|].
      now apply digits_value_inv in Dm.
  - destruct (digits_value (String x a) 0) as [n|] eqn:Dn; [|discriminate].
    intros _. rewrite append_nil_r.
    apply (all_in_weaken is_digit); [apply digit_is_decimal|].
    now apply digits_value_inv in Dn.
Qed.

Lemma py_float_chars (s : string) (q : Q) :
  py_float s = Ok q -> all_in is_numeric_char s.
Proof.
  destruct s as [|c s]; [discriminate|]. unfold py_float.
  destruct (Ascii.eqb c "-") eqn:E.
  - apply Ascii.eqb_eq in E. subst c. unfold unsigned_float.
    destruct (unsigned_value s) as [q'|] eqn:U; [|discriminate].
    intros _. split; [reflexivity|].
    apply (all_in_weaken is_decimal_char); [apply decimal_is_numeric|].
    now apply unsigned_value_chars in U.
  - unfold unsigned_float.
    destruct (unsigned_value (String c s)) as [q'|] eqn:U; [|discriminate].
    intros _.
    apply (all_in_weaken is_decimal_char); [apply decimal_is_numeric|].
    now apply unsigned_value_chars in U.
Qed.

(** A word of [\d+(?:\.\d+)?] has a value and starts with a digit. *)
Lemma number_value (w : string) :
  lang number w ->
  exists c w' q,
    w = String c w' /\ is_digit c = true /\ unsigned_value w = Some q.
Proof.
  intros [w1 [w2 [-> [[Hne H1] H2]]]].
  destruct w1 as [|c w1]; [congruence|].
  exists c, (w1 ++ w2). destruct H1 as [Hc H1].
  assert (Hd : all_in is_digit (String c w1)) by (split; assumption).
  destruct (digits_value_some _ 0%Z Hd) as [n Hn].
  destruct H2 as [->|[d [f [-> [-> [Hf Hfd]]]]]].
  - exists (inject_Z n). split; [reflexivity|]. split; [assumption|].
    unfold unsigned_value.
    rewrite (cut_at_dot_digits (String c w1) "" Hd (or_introl eq_refl)).
    now rewrite Hn.
  - destruct f as [|y f]; [congruence|].
    destruct (digits_value_some _ 0%Z Hfd) as [m Hm].
    exists (inject_Z n
            + inject_Z m / inject_Z (10 ^ Z.of_nat (String.length (String y f))))%Q.
    split; [reflexivity|]. split; [assumption|].
    unfold unsigned_value.
    rewrite (cut_at_dot_digits (String c w1) ("." ++ String y f) Hd).
    + cbn [append]. now rewrite Hn, Hm.
    + right. now exists (String y f).
Qed.

Lemma float_number (w : string) : lang number w -> exists q, py_float w = Ok q.
Proof.
  intro H. destruct (number_value _ H) as [c [w' [q [-> [Hc Hq]]]]].
  exists q. unfold py_float. rewrite (digit_not_minus _ Hc).
  unfold unsigned_float. now rewrite Hq.
Qed.

Lemma float_signed_number (w : string) :
  lang (Seq (Opt (Lit "-")) number) w -> exists q, py_float w = Ok q.
Proof.
  intros [w1 [w2 [-> [[-> | ->] H2]]]].
  - now apply float_number.
  - destruct (number_value _ H2) as [c [w' [q [-> [Hc Hq]]]]].
    exists (- q)%Q. cbn [append py_float]. rewrite Ascii.eqb_refl.
    unfold unsigned_float. now rewrite Hq.
Qed.

Lemma digits_are_number (w : string) : lang (Plus is_digit) w -> lang number w.
Proof.
  intro H. exists w, "". rewrite append_nil_r. repeat split; try apply H.
  now left.
Qed.

Lemma float_digits (w : string) :
  lang (Plus is_digit) w -> exists q, py_float w = Ok q.
Proof. intro H. now apply float_number, digits_are_number. Qed.

Lemma float_signed_digits (w : string) :
  lang (Seq (Opt (Lit "-")) (Plus is_digit)) w -> exists q, py_float w = Ok q.
Proof.
  intros [w1 [w2 [-> [H1 H2]]]]. apply float_signed_number.
  exists w1, w2. repeat split; try assumption. now apply digits_are_number.
Qed.

(** *** Energies *)

Lemma last_char_numeric (num : string) (c : ascii) (l : list ascii) :
  all_in is_numeric_char num ->
  rev (list_ascii_of_string num) = c :: l -> is_numeric_char c = true.
Proof.
  intros Hnum H. apply (all_in_In _ _ _ Hnum). apply in_rev. rewrite H.
  now left.
Qed.

Ltac suffix_clash Hnum :=
  match goal with
  | |- endswith ?s ?v = false =>
      let E := fresh "E" in
      let a := fresh "a" in
      destruct (endswith s v) eqn:E; [exfalso|reflexivity];
      apply endswith_inv in E; destruct E as [a E];
      apply (f_equal (fun t => rev (list_ascii_of_string t))) in E;
      rewrite !rev_list_of_append in E; simpl in E;
      first
        [ discriminate E
        | injection E as E;
          pose proof (last_char_numeric _ _ _ Hnum E) as Hc;
          vm_compute in Hc; discriminate Hc ]
  end.

Lemma parse_energy_plain (num u : string) (q : Q) :
  py_float num = Ok q -> u = "eV" \/ u = "EV" ->
  _parse_energy (num ++ u) = Ok (q, "eV").
Proof.
  intros Hq Hu. pose proof (py_float_chars _ _ Hq) as Hnum.
  unfold _parse_energy.
  assert (H1 : endswith (num ++ u) "keV" = false)
    by (destruct Hu as [-> | ->]; suffix_clash Hnum).
  assert (H2 : endswith (num ++ u) "kEV" = false)
    by (destruct Hu as [-> | ->]; suffix_clash Hnum).
  assert (H3 : endswith (num ++ u) "KEV" = false)
    by (destruct Hu as [-> | ->]; suffix_clash Hnum).
  assert (H4 : endswith (num ++ u) "KeV" = false)
    by (destruct Hu as [-> | ->]; suffix_clash Hnum).
  rewrite H1, H2, H3, H4. cbn [orb].
  assert (H5 : endswith (num ++ u) "eV" || endswith (num ++ u) "EV" = true).
  { destruct Hu as [-> | ->]; rewrite endswith_append;
      [reflexivity|apply orb_true_r]. }
  rewrite H5.
  assert (H6 : drop_last 2 (num ++ u) = num)
    by (destruct Hu as [-> | ->]; apply (drop_last_append num)).
  rewrite H6, Hq. reflexivity.
Qed.

Lemma parse_energy_kilo (num u : string) (q : Q) :
  py_float num = Ok q ->
  u = "keV" \/ u = "kEV" \/ u = "KEV" \/ u = "KeV" ->
  _parse_energy (num ++ u) = Ok ((q * 1000)%Q, "eV").
Proof.
  intros Hq Hu. unfold _parse_energy.
  assert (H : endswith (num ++ u) "keV" || endswith (num ++ u) "kEV"
              || endswith (num ++ u) "KEV" || endswith (num ++ u) "KeV" = true).
  { destruct Hu as [-> | [-> | [-> | ->]]]; rewrite endswith_append;
      rewrite ?orb_true_r; reflexivity. }
  rewrite H.
  assert (H6 : drop_last 3 (num ++ u) = num)
    by (destruct Hu as [-> | [-> | [-> | ->]]]; apply (drop_last_append num)).
  rewrite H6, Hq. reflexivity.
Qed.

(** [\d+(?:\.\d+)?(?:k)?eV] *)
Lemma energy_token_annotated (w : string) :
  lang (Seq number (Seq (Opt (Lit "k")) (Lit "eV"))) w -> annotated_energy w.
Proof.
  intros [num [u [-> [Hnum [k [e [-> [Hk ->]]]]]]]].
  destruct (float_number _ Hnum) as [q Hq]. exists num, q.
  split; [assumption|]. destruct Hk as [-> | ->].
  - left. split; [reflexivity|]. apply parse_energy_plain; auto.
  - right. split; [reflexivity|]. apply parse_energy_kilo; auto.
Qed.

Lemma kK_cases c : is_kK c = true -> c = "k"%char \/ c = "K"%char.
Proof. ascii_cases c. Qed.

Lemma eE_cases c : is_eE c = true -> c = "e"%char \/ c = "E"%char.
Proof. ascii_cases c. Qed.

(** [\d+(?:\.\d+)?[kK]?[eE]V] *)
Lemma energy_any_case_converts (w : string) :
  lang energy_any_case w -> exists q, _parse_energy w = Ok (q, "eV").
Proof.
  intros [num [u [-> [Hnum [k [ev [-> [Hk [e [v [-> [[c [-> Hc]] ->]]]]]]]]]]]].
  destruct (float_number _ Hnum) as [q Hq].
  apply eE_cases in Hc.
  destruct Hk as [-> | [c' [-> Hc']]].
  - exists q. apply parse_energy_plain; [assumption|].
    destruct Hc as [-> | ->]; auto.
  - exists (q * 1000)%Q. apply parse_energy_kilo; [assumption|].
    apply kK_cases in Hc'.
    destruct Hc as [-> | ->]; destruct Hc' as [-> | ->]; simpl; auto.
Qed.

Lemma energy_token_converts (w : string) :
  lang (Seq number (Seq (Opt (Lit "k")) (Lit "eV"))) w ->
  exists q, _parse_energy w = Ok (q, "eV").
Proof.
  intro H. destruct (energy_token_annotated _ H) as [num [q [_ [[_ E]|[_ E]]]]];
    eauto.
Qed.

(** *** Angles *)

Lemma prefix_to_false (c : ascii) (s : string) :
  is_not_t c = true -> prefix "to" (String c s) = false.
Proof.
  intro H. cbn [prefix]. destruct (ascii_dec "t" c) as [<-|_]; [|reflexivity].
  discriminate H.
Qed.

Lemma contains_to_false (s : string) :
  all_in is_not_t s -> contains "to" s = false.
Proof.
  induction s as [|c s IH]; [reflexivity|]. intros [Hc Hs].
  cbn [contains]. rewrite (prefix_to_false _ _ Hc). auto.
Qed.

Lemma contains_to_true (a b : string) : contains "to" (a ++ "to" ++ b) = true.
Proof.
  induction a as [|c a IH].
  - destruct b; reflexivity.
  - cbn [append contains] in *.
    destruct (prefix "to" (String c (a ++ String "t" (String "o" b))));
      [reflexivity|exact IH].
Qed.

Lemma split_no_t (s : string) : forall cur,
  all_in is_not_t s -> split_go "to" 0 s cur = [cur ++ s].
Proof.
  induction s as [|c s IH]; intros cur H.
  - simpl. now rewrite append_nil_r.
  - destruct H as [Hc Hs]. cbn [split_go].
    rewrite (prefix_to_false _ _ Hc), (IH _ Hs), append_assoc. reflexivity.
Qed.

Lemma split_to (a b : string) : forall cur,
  all_in is_not_t a -> all_in is_not_t b ->
  split_go "to" 0 (a ++ "to" ++ b) cur = [cur ++ a; b].
Proof.
  induction a as [|c a IH]; intros cur Ha Hb.
  - cbn [append split_go]. 
    replace (prefix "to" (String "t" (String "o" b))) with true
      by (destruct b; reflexivity).
    cbn [String.length Nat.sub split_go].
    rewrite (split_no_t b "" Hb), append_nil_r. reflexivity.
  - destruct Ha as [Hc Ha]. cbn [append split_go].
    rewrite (prefix_to_false _ _ Hc).
    change (a ++ String "t" (String "o" b)) with (a ++ "to" ++ b).
    rewrite (IH _ Ha Hb), append_assoc. reflexivity.
Qed.

Lemma float_not_t (s : string) (q : Q) : py_float s = Ok q -> all_in is_not_t s.
Proof.
  intro H. apply (all_in_weaken is_numeric_char); [apply numeric_not_t|].
  now apply py_float_chars in H.
Qed.

Lemma parse_angle_single (s : string) (a : Q) :
  py_float s = Ok a -> _parse_angle s = Ok (Single a).
Proof.
  intro H. unfold _parse_angle.
  rewrite (contains_to_false _ (float_not_t _ _ H)), H. reflexivity.
Qed.

Lemma parse_angle_range (sa sb : string) (a b : Q) :
  py_float sa = Ok a -> py_float sb = Ok b ->
  _parse_angle (sa ++ "to" ++ sb) = Ok (Range (py_min a b) (py_max a b)).
Proof.
  intros Ha Hb. unfold _parse_angle, split.
  rewrite contains_to_true,
    (split_to sa sb "" (float_not_t _ _ Ha) (float_not_t _ _ Hb)).
  cbn [append]. rewrite Ha, Hb. reflexivity.
Qed.

(** [-?\d+(?:to-?\d+)?] *)
Lemma angle_token_converts (w : string) :
  lang (Seq (Opt (Lit "-"))
            (Seq (Plus is_digit)
                 (Opt (Seq (Lit "to") (Seq (Opt (Lit "-")) (Plus is_digit))))))
       w ->
  exists a, _parse_angle w = Ok a.
Proof.
  intros [m [r [-> [Hm [d [t [-> [Hd Ht]]]]]]]].
  assert (Ha : exists a, py_float (m ++ d) = Ok a).
  { apply float_signed_digits. exists m, d. auto. }
  destruct Ha as [a Ha].
  destruct Ht as [-> | [to [sb [-> [-> Hsb]]]]].
  - rewrite append_nil_r. exists (Single a). now apply parse_angle_single.
  - destruct (float_signed_digits _ Hsb) as [b Hb].
    rewrite <- append_assoc.
    exists (Range (py_min a b) (py_max a b)). now apply parse_angle_range.
Qed.

End TokenFacts.

(** ** The filename parser *)

Section ParserFacts.

Import PyStr CharClass Re FilenameParser ParserSpec.
Local Open Scope string_scope.

Ltac capture_goal :=
  let Hn := fresh "Hn" in
  intro Hn;
  first
    [ discriminate Hn
    | destruct Hn as [Hn|[Hn|Hn]]; try discriminate Hn
    | idtac ];
  match goal with
  | Hw : lang _ ?w |- _ =>
      first [ apply energy_token_converts; exact Hw
            | apply energy_any_case_converts; exact Hw
            | apply float_signed_number; exact Hw
            | apply float_number; exact Hw
            | apply float_digits; exact Hw
            | apply angle_token_converts; exact Hw ]
  end.

(** Whatever a pattern of the dictionary captures in a converted group
    converts without an exception. *)
Lemma patterns_convert (pattern_name : string) (pattern : regex) :
  In (pattern_name, pattern) patterns -> groups_good converts pattern.
Proof.
  intro H. unfold patterns in H. cbn [In] in H.
  destruct H as [E|[E|[E|[E|[E|[E|[E|[]]]]]]]]; injection E as <- <-;
    cbn [groups_good detailed simple_energy voltage_energy beam_prep ramp_up
         dark rotating beam_to_end timestamp_opt number energy_any_case];
    repeat split; capture_goal.
Qed.

Lemma detailed_captures : groups_good detailed_capture detailed.
Proof.
  cbn [groups_good detailed beam_to_end timestamp_opt number].
  repeat split; intros w Hw Hn; try discriminate Hn.
  apply energy_token_annotated. exact Hw.
Qed.

Lemma first_match_some (ps : list (string * regex)) (s : string) :
  forall pattern_name g,
  first_match ps s = Some (pattern_name, g) ->
  exists pattern, In (pattern_name, pattern) ps /\ search pattern s = Some g.
Proof.
  induction ps as [|[n r] ps IH]; intros pn g H; simpl in H; [discriminate|].
  destruct (search r s) as [g'|] eqn:E.
  - injection H as <- <-. exists r. split; [now left|assumption].
  - destruct (IH _ _ H) as [r' [Hin Hs]]. exists r'. split; [now right|assumption].
Qed.

Lemma first_match_none (ps : list (string * regex)) (s : string) :
  first_match ps s = None <->
  (forall pattern_name pattern,
     In (pattern_name, pattern) ps -> search pattern s = None).
Proof.
  induction ps as [|[n r] ps IH]; simpl.
  - split; [intros _ pn p []|reflexivity].
  - destruct (search r s) as [g|] eqn:E.
    + split; [discriminate|]. intro H.
      specialize (H n r (or_introl eq_refl)). congruence.
    + rewrite IH. split.
      * intros H pn p [Heq|Hin]; [injection Heq as <- <-; assumption|eauto].
      * intros H pn p Hin. apply (H pn p). now right.
Qed.

Lemma truthy_some (o : option string) (tok : string) :
  truthy o = Some tok -> o = Some tok /\ tok <> "".
Proof.
  destruct o as [[|c s]|]; simpl; try discriminate.
  intro H. injection H as <-. split; [reflexivity|discriminate].
Qed.

Lemma group_In (g : groups) (n tok : string) :
  group g n = Some tok -> In (n, tok) g.
Proof.
  unfold group. intro H. apply truthy_some in H. destruct H as [H _].
  now apply lookup_In.
Qed.

Lemma group_truthy (g : groups) (n tok : string) :
  group g n = Some tok -> is_truthy (Some tok) = true.
Proof.
  unfold group. intro H. apply truthy_some in H. destruct H as [_ H].
  destruct tok; [congruence|reflexivity].
Qed.

Lemma float_group_total (g : groups) (n : string) :
  captures_good converts g ->
  n = "esa_voltage" \/ n = "mcp_voltage" \/ n = "hor_value" ->
  exists v, float_group g n = Ok v /\ present v = present (group g n).
Proof.
  intros Hg Hn. unfold float_group.
  destruct (group g n) as [tok|] eqn:E; [|now exists None].
  apply group_In in E. destruct (Hg _ _ E) as [_ [Hf _]].
  destruct (Hf Hn) as [q ->]. now exists (Some q).
Qed.

Lemma energy_group_total (g : groups) :
  captures_good converts g ->
  exists e, energy_group g = Ok e
            /\ present e = present (group g "beam_energy").
Proof.
  intros Hg. unfold energy_group.
  destruct (group g "beam_energy") as [tok|] eqn:E; [|now exists None].
  apply group_In in E. destruct (Hg _ _ E) as [He _].
  destruct (He eq_refl) as [q ->]. now exists (Some (q, "eV")).
Qed.

Lemma angle_group_total (g : groups) :
  captures_good converts g -> exists a, angle_group g = Ok a.
Proof.
  intros Hg. unfold angle_group.
  destruct (group g "inner_angle") as [tok|] eqn:E; [|now exists None].
  apply group_In in E. destruct (Hg _ _ E) as [_ [_ Ha]].
  destruct (Ha eq_refl) as [a ->]. now exists (Some a).
Qed.

(** [parse_filename] returns on every string, and what it returns. *)
Lemma parse_filename_cases (fname : string) :
  exists p', parsed_from fname p'
             /\ parse_filename fname = Ok (_post_process_parameters p').
Proof.
  unfold parse_filename, parsed_from.
  fold (name_for_parsing fname).
  destruct (first_match patterns (name_for_parsing fname)) as [[pn g]|] eqn:E.
  - destruct (first_match_some _ _ _ _ E) as [r [Hin Hs]].
    destruct (search_sound converts r (patterns_convert _ _ Hin) _ _ Hs)
      as [Hg _].
    destruct (energy_group_total g Hg) as [energy [He Hpe]].
    destruct (float_group_total g "esa_voltage" Hg) as [esa [Hesa Hpesa]]; [auto|].
    destruct (float_group_total g "mcp_voltage" Hg) as [mcp [Hmcp _]]; [auto|].
    destruct (angle_group_total g Hg) as [ang Hang].
    destruct (float_group_total g "hor_value" Hg) as [hor [Hhor _]]; [auto|].
    eexists. split.
    + right. exists pn, r, g, energy, esa, mcp, ang, hor.
      repeat split; first [eassumption|reflexivity].
    + unfold _extract_parameters_from_match.
      rewrite He, Hesa, Hmcp, Hang, Hhor. reflexivity.
  - eexists. split; [left; split; reflexivity|reflexivity].
Qed.

End ParserFacts.

Section ParserClaims.

Import PyStr CharClass Re FilenameParser ParserSpec.
Local Open Scope string_scope.

Lemma classify_flags (fname : string) (p' : ExperimentalParameters) :
  parsed_from fname p' -> classify p' = test_type_of_flags p'.
Proof.
  intros [[_ ->]|[pn [r [g [e [esa [mcp [ang [hor H]]]]]]]]]; [reflexivity|].
  destruct H as [_ [_ [_ [_ [He [_ [Hesa [_ [_ [_ ->]]]]]]]]]].
  unfold classify, test_type_of_flags.
  cbn [assign_parameters is_dark is_ramp is_rotating beam_energy esa_voltage
       beam_energy_value esa_voltage_value new_parameters].
  assert (E1 : is_truthy (or_else (group g "beam_energy") None)
               = present (or_else (option_map fst e) None)).
  { destruct e as [vu|]; destruct (group g "beam_energy") as [tok|] eqn:G;
      try discriminate He; [|reflexivity].
    cbn [or_else option_map present]. apply (group_truthy _ _ _ G). }
  assert (E2 : is_truthy (or_else (group g "esa_voltage") None)
               = present (or_else esa None)).
  { destruct esa as [v|]; destruct (group g "esa_voltage") as [tok|] eqn:G;
      try discriminate Hesa; [|reflexivity].
    cbn [or_else present]. apply (group_truthy _ _ _ G). }
  now rewrite E1, E2.
Qed.

(** C2: [parse_filename] returns a record on every string, and when no
    pattern matches, every optional field of the record is absent and
    its [test_type] is ["unknown"]. *)
Theorem parse_filename_total (fname : string) :
  exists p,
    parse_filename fname = Ok p
    /\ (unmatched fname ->
        all_optional_absent p /\ test_type p = Some "unknown").
Proof.
  destruct (parse_filename_cases fname) as [p' [Hp' Hp]].
  exists (_post_process_parameters p'). split; [assumption|].
  intro Hun. apply first_match_none in Hun.
  destruct Hp' as [[_ ->]|[pn [r [g [e [esa [mcp [ang [hor H]]]]]]]]].
  - unfold all_optional_absent. repeat split; reflexivity.
  - destruct H as [_ [_ [Hm _]]]. fold (name_for_parsing fname) in Hun.
    congruence.
Qed.

Lemma py_min_max (a b : Q) :
  (py_min a b == Qmin a b)%Q /\ (py_max a b == Qmax a b)%Q
  /\ ((py_min a b + py_max a b) / 2 == (a + b) / 2)%Q.
Proof.
  unfold py_min, py_max.
  destruct (Qlt_le_dec b a) as [H1|H1]; destruct (Qlt_le_dec a b) as [H2|H2].
  - exfalso. lra.
  - split; [|split].
    + symmetry. apply Q.min_r. lra.
    + symmetry. apply Q.max_l. lra.
    + field.
  - split; [|split].
    + symmetry. apply Q.min_l. lra.
    + symmetry. apply Q.max_r. lra.
    + field.
  - assert (E : (a == b)%Q) by lra. split; [|split].
    + symmetry. apply Q.min_l. lra.
    + symmetry. apply Q.max_l. lra.
    + rewrite E. field.
Qed.

(** C3: when the angle token of a parsed file name is two numbers joined
    by ["to"], the record is flagged as a range, stores
    [(min(A, B), max(A, B))] and has the midpoint [(A + B) / 2] as its
    angle value. *)
Theorem angle_range_midpoint (fname : string) (p : ExperimentalParameters)
  (sa sb : string) (a b : Q) :
  parse_filename fname = Ok p ->
  inner_angle p = Some (sa ++ "to" ++ sb) ->
  py_float sa = Ok a -> py_float sb = Ok b ->
  is_angle_range p = true
  /\ (exists lo hi,
        inner_angle_range p = Some (lo, hi)
        /\ (lo == Qmin a b)%Q /\ (hi == Qmax a b)%Q)
  /\ (exists v, inner_angle_value p = Some v /\ (v == (a + b) / 2)%Q).
Proof.
  intros Hp Hang Ha Hb.
  destruct (parse_filename_cases fname) as [p' [Hp' Hp2]].
  rewrite Hp in Hp2. injection Hp2 as ->.
  destruct Hp' as [[_ ->]|[pn [r [g [e [esa [mcp [ang [hor H]]]]]]]]];
    [discriminate Hang|].
  destruct H as [_ [_ [_ [_ [_ [_ [_ [_ [Hag [_ ->]]]]]]]]]].
  cbn [_post_process_parameters set_test_type inner_angle assign_parameters
       new_parameters] in Hang.
  destruct (group g "inner_angle") as [tok|] eqn:G; [|discriminate Hang].
  cbn [or_else] in Hang. injection Hang as ->.
  unfold angle_group in Hag. rewrite G in Hag.
  change (sa ++ String "t" (String "o" sb)) with (sa ++ "to" ++ sb) in Hag.
  rewrite (parse_angle_range _ _ _ _ Ha Hb) in Hag.
  cbn [bind] in Hag. injection Hag as <-.
  destruct (py_min_max a b) as [Hmin [Hmax Hmid]].
  cbn. split; [reflexivity|]. split; eauto.
Qed.

(** C4: on a file name the fully-annotated grammar matches, the energy
    token is a number followed by ["eV"] or ["keV"]; the energy value is
    the number in the first case and 1000 times the number in the
    second, and the unit recorded is ["eV"]. *)
Theorem annotated_energy_value (fname : string) (g : groups) :
  search detailed (name_for_parsing fname) = Some g ->
  exists p num q,
    parse_filename fname = Ok p
    /\ py_float num = Ok q
    /\ beam_energy_unit p = Some "eV"
    /\ ((beam_energy p = Some (num ++ "eV") /\ beam_energy_value p = Some q)
        \/ (beam_energy p = Some (num ++ "keV")
            /\ beam_energy_value p = Some (q * 1000)%Q)).
Proof.
  intro Hs.
  destruct (search_sound detailed_capture detailed detailed_captures _ _ Hs)
    as [Hcap Hdef].
  specialize (Hdef "beam_energy" eq_refl).
  destruct (lookup g "beam_energy") as [tok|] eqn:L; [|congruence].
  destruct (Hcap _ _ (lookup_In _ _ _ L) eq_refl) as [num [q [Hq Hcase]]].
  assert (Htok : tok <> "").
  { destruct Hcase as [[-> _]|[-> _]]; destruct num; discriminate. }
  assert (G : group g "beam_energy" = Some tok).
  { unfold group. rewrite L. destruct tok; [congruence|reflexivity]. }
  assert (Hm : first_match patterns (name_for_parsing fname)
               = Some ("detailed", g)).
  { unfold patterns. cbn [first_match]. now rewrite Hs. }
  destruct (parse_filename_cases fname) as [p' [Hp' Hp]].
  destruct Hp' as [[Hn _]|[pn [r [g' [e [esa [mcp [ang [hor H]]]]]]]]];
    [congruence|].
  destruct H as [_ [_ [Hm' [He [_ [_ [_ [_ [_ [_ ->]]]]]]]]]].
  rewrite Hm in Hm'. injection Hm' as <- <-.
  exists (_post_process_parameters
            (assign_parameters
               (new_parameters fname (_get_file_type (basename fname))
                               (basename fname))
               g "detailed" e esa mcp ang hor)), num, q.
  split; [assumption|]. split; [assumption|].
  unfold energy_group in He. rewrite G in He.
  cbn [_post_process_parameters set_test_type beam_energy beam_energy_value
       beam_energy_unit assign_parameters new_parameters].
  rewrite G. cbn [or_else].
  destruct Hcase as [[-> Hpe]|[-> Hpe]]; rewrite Hpe in He; cbn [bind] in He;
    injection He as <-; cbn [option_map fst snd or_else]; auto.
Qed.

(** C5: the [test_type] of a parsed record is the classification of its
    flags and fields in the priority dark, ramp, rotating, energy with
    voltage, energy alone, unknown; classifying the record again leaves
    it unchanged. *)
Theorem classification_by_priority (fname : string) :
  exists p,
    parse_filename fname = Ok p
    /\ test_type p = Some (test_type_of_flags p)
    /\ _post_process_parameters p = p.
Proof.
  destruct (parse_filename_cases fname) as [p' [Hp' Hp]].
  exists (_post_process_parameters p'). split; [assumption|].
  split.
  - unfold _post_process_parameters at 1. cbn [test_type set_test_type].
    rewrite (classify_flags _ _ Hp'). reflexivity.
  - reflexivity.
Qed.

End ParserClaims.

Section ParserExamples.

Import PyStr CharClass Re FilenameParser ParserSpec.
Local Open Scope string_scope.

Lemma angle_range_midpoint_witness :
  exists p,
    parse_filename sweep_file = Ok p
    /\ is_angle_range p = true
    /\ (exists lo hi,
          inner_angle_range p = Some (lo, hi)
          /\ (lo == Qmin 84 (-118))%Q /\ (hi == Qmax 84 (-118))%Q)
    /\ (exists v, inner_angle_value p = Some v /\ (v == (84 + -118) / 2)%Q).
Proof.
  destruct (parse_filename sweep_file) as [p|e] eqn:E.
  - exists p. split; [reflexivity|].
    apply (angle_range_midpoint sweep_file p "84" "-118" 84 (-118) E).
    + vm_compute in E. injection E as <-. reflexivity.
    + reflexivity.
    + reflexivity.
  - vm_compute in E. discriminate E.
Defined.

Lemma annotated_energy_value_witness :
  exists p num q,
    parse_filename sweep_file = Ok p
    /\ py_float num = Ok q
    /\ beam_energy_unit p = Some "eV"
    /\ ((beam_energy p = Some (num ++ "eV") /\ beam_energy_value p = Some q)
        \/ (beam_energy p = Some (num ++ "keV")
            /\ beam_energy_value p = Some (q * 1000)%Q)).
Proof.
  destruct (search detailed (name_for_parsing sweep_file)) as [g|] eqn:E.
  - exact (annotated_energy_value sweep_file g E).
  - vm_compute in E. discriminate E.
Defined.

(** The sample file has a kilo-unit energy: 1.5 keV is 1500 eV. *)
Example sweep_file_energy :
  exists p v,
    parse_filename sweep_file = Ok p
    /\ beam_energy p = Some "1.5keV"
    /\ beam_energy_value p = Some v /\ (v == 1500)%Q
    /\ test_type p = Some "voltage_sweep".
Proof.
  eexists. eexists. split; [vm_compute; reflexivity|].
  repeat split; reflexivity.
Qed.

Example energy_file_scenario :
  exists p d,
    parse_filename energy_file = Ok p
    /\ beam_energy_value p = Some 1000%Q
    /\ beam_energy_unit p = Some "eV"
    /\ test_type p = Some "energy_test"
    /\ datetime_obj p = Some d
    /\ year d = 2024%Z /\ month d = 9%Z /\ day d = 22%Z.
Proof.
  eexists. eexists. split; [vm_compute; reflexivity|].
  repeat split; reflexivity.
Qed.

Example annotated_file_scenario :
  exists p,
    parse_filename annotated_file = Ok p
    /\ inner_angle_value p = Some 62%Q
    /\ esa_voltage_value p = Some (- 181)%Q
    /\ horizontal_value_num p = Some 79%Q
    /\ wave_type p = Some "Triangle"
    /\ test_type p = Some "voltage_sweep".
Proof.
  eexists. split; [vm_compute; reflexivity|]. repeat split; reflexivity.
Qed.

Example unmatched_file_unknown :
  exists p,
    parse_filename unmatched_file = Ok p
    /\ file_type p = "unknown" /\ test_type p = Some "unknown".
Proof. eexists. split; [vm_compute; reflexivity|]. split; reflexivity. Qed.

End ParserExamples.

(** ** The catalog *)

Section CatalogFacts.

Import PyStr FilenameParser DataModel CatalogSpec.
Local Open Scope string_scope.

(** The values of one attribute are of one type in every record. *)
Lemma assoc_same_kind (l l' : list (string * option value)) :
  Forall2 same_kind l l' ->
  forall attr v v',
  assoc l attr = Some (Some v) -> assoc l' attr = Some (Some v') ->
  kind v = kind v'.
Proof.
  induction 1 as [|[n o] [n' o'] l l' [Hn Hk] _ IH]; intros attr v v' H H';
    simpl in *; [discriminate|].
  subst n'. destruct (String.eqb n attr); [|eauto].
  injection H as ->. injection H' as ->. now apply Hk.
Qed.

Lemma attributes_same_kind (p p' : ExperimentalParameters) :
  Forall2 same_kind (attributes p) (attributes p').
Proof.
  unfold attributes.
  repeat (apply Forall2_cons;
          [split; [reflexivity|];
           cbn [snd]; intros v v' H H';
           try match type of H with
               | context [option_map _ ?o] => destruct o
               end;
           try match type of H' with
               | context [option_map _ ?o] => destruct o
               end;
           cbn [option_map] in H, H'; try discriminate H; try discriminate H';
           injection H as <-; injection H' as <-; reflexivity|]).
  apply Forall2_nil.
Qed.

Lemma getattr_kind (p p' : ExperimentalParameters) (attr : string)
  (v v' : value) :
  getattr p attr = Some v -> getattr p' attr = Some v' -> kind v = kind v'.
Proof.
  unfold getattr. intros H H'.
  destruct (assoc (attributes p) attr) as [[w|]|] eqn:E; try discriminate H.
  destruct (assoc (attributes p') attr) as [[w'|]|] eqn:E'; try discriminate H'.
  injection H as <-. injection H' as <-.
  exact (assoc_same_kind _ _ (attributes_same_kind p p') attr _ _ E E').
Qed.

Lemma insert_sorted_length (v : value) (l : list value) :
  List.length (insert_sorted v l) = S (List.length l).
Proof.
  induction l as [|w l IH]; simpl; [reflexivity|].
  destruct (value_leb v w); simpl; [reflexivity|now rewrite IH].
Qed.

Lemma sorted_length (l : list value) : List.length (sorted l) = List.length l.
Proof.
  unfold sorted. induction l as [|v l IH]; simpl; [reflexivity|].
  now rewrite insert_sorted_length, IH.
Qed.

Lemma set_add_In (v : value) (s : list value) :
  forall w, In w (set_add v s) -> In w s \/ w = v.
Proof.
  induction s as [|x s IH]; simpl; intros w H.
  - destruct H as [<-|[]]. now right.
  - destruct (value_eqb x v); [now left|].
    destruct H as [<-|H]; [left; now left|].
    destruct (IH _ H) as [H'|H']; [left; now right|now right].
Qed.

Lemma set_add_distinct (v : value) (s : list value) :
  distinct s -> distinct (set_add v s).
Proof.
  induction s as [|x s IH]; simpl; intro H.
  - split; [intros w []|exact I].
  - destruct (value_eqb x v) eqn:E; [exact H|].
    destruct H as [Hx Hs]. simpl. split; [|now apply IH].
    intros w Hw. destruct (set_add_In _ _ _ Hw) as [Hin| ->]; auto.
Qed.

(** The set [get_parameter_values] collects: its members are pairwise
    different and each is the value of the parameter in some file. *)
Lemma collected_values (parameter : string) (fs : list DataFile) :
  forall acc,
  distinct acc ->
  let values :=
    fold_left
      (fun values file =>
         match getattr (parameters file) parameter with
         | Some param_value => set_add param_value values
         | None => values
         end) fs acc in
  distinct values
  /\ (forall v, In v values ->
        In v acc
        \/ exists f, In f fs /\ getattr (parameters f) parameter = Some v).
Proof.
  induction fs as [|f fs IH]; intros acc Hacc; simpl.
  - split; [assumption|]. intros v Hv. now left.
  - destruct (getattr (parameters f) parameter) as [pv|] eqn:G.
    + destruct (IH (set_add pv acc) (set_add_distinct pv acc Hacc)) as [Hd Hin].
      split; [assumption|]. intros v Hv.
      destruct (Hin v Hv) as [H|[f' [Hf' Hg]]].
      * destruct (set_add_In _ _ _ H) as [H'| ->]; [now left|].
        right. exists f. split; [now left|assumption].
      * right. exists f'. split; [now right|assumption].
    + destruct (IH acc Hacc) as [Hd Hin]. split; [assumption|].
      intros v Hv. destruct (Hin v Hv) as [H|[f' [Hf' Hg]]]; [now left|].
      right. exists f'. split; [now right|assumption].
Qed.

Lemma two_values_vary (group : ExperimentGroup) (parameter : string) :
  (1 < List.length (get_parameter_values group parameter))%nat ->
  varies group parameter.
Proof.
  unfold get_parameter_values. rewrite sorted_length.
  destruct (collected_values parameter (files group) [] I) as [Hd Hin].
  cbv zeta in Hd, Hin.
  destruct (fold_left _ (files group) []) as [|v1 [|v2 vs]];
    simpl; try lia.
  intros _.
  destruct (Hin v1 (or_introl eq_refl)) as [[]|[f1 [Hf1 Hg1]]].
  destruct (Hin v2 (or_intror (or_introl eq_refl))) as [[]|[f2 [Hf2 Hg2]]].
  exists f1, f2, v1, v2. repeat split; try assumption.
  destruct Hd as [Hd _]. apply Hd. now left.
Qed.

Variable py_str : value -> string.

Lemma comparison_fold (varying_parameter : string) (gs : list ExperimentGroup) :
  forall acc,
  fold_left
    (fun valid_comparison_groups group =>
       if (1 <? List.length (get_parameter_values group varying_parameter))%nat
       then (valid_comparison_groups
             ++ [mark_varying group varying_parameter])%list
       else valid_comparison_groups) gs acc
  = (acc
     ++ map (fun group => mark_varying group varying_parameter)
            (filter (fun group =>
                       (1 <? List.length
                               (get_parameter_values group varying_parameter))%nat)
                    gs))%list.
Proof.
  induction gs as [|g gs IH]; intro acc; simpl.
  - now rewrite app_nil_r.
  - rewrite IH.
    destruct (1 <? List.length (get_parameter_values g varying_parameter))%nat;
      simpl; [now rewrite <- app_assoc|reflexivity].
Qed.

(** C6: a group [find_comparison_sets] returns has at least two files,
    two of which hold different present values of the varying
    parameter, and its [varying_parameters] is the list of that one
    parameter. *)
Theorem find_comparison_sets_groups (self_files : list DataFile)
  (fixed_parameters : list string) (varying_parameter : string)
  (group : ExperimentGroup) :
  In group
     (find_comparison_sets py_str self_files fixed_parameters varying_parameter) ->
  (2 <= List.length (files group))%nat
  /\ (2 <= List.length (get_parameter_values group varying_parameter))%nat
  /\ varies group varying_parameter
  /\ varying_parameters group = [varying_parameter].
Proof.
  unfold find_comparison_sets. rewrite comparison_fold. cbn [app].
  intro H. apply in_map_iff in H. destruct H as [g0 [<- H]].
  apply filter_In in H. destruct H as [Hin Hlen].
  apply Nat.ltb_lt in Hlen.
  unfold group_files_by_multiple_parameters in Hin.
  apply filter_In in Hin. destruct Hin as [_ Hsize].
  apply Nat.leb_le in Hsize.
  change (get_parameter_values (mark_varying g0 varying_parameter))
    with (get_parameter_values g0).
  repeat split.
  - exact Hsize.
  - lia.
  - destruct (two_values_vary g0 varying_parameter Hlen)
      as [f1 [f2 [v1 [v2 H]]]].
    exists f1, f2, v1, v2. exact H.
Qed.

End CatalogFacts.

Section CatalogExamples.

Import PyStr FilenameParser DataModel CatalogSpec.
Local Open Scope string_scope.

(** On the sample catalog, fixing the energy and varying the voltage
    returns the one group of the two 1000 eV files. *)
Lemma find_comparison_sets_groups_witness :
  exists group,
    find_comparison_sets show_value sample_catalog ["beam_energy_value"]
      "esa_voltage_value" = [group]
    /\ name group = "beam_energy_value_1000.0"
    /\ (2 <= List.length (files group))%nat
    /\ (2 <= List.length (get_parameter_values group "esa_voltage_value"))%nat
    /\ varies group "esa_voltage_value"
    /\ varying_parameters group = ["esa_voltage_value"].
Proof.
  destruct (find_comparison_sets show_value sample_catalog
              ["beam_energy_value"] "esa_voltage_value")
    as [|group [|g' gs]] eqn:E.
  - vm_compute in E. discriminate E.
  - exists group. split; [reflexivity|]. split.
    + vm_compute in E. injection E as <-. reflexivity.
    + apply (find_comparison_sets_groups show_value sample_catalog
               ["beam_energy_value"] "esa_voltage_value" group).
      rewrite E. now left.
  - vm_compute in E. discriminate E.
Defined.

End CatalogExamples.

(** ** Rational arithmetic *)

Section EsaFacts.

Import PyStr DataModel EsaAnalysis EsaSpec.
Local Open Scope Q_scope.

Lemma Qlt_bool_iff a b : Qlt_bool a b = true <-> a < b.
Proof.
  unfold Qlt_bool. rewrite negb_true_iff. split; intro H.
  - apply Qnot_le_lt. intro Hle. apply Qle_bool_iff in Hle. congruence.
  - destruct (Qle_bool b a) eqn:E; [|reflexivity].
    apply Qle_bool_iff in E. exfalso. apply (Qlt_not_le _ _ H E).
Qed.

Lemma Qeq_bool_false_iff a b : Qeq_bool a b = false <-> ~ a == b.
Proof.
  split.
  - apply Qeq_bool_neq.
  - intro H. destruct (Qeq_bool a b) eqn:E; [|reflexivity].
    apply Qeq_bool_iff in E. contradiction.
Qed.

Lemma nonzero_iff q : nonzero q = true <-> ~ q == 0.
Proof. unfold nonzero. rewrite negb_true_iff. apply Qeq_bool_false_iff. Qed.

Lemma Qabs_nonzero q : nonzero q = true -> Qeq_bool (Qabs q) 0 = false.
Proof.
  intro H. apply nonzero_iff in H. apply Qeq_bool_false_iff. intro A.
  apply H. assert (B : Qabs q <= 0) by (rewrite A; apply Qle_refl).
  apply Qabs_Qle_condition in B. destruct B. lra.
Qed.

Lemma py_div_ok a b : nonzero b = true -> py_div a b = Ok (a / b).
Proof.
  unfold py_div, nonzero. rewrite negb_true_iff. intros ->. reflexivity.
Qed.

(** ** The k-factor estimator *)

Variable sqrtQ : Q -> Q.

Lemma measure_eq ms r :
  measure ms r
  = if valid_region r
    then (if unformattable r then Raise TypeError
          else Ok (ms ++ [fresh_measurement_of r]))
    else Ok ms.
Proof.
  unfold measure, valid_region, unformattable, log_angle_range.
  destruct (nonzero (esa_voltage r)) eqn:Hv; simpl; [|reflexivity].
  destruct (nonzero (beam_energy r)) eqn:He; simpl; [|reflexivity].
  unfold _calculate_theoretical_deflection, fresh_measurement_of. simpl.
  destruct (Qlt_bool 0 (beam_energy r)); simpl;
    rewrite ?(py_div_ok _ _ He); simpl;
    destruct (is_angle_range r); simpl; try reflexivity;
    destruct (rotation_angle_range r); simpl; try reflexivity;
    destruct (rotation_angle r); reflexivity.
Qed.

Lemma foldM_measure regions : forall ms,
  foldM measure regions ms
  = if existsb unformattable (filter valid_region regions)
    then Raise TypeError
    else Ok (ms ++ map fresh_measurement_of (filter valid_region regions)).
Proof.
  induction regions as [|r regions IH]; intro ms; simpl.
  - now rewrite app_nil_r.
  - rewrite measure_eq.
    destruct (valid_region r); simpl; [|apply IH].
    destruct (unformattable r); simpl; [reflexivity|].
    rewrite IH.
    destruct (existsb unformattable (filter valid_region regions));
      [reflexivity|].
    now rewrite <- app_assoc.
Qed.

Lemma calculate_k_factor_eq r :
  valid_region r = true ->
  calculate_k_factor (fresh_measurement_of r)
  = Ok (measurement_of r, Some (k_of r)).
Proof.
  intro H. unfold calculate_k_factor. simpl.
  unfold valid_region in H. rewrite H.
  apply andb_prop in H. destruct H as [Hv _].
  unfold py_div. rewrite (Qabs_nonzero _ Hv). reflexivity.
Qed.

Lemma foldM_collect rs : forall acc,
  forallb valid_region rs = true ->
  foldM collect (map fresh_measurement_of rs) acc
  = Ok (fst acc ++ map measurement_of rs, snd acc ++ map k_of rs).
Proof.
  induction rs as [|r rs IH]; intros [ms ks] H; simpl in *.
  - now rewrite !app_nil_r.
  - apply andb_prop in H. destruct H as [Hr Hrs].
    unfold collect at 1. rewrite (calculate_k_factor_eq _ Hr). simpl.
    rewrite (IH _ Hrs). simpl. now rewrite <- !app_assoc.
Qed.

Lemma filter_all {A} (f : A -> bool) l : forallb f (filter f l) = true.
Proof.
  induction l as [|a l IH]; simpl; [reflexivity|].
  destruct (f a) eqn:E; simpl; [rewrite E|]; assumption.
Qed.

(** The estimator raises [TypeError] when a region that passes the test
    has a message that cannot be formatted; its result is [estimate_of]
    otherwise. *)
Lemma estimate_k_factor_eq regions :
  estimate_k_factor sqrtQ regions
  = if existsb unformattable (filter valid_region regions)
    then Raise TypeError
    else Ok (estimate_of sqrtQ regions).
Proof.
  unfold estimate_k_factor, estimate_of.
  rewrite foldM_measure.
  destruct (existsb unformattable (filter valid_region regions));
    [reflexivity|].
  simpl.
  pose proof (filter_all valid_region regions) as Hall.
  destruct (filter valid_region regions) as [|r rs]; [reflexivity|].
  cbn [map bind].
  change (fresh_measurement_of r :: map fresh_measurement_of rs)
    with (map fresh_measurement_of (r :: rs)).
  rewrite (foldM_collect _ _ Hall). reflexivity.
Qed.


Lemma valid_region_iff r :
  valid_region r = true <-> (~ beam_energy r == 0 /\ ~ esa_voltage r == 0).
Proof.
  unfold valid_region. rewrite andb_true_iff, !nonzero_iff. tauto.
Qed.






End EsaFacts.

Section EsaExamples.
Import PyStr DataModel EsaAnalysis EsaSpec.
Local Open Scope Q_scope.




(** Energies 1000 and 5000 eV at voltages -181 and -912 V give
    k-factors of about 5.52 and 5.48. *)
Example k_factor_scenario :
  exists st k1 k2,
    estimate_k_factor sqrt_floor
      [region_with 1000 (-181) 600; region_with 5000 (-912) 600]
    = Ok (KStats st)
    /\ k_factors st = [k1; k2]
    /\ 552 # 100 < k1 < 553 # 100
    /\ 548 # 100 < k2 < 549 # 100.
Proof.
  eexists. eexists. eexists. split; [vm_compute; reflexivity|].
  split; [reflexivity|]. repeat split; reflexivity.
Qed.

End EsaExamples.

(** ** The impact-region detector *)

Section DetectorFacts.

Import PyStr DataModel EsaAnalysis EsaSpec.
Local Open Scope Q_scope.

Lemma Qle_bool_scale m a b : 0 < m -> Qle_bool (a / m) (b / m) = Qle_bool a b.
Proof.
  intro Hm. apply eq_true_iff_eq. rewrite !Qle_bool_iff. unfold Qdiv.
  apply Qmult_le_r. now apply Qinv_lt_0_compat.
Qed.

Lemma fold_q_max_scale m l : 0 < m -> forall x,
  fold_left q_max (map (fun v => v / m) l) (x / m) = fold_left q_max l x / m.
Proof.
  intro Hm. induction l as [|a l IH]; intro x; simpl; [reflexivity|].
  rewrite <- IH. f_equal. unfold q_max. rewrite (Qle_bool_scale _ _ _ Hm).
  now destruct (Qle_bool x a).
Qed.

Lemma np_max_scale m l x :
  0 < m -> np_max l = Ok x -> np_max (map (fun v => v / m) l) = Ok (x / m).
Proof.
  intros Hm. destruct l as [|a l]; simpl; [discriminate|].
  intro H. injection H as <-. now rewrite fold_q_max_scale.
Qed.

Lemma np_max_nonempty l : l <> [] -> exists x, np_max l = Ok x.
Proof. destruct l; [congruence|]. simpl. eauto. Qed.


Lemma flat_map_map (f : Q -> Q) (img : image) :
  flat (map (map f) img) = map f (flat img).
Proof. unfold flat. symmetry. apply concat_map. Qed.

Lemma enum_row_values y row : forall x,
  map (fun px : pixel => snd px) (enum_row y x row) = row.
Proof.
  induction row as [|v row IH]; intro x; simpl; [reflexivity|].
  now rewrite IH.
Qed.

Lemma pixels_values img : map (fun px : pixel => snd px) (pixels img) = flat img.
Proof.
  unfold pixels, flat. generalize 0%Z.
  induction img as [|row img IH]; intro y; simpl; [reflexivity|].
  now rewrite map_app, enum_row_values, IH.
Qed.

Lemma map_filter_swap {A B} (f : A -> B) (g : B -> bool) l :
  map f (filter (fun a => g (f a)) l) = filter g (map f l).
Proof.
  induction l as [|a l IH]; simpl; [reflexivity|].
  destruct (g (f a)); simpl; now rewrite IH.
Qed.

Lemma filter_length_le {A} (f : A -> bool) l :
  (List.length (filter f l) <= List.length l)%nat.
Proof.
  induction l as [|a l IH]; simpl; [lia|]. destruct (f a); simpl; lia.
Qed.

Lemma fold_Qplus_ge l : forall a,
  Forall (fun v => 0 < v) l -> a <= fold_left Qplus l a.
Proof.
  induction l as [|v l IH]; intros a H; simpl; [apply Qle_refl|].
  inversion H; subst. apply Qle_trans with (a + v); [lra|]. now apply IH.
Qed.

Lemma np_sum_pos l : l <> [] -> Forall (fun v => 0 < v) l -> 0 < np_sum l.
Proof.
  unfold np_sum. destruct l as [|v l]; [congruence|]. intros _ H. simpl.
  inversion H; subst. apply Qlt_le_trans with (0 + v); [lra|].
  now apply fold_Qplus_ge.
Qed.

Lemma count_pos {A} (l : list A) : l <> [] -> 0 < count l.
Proof.
  destruct l; [congruence|]. intros _. unfold count. simpl List.length.
  unfold Qlt. simpl. lia.
Qed.

Lemma count_le {A B} (l : list A) (l' : list B) :
  (List.length l <= List.length l')%nat -> count l <= count l'.
Proof. intro H. unfold count, Qle. simpl. lia. Qed.

Lemma count_nonneg {A} (l : list A) : 0 <= count l.
Proof. unfold count, Qle. simpl. lia. Qed.

Lemma fold_min_ok l : l <> [] -> exists x, np_min_int l = Ok x.
Proof. destruct l; [congruence|]. simpl. eauto. Qed.

Lemma fold_max_ok l : l <> [] -> exists x, np_max_int l = Ok x.
Proof. destruct l; [congruence|]. simpl. eauto. Qed.

Variable sqrtQ : Q -> Q.

Lemma signal_values img m :
  0 < m -> np_max (flat img) = Ok m ->
  map (fun px : pixel => snd px)
      (filter (above (m / m * noise_threshold))
              (pixels (map (map (fun v => v / m)) img)))
  = flagged img m.
Proof.
  intros Hm Hmax. unfold flagged. rewrite (np_max_scale _ _ _ Hm Hmax).
  unfold above.
  rewrite (map_filter_swap (fun px : pixel => snd px)
             (fun v => Qlt_bool (m / m * noise_threshold) v)).
  now rewrite pixels_values, flat_map_map.
Qed.

Lemma noise_values img m :
  0 < m -> np_max (flat img) = Ok m ->
  map (fun px : pixel => snd px)
      (filter (fun px => negb (above (m / m * noise_threshold) px))
              (pixels (map (map (fun v => v / m)) img)))
  = unflagged img m.
Proof.
  intros Hm Hmax. unfold unflagged. rewrite (np_max_scale _ _ _ Hm Hmax).
  unfold above.
  rewrite (map_filter_swap (fun px : pixel => snd px)
             (fun v => negb (Qlt_bool (m / m * noise_threshold) v))).
  now rewrite pixels_values, flat_map_map.
Qed.

Lemma flagged_positive img m :
  0 < m -> np_max (flat img) = Ok m -> Forall (fun v => 0 < v) (flagged img m).
Proof.
  intros Hm Hmax. unfold flagged. rewrite (np_max_scale _ _ _ Hm Hmax).
  apply Forall_forall. intros v Hv. apply filter_In in Hv.
  destruct Hv as [_ Hv]. apply Qlt_bool_iff in Hv.
  assert (E : m / m == 1) by (field; lra).
  rewrite E in Hv. unfold noise_threshold in Hv. lra.
Qed.

Lemma flagged_le img m :
  (List.length (flagged img m) <= List.length (flat img))%nat.
Proof.
  unfold flagged. destruct (np_max _); simpl; [|lia].
  etransitivity; [apply filter_length_le|]. now rewrite length_map.
Qed.

(** The entity as [load_file_data] leaves it after a successful load of
    the image [img]. *)
Variable data_file : DataFile.
Variable fd : FitsData.
Variable img : image.
Hypothesis Hfits : fits_data data_file = Some fd.
Hypothesis Hdata : data fd = Some img.

Lemma analyze_not_positive m :
  np_max (flat img) = Ok m -> ~ 0 < m ->
  _analyze_single_impact_region sqrtQ true data_file = Ok None.
Proof.
  intros Hmax Hm. unfold _analyze_single_impact_region.
  rewrite Hfits, Hdata. cbn [negb]. rewrite Hmax. cbn [bind].
  destruct (Qlt_bool 0 m) eqn:E; [|reflexivity].
  apply Qlt_bool_iff in E. contradiction.
Qed.

Lemma analyze_small m :
  np_max (flat img) = Ok m -> 0 < m ->
  (List.length (flagged img m) < min_region_size)%nat ->
  _analyze_single_impact_region sqrtQ true data_file = Ok None.
Proof.
  intros Hmax Hm Hsmall. unfold _analyze_single_impact_region.
  rewrite Hfits, Hdata. cbn [negb]. rewrite Hmax. cbn [bind].
  apply Qlt_bool_iff in Hm as Hb. rewrite Hb.
  rewrite flat_map_map, (np_max_scale _ _ _ Hm Hmax). cbn [bind].
  rewrite <- (length_map (fun px : pixel => snd px)), (signal_values _ _ Hm Hmax).
  apply Nat.ltb_lt in Hsmall. now rewrite Hsmall.
Qed.

Lemma analyze_region m :
  np_max (flat img) = Ok m -> 0 < m ->
  (min_region_size <= List.length (flagged img m))%nat ->
  exists r,
    _analyze_single_impact_region sqrtQ true data_file = Ok (Some r)
    /\ peak_intensity r = m / m
    /\ region_area r = List.length (flagged img m)
    /\ total_intensity r = np_sum (flagged img m)
    /\ data_density r = count (flagged img m) / count (flat img)
    /\ signal_to_noise r
       = npf_div (np_mean (flagged img m))
                 (npf_add (np_std sqrtQ (unflagged img m)) (Finite epsilon)).
Proof.
  intros Hmax Hm Hbig. unfold _analyze_single_impact_region.
  rewrite Hfits, Hdata. cbn [negb]. rewrite Hmax. cbn [bind].
  apply Qlt_bool_iff in Hm as Hb. rewrite Hb.
  rewrite flat_map_map, (np_max_scale _ _ _ Hm Hmax). cbn [bind].
  rewrite (noise_values _ _ Hm Hmax).
  pose proof (signal_values _ _ Hm Hmax) as Hsig.
  pose proof (flagged_positive _ _ Hm Hmax) as Hpos.
  set (signal := filter (above (m / m * noise_threshold))
                        (pixels (map (map (fun v => v / m)) img))) in *.
  assert (Hlen : List.length signal = List.length (flagged img m))
    by (now rewrite <- Hsig, length_map).
  rewrite !length_map, Hsig.
  assert (Hne : flagged img m <> []).
  { intro E. rewrite E in Hbig. unfold min_region_size in Hbig. simpl in Hbig. lia. }
  assert (Hsne : signal <> []).
  { intro E. rewrite E in Hlen. destruct (flagged img m); [congruence|discriminate]. }
  rewrite Hlen.
  destruct (List.length (flagged img m) <? min_region_size)%nat eqn:E1.
  { apply Nat.ltb_lt in E1. lia. }
  destruct (List.length (flagged img m) =? 0)%nat eqn:E2.
  { apply Nat.eqb_eq in E2. unfold min_region_size in Hbig. lia. }
  unfold np_average.
  assert (Hsum : Qeq_bool (np_sum (flagged img m)) 0 = false).
  { apply Qeq_bool_false_iff. pose proof (np_sum_pos _ Hne Hpos). lra. }
  rewrite Hsum. cbn [bind].
  destruct (fold_min_ok (map (fun px : pixel => snd (fst px)) signal)) as [mnx ->].
  { destruct signal; [congruence|discriminate]. }
  destruct (fold_max_ok (map (fun px : pixel => snd (fst px)) signal)) as [mxx ->].
  { destruct signal; [congruence|discriminate]. }
  destruct (fold_min_ok (map (fun px : pixel => fst (fst px)) signal)) as [mny ->].
  { destruct signal; [congruence|discriminate]. }
  destruct (fold_max_ok (map (fun px : pixel => fst (fst px)) signal)) as [mxy ->].
  { destruct signal; [congruence|discriminate]. }
  cbn [bind].
  assert (Hflat : flat img <> []) by (destruct (flat img); [discriminate|congruence]).
  unfold py_div.
  assert (Hc : Qeq_bool (count (flat img)) 0 = false).
  { apply Qeq_bool_false_iff. pose proof (count_pos _ Hflat). lra. }
  rewrite Hc.
  eexists. split; [reflexivity|]. cbn.
  repeat split.
  unfold count. now rewrite length_map, Hlen.
Qed.

Lemma analyze_empty_raises :
  flat img = [] ->
  _analyze_single_impact_region sqrtQ true data_file = Raise ValueError.
Proof.
  intro E. unfold _analyze_single_impact_region.
  rewrite Hfits, Hdata, E. reflexivity.
Qed.

(** What the detector returns on an image with at least one pixel. *)
Lemma analyze_cases m :
  np_max (flat img) = Ok m ->
  (_analyze_single_impact_region sqrtQ true data_file = Ok None
   /\ (~ 0 < m \/ (List.length (flagged img m) < min_region_size)%nat))
  \/ (0 < m /\ (min_region_size <= List.length (flagged img m))%nat
      /\ exists r,
           _analyze_single_impact_region sqrtQ true data_file = Ok (Some r)
           /\ peak_intensity r = m / m
           /\ data_density r = count (flagged img m) / count (flat img)
           /\ signal_to_noise r
              = npf_div (np_mean (flagged img m))
                        (npf_add (np_std sqrtQ (unflagged img m))
                                 (Finite epsilon))).
Proof.
  intro Hmax. destruct (Qlt_le_dec 0 m) as [Hm|Hm].
  - destruct (le_lt_dec min_region_size (List.length (flagged img m)))
      as [Hbig|Hsmall].
    + right. split; [assumption|]. split; [assumption|].
      destruct (analyze_region _ Hmax Hm Hbig) as [r [H1 [H2 [_ [_ [H3 H4]]]]]].
      exists r. auto.
    + left. split; [now apply (analyze_small _ Hmax Hm)|now right].
  - assert (Hn : ~ 0 < m) by (intro; lra).
    left. split; [now apply (analyze_not_positive _ Hmax)|now left].
Qed.

End DetectorFacts.

Section DetectorClaims.

Import PyStr DataModel EsaAnalysis EsaSpec.
Local Open Scope Q_scope.

Variable sqrtQ : Q -> Q.


(** C10: the peak intensity of every region the detector produces is 1. *)
Theorem peak_intensity_is_one (load_ok : bool) (data_file : DataFile)
  (r : ImpactRegion) :
  _analyze_single_impact_region sqrtQ load_ok data_file = Ok (Some r) ->
  peak_intensity r == 1.
Proof.
  intro H. destruct load_ok; [|discriminate].
  destruct (fits_data data_file) as [fd|] eqn:Hfits;
    [|unfold _analyze_single_impact_region in H; rewrite Hfits in H; discriminate].
  destruct (data fd) as [img|] eqn:Hdata;
    [|unfold _analyze_single_impact_region in H; rewrite Hfits, Hdata in H;
      discriminate].
  destruct (np_max (flat img)) as [m|e] eqn:Hmax.
  - destruct (analyze_cases sqrtQ _ _ _ Hfits Hdata _ Hmax)
      as [[H0 _]|[Hm [_ [r' [Hr [Hpeak _]]]]]]; [congruence|].
    rewrite Hr in H. injection H as <-. rewrite Hpeak. field. lra.
  - unfold _analyze_single_impact_region in H.
    rewrite Hfits, Hdata in H. cbn [negb] in H. rewrite Hmax in H.
    discriminate.
Qed.

(** What holds of the quality figures of a produced region: the density
    is within [0, 1]; the signal-to-noise ratio is non-negative when some
    pixel is outside the signal set, for a square root that returns
    non-negative numbers, and is [nan] when none is. *)
Lemma region_quality (load_ok : bool) (data_file : DataFile) (fd : FitsData)
  (img : image) (m : Q) (r : ImpactRegion) :
  (forall q, 0 <= sqrtQ q) ->
  fits_data data_file = Some fd -> data fd = Some img ->
  np_max (flat img) = Ok m ->
  _analyze_single_impact_region sqrtQ load_ok data_file = Ok (Some r) ->
  0 <= data_density r <= 1
  /\ (unflagged img m <> [] -> npf_nonneg (signal_to_noise r))
  /\ (unflagged img m = [] -> signal_to_noise r = NaN).
Proof.
  intros Hsqrt Hfits Hdata Hmax H. destruct load_ok; [|discriminate].
  destruct (analyze_cases sqrtQ _ _ _ Hfits Hdata _ Hmax)
    as [[H0 _]|[Hm [Hbig [r' [Hr [_ [Hden Hsnr]]]]]]]; [congruence|].
  rewrite Hr in H. injection H as <-.
  assert (Hflat : flat img <> [])
    by (destruct (flat img); [discriminate|congruence]).
  pose proof (count_pos _ Hflat) as Hc.
  assert (Hne : flagged img m <> []).
  { intro E. rewrite E in Hbig. unfold min_region_size in Hbig. simpl in Hbig. lia. }
  split; [|split].
  - rewrite Hden. split.
    + apply Qle_shift_div_l; [assumption|]. pose proof (count_nonneg (flagged img m)). lra.
    + apply Qle_shift_div_r; [assumption|].
      pose proof (count_le _ _ (flagged_le img m)). lra.
  - intro Hnoise. rewrite Hsnr.
    destruct (flagged img m) as [|s0 sl] eqn:Es; [congruence|].
    destruct (unflagged img m) as [|n0 nl] eqn:En; [congruence|].
    unfold np_mean, np_std. cbn [npf_add npf_div].
    set (sd := sqrtQ _).
    assert (Hsd : 0 <= sd) by apply Hsqrt.
    assert (Hden0 : Qeq_bool (sd + epsilon) 0 = false).
    { apply Qeq_bool_false_iff. unfold epsilon. lra. }
    rewrite Hden0. cbn [npf_nonneg].
    pose proof (flagged_positive _ _ Hm Hmax) as Hpos. rewrite Es in Hpos.
    assert (Hsum : 0 < np_sum (s0 :: sl)) by (apply np_sum_pos; [discriminate|assumption]).
    assert (Hcnt : 0 < count (s0 :: sl)) by (apply count_pos; discriminate).
    apply Qle_shift_div_l; [unfold epsilon; lra|].
    rewrite Qmult_0_l. apply Qle_shift_div_l; [assumption|]. lra.
  - intro Hnoise. rewrite Hsnr, Hnoise.
    destruct (flagged img m); [congruence|]. reflexivity.
Qed.

End DetectorClaims.

Section DetectorExamples.

Import PyStr DataModel EsaAnalysis EsaSpec.
Local Open Scope Q_scope.



Lemma peak_intensity_is_one_witness :
  exists r,
    _analyze_single_impact_region sqrt_floor true
      (loaded_file "spot.fits" spot_image) = Ok (Some r)
    /\ region_area r = 10%nat
    /\ peak_intensity r == 1.
Proof.
  destruct (_analyze_single_impact_region sqrt_floor true
              (loaded_file "spot.fits" spot_image)) as [[r|]|e] eqn:E.
  - exists r. split; [reflexivity|]. split.
    + vm_compute in E. injection E as <-. reflexivity.
    + exact (peak_intensity_is_one sqrt_floor true
               (loaded_file "spot.fits" spot_image) r E).
  - vm_compute in E. discriminate.
  - vm_compute in E. discriminate.
Defined.

(** C8 fails on an image whose pixels are all in the signal set: the
    non-signal set is empty, its standard deviation is [nan], and so is
    the signal-to-noise ratio of the region, which is not [>= 0]. *)
Theorem uniform_image_snr_is_nan (sqrtQ : Q -> Q) :
  exists r,
    _analyze_single_impact_region sqrtQ true
      (loaded_file "uniform.fits" uniform_image) = Ok (Some r)
    /\ region_area r = 16%nat
    /\ data_density r == 1
    /\ signal_to_noise r = NaN
    /\ ~ npf_nonneg (signal_to_noise r).
Proof.
  eexists. split; [vm_compute; reflexivity|].
  split; [reflexivity|]. split; [reflexivity|]. split; [reflexivity|].
  intros [].
Qed.

End DetectorExamples.

(** ** The catalog: what the grouping loops build *)

Section GroupingFacts.

Import PyStr FilenameParser DataModel CatalogSpec CatalogMore.
Local Open Scope string_scope.

Lemma assoc_dict_set {A : Type} (d : list (string * A)) (k : string) (v : A) :
  forall k', assoc (dict_set d k v) k'
             = if String.eqb k k' then Some v else assoc d k'.
Proof.
  induction d as [|[k0 v0] d IH]; intro k'; simpl.
  - reflexivity.
  - destruct (String.eqb k0 k) eqn:E; simpl.
    + apply String.eqb_eq in E. subst k0.
      destruct (String.eqb k k'); reflexivity.
    + rewrite IH. destruct (String.eqb k0 k') eqn:E'; [|reflexivity].
      apply String.eqb_eq in E'. subst k0. now rewrite String.eqb_sym, E.
Qed.

Lemma assoc_none_keys {A : Type} (d : list (string * A)) (k : string) :
  assoc d k = None <-> ~ In k (map fst d).
Proof.
  induction d as [|[k0 v0] d IH]; simpl; [tauto|].
  destruct (String.eqb k0 k) eqn:E.
  - apply String.eqb_eq in E. split; [discriminate|tauto].
  - apply String.eqb_neq in E. rewrite IH. tauto.
Qed.

Lemma dict_set_keys {A : Type} (d : list (string * A)) (k : string) (v : A) :
  map fst (dict_set d k v)
  = match assoc d k with
    | Some _ => map fst d
    | None => (map fst d ++ [k])%list
    end.
Proof.
  induction d as [|[k0 v0] d IH]; simpl; [reflexivity|].
  destruct (String.eqb k0 k) eqn:E; simpl; [reflexivity|].
  rewrite IH. now destruct (assoc d k).
Qed.

Lemma dict_set_nodup {A : Type} (d : list (string * A)) (k : string) (v : A) :
  NoDup (map fst d) -> NoDup (map fst (dict_set d k v)).
Proof.
  intro H. rewrite dict_set_keys. destruct (assoc d k) eqn:E; [assumption|].
  apply assoc_none_keys in E.
  apply NoDup_app; [assumption|repeat constructor; intros []|].
  intros x Hx [<-|[]]. contradiction.
Qed.

Lemma assoc_In {A : Type} (d : list (string * A)) (k : string) (v : A) :
  NoDup (map fst d) -> (In (k, v) d <-> assoc d k = Some v).
Proof.
  induction d as [|[k0 v0] d IH]; simpl; intro H.
  - split; [intros []|discriminate].
  - inversion H as [|? ? Hn Hd]; subst.
    destruct (String.eqb k0 k) eqn:E.
    + apply String.eqb_eq in E. subst k0. split.
      * intros [Heq|Hin]; [now injection Heq as ->|].
        exfalso. apply Hn. apply in_map_iff. now exists (k, v).
      * intro Hs. injection Hs as ->. now left.
    + apply String.eqb_neq in E. rewrite <- (IH Hd). split.
      * intros [Heq|Hin]; [injection Heq as -> ->; congruence|assumption].
      * intro Hin. now right.
Qed.

Variable keyf : DataFile -> option string.
Variable fresh : string -> DataFile -> ExperimentGroup.
Hypothesis fresh_empty : forall k f, files (fresh k f) = [].

Lemma members_snoc (k : string) (seen : list DataFile) (f : DataFile) :
  members keyf k (seen ++ [f])
  = (members keyf k seen
     ++ match keyf f with
        | Some k0 => if String.eqb k0 k then [f] else []
        | None => []
        end)%list.
Proof.
  unfold members. rewrite filter_app. simpl.
  destruct (keyf f) as [k0|]; [|reflexivity].
  now destruct (String.eqb k0 k).
Qed.

Lemma group_of_add (k : string) (fs : list DataFile) (g : ExperimentGroup)
  (f : DataFile) :
  group_of fresh k fs g -> group_of fresh k (fs ++ [f]) (add_file g f).
Proof.
  destruct fs as [|f0 fs]; simpl; [tauto|]. intros ->. reflexivity.
Qed.

Lemma grouped_step (seen : list DataFile) (groups : list (string * ExperimentGroup))
  (f : DataFile) :
  grouped keyf fresh seen groups ->
  grouped keyf fresh (seen ++ [f]) (grouping_step keyf fresh groups f).
Proof.
  intros [Hnd Hg]. unfold grouping_step.
  destruct (keyf f) as [k0|] eqn:K.
  - split; [now apply dict_set_nodup|].
    intro k. rewrite assoc_dict_set, members_snoc, K.
    destruct (String.eqb k0 k) eqn:E.
    + apply String.eqb_eq in E. subst k0. specialize (Hg k).
      destruct (assoc groups k) as [g|].
      * now apply group_of_add.
      * rewrite Hg. simpl. unfold add_file. rewrite fresh_empty. reflexivity.
    + rewrite app_nil_r. apply Hg.
  - split; [assumption|]. intro k. rewrite members_snoc, K, app_nil_r. apply Hg.
Qed.

Lemma grouped_fold (fs : list DataFile) : forall seen groups,
  grouped keyf fresh seen groups ->
  grouped keyf fresh (seen ++ fs)
          (fold_left (grouping_step keyf fresh) fs groups).
Proof.
  induction fs as [|f fs IH]; intros seen groups H; simpl.
  - now rewrite app_nil_r.
  - replace (seen ++ f :: fs)%list with ((seen ++ [f]) ++ fs)%list
      by (now rewrite <- app_assoc).
    apply IH. now apply grouped_step.
Qed.

Lemma grouped_all (fs : list DataFile) :
  grouped keyf fresh fs (fold_left (grouping_step keyf fresh) fs []).
Proof.
  apply (grouped_fold fs [] []). split; [constructor|]. intro k. reflexivity.
Qed.

(** Every entry of the dictionary, read off the catalog. *)
Lemma grouped_entry (fs : list DataFile) (k : string) (g : ExperimentGroup) :
  In (k, g) (fold_left (grouping_step keyf fresh) fs []) ->
  group_of fresh k (members keyf k fs) g.
Proof.
  destruct (grouped_all fs) as [Hnd Hg]. intro H.
  apply (assoc_In _ _ _ Hnd) in H. specialize (Hg k). now rewrite H in Hg.
Qed.

Lemma grouped_present (fs : list DataFile) (k : string) :
  members keyf k fs <> [] ->
  exists g, In (k, g) (fold_left (grouping_step keyf fresh) fs [])
            /\ group_of fresh k (members keyf k fs) g.
Proof.
  destruct (grouped_all fs) as [Hnd Hg]. intro H. specialize (Hg k).
  destruct (assoc (fold_left (grouping_step keyf fresh) fs []) k) as [g|] eqn:E;
    [|contradiction].
  exists g. split; [now apply (assoc_In _ _ _ Hnd)|assumption].
Qed.

Lemma held_dict_set (groups : list (string * ExperimentGroup)) (k : string)
  (f : DataFile) :
  held (dict_set groups k
          (add_file (match assoc groups k with
                     | Some g => g
                     | None => fresh k f
                     end) f))
  = S (held groups).
Proof.
  unfold held. induction groups as [|[k0 g0] groups IH]; simpl.
  - rewrite fresh_empty. reflexivity.
  - destruct (String.eqb k0 k) eqn:E; simpl.
    + rewrite length_app. simpl. lia.
    + rewrite IH. lia.
Qed.

Lemma held_fold (fs : list DataFile) : forall groups,
  held (fold_left (grouping_step keyf fresh) fs groups)
  = (held groups + List.length (filter (has_key keyf) fs))%nat.
Proof.
  induction fs as [|f fs IH]; intro groups; simpl; [lia|].
  rewrite IH. unfold grouping_step, has_key.
  destruct (keyf f) as [k|]; simpl; [rewrite held_dict_set|]; lia.
Qed.

End GroupingFacts.

Section GroupingClaims.

Import PyStr FilenameParser DataModel CatalogSpec CatalogMore.
Local Open Scope string_scope.

Variable py_str : value -> string.

Lemma fold_left_ext {A B : Type} (f g : A -> B -> A) (l : list B) :
  (forall a b, f a b = g a b) -> forall a, fold_left f l a = fold_left g l a.
Proof.
  intro H. induction l as [|b l IH]; intro a; simpl; [reflexivity|].
  now rewrite H, IH.
Qed.

Lemma group_step_shape (parameters_ : list string)
  (groups : list (string * ExperimentGroup)) (file : DataFile) :
  group_step py_str parameters_ groups file
  = grouping_step (multi_key py_str parameters_)
                  (multi_fresh py_str parameters_) groups file.
Proof.
  unfold group_step, grouping_step, multi_key, multi_fresh.
  destruct (key_of py_str parameters_ file) as [[|part parts] param_dict];
    reflexivity.
Qed.

Lemma parameter_step_shape (parameter : string)
  (groups : list (string * ExperimentGroup)) (file : DataFile) :
  parameter_step py_str parameter groups file
  = grouping_step (single_key py_str parameter)
                  (single_fresh py_str parameter) groups file.
Proof.
  unfold parameter_step, grouping_step, single_key, single_fresh.
  destruct (getattr (parameters file) parameter) as [v|]; reflexivity.
Qed.

Lemma multi_groups_eq (fs : list DataFile) (parameters_ : list string) :
  fold_left (group_step py_str parameters_) fs []
  = fold_left (grouping_step (multi_key py_str parameters_)
                             (multi_fresh py_str parameters_)) fs [].
Proof. apply fold_left_ext. apply group_step_shape. Qed.

Lemma single_groups_eq (fs : list DataFile) (parameter : string) :
  fold_left (parameter_step py_str parameter) fs []
  = fold_left (grouping_step (single_key py_str parameter)
                             (single_fresh py_str parameter)) fs [].
Proof. apply fold_left_ext. apply parameter_step_shape. Qed.

Lemma multi_fresh_empty (parameters_ : list string) :
  forall k f, files (multi_fresh py_str parameters_ k f) = [].
Proof. reflexivity. Qed.

Lemma single_fresh_empty (parameter : string) :
  forall k f, files (single_fresh py_str parameter k f) = [].
Proof. reflexivity. Qed.

Lemma multi_entry_of (fs : list DataFile) (parameters_ : list string)
  (k : string) (g : ExperimentGroup) :
  In (k, g) (fold_left (group_step py_str parameters_) fs []) ->
  group_of (multi_fresh py_str parameters_) k
           (members (multi_key py_str parameters_) k fs) g.
Proof.
  rewrite multi_groups_eq.
  apply (grouped_entry (multi_key py_str parameters_)
           (multi_fresh py_str parameters_) (multi_fresh_empty parameters_)).
Qed.

Lemma members_key (keyf : DataFile -> option string) (k : string)
  (fs : list DataFile) (f : DataFile) :
  In f (members keyf k fs) <-> In f fs /\ keyf f = Some k.
Proof.
  unfold members. rewrite filter_In. split; intros [Hin H]; split; auto.
  - destruct (keyf f) as [k0|]; [|discriminate].
    apply String.eqb_eq in H. now subst.
  - rewrite H. apply String.eqb_refl.
Qed.

(** The groups by several parameters, before the size filter. *)
Lemma multi_entry (fs : list DataFile) (parameters_ : list string)
  (min_group_size : nat) (group : ExperimentGroup) :
  In group
     (group_files_by_multiple_parameters py_str fs parameters_ min_group_size) ->
  (min_group_size <= List.length (files group))%nat
  /\ In (name group, group) (fold_left (group_step py_str parameters_) fs [])
  /\ group_of (multi_fresh py_str parameters_) (name group)
              (members (multi_key py_str parameters_) (name group) fs) group.
Proof.
  unfold group_files_by_multiple_parameters. intro H.
  apply filter_In in H. destruct H as [H Hsize]. apply Nat.leb_le in Hsize.
  apply in_map_iff in H. destruct H as [[k g] [Hg Hin]]. simpl in Hg. subst g.
  pose proof (multi_entry_of _ _ _ _ Hin) as Hin'.
  assert (Hname : name group = k).
  { unfold group_of in Hin'.
    destruct (members (multi_key py_str parameters_) k fs); [contradiction|].
    now rewrite Hin'. }
  rewrite Hname. auto.
Qed.

(** X1: a group returned by [group_files_by_multiple_parameters] holds
    exactly the files of the catalog whose key is the group's name, in
    catalog order; it has at least [min_group_size] files, its
    [common_parameters] are the parameter values of its first file, and
    no parameter is marked as varying. *)
Theorem multiple_parameter_groups (fs : list DataFile)
  (parameters_ : list string) (min_group_size : nat) (group : ExperimentGroup) :
  In group
     (group_files_by_multiple_parameters py_str fs parameters_ min_group_size) ->
  (min_group_size <= List.length (files group))%nat
  /\ files group = members (multi_key py_str parameters_) (name group) fs
  /\ (exists first rest,
        files group = first :: rest
        /\ common_parameters group = snd (key_of py_str parameters_ first))
  /\ varying_parameters group = [].
Proof.
  intro H. destruct (multi_entry _ _ _ _ H) as [Hsize [_ Hg]].
  split; [assumption|]. unfold group_of in Hg.
  destruct (members (multi_key py_str parameters_) (name group) fs)
    as [|f0 rest] eqn:E; [contradiction|].
  rewrite Hg. cbn. repeat split. now exists f0, rest.
Qed.

(** X2: a file of the catalog with a key is in the returned group of that
    name whenever at least [min_group_size] files have the key. *)
Theorem multiple_parameter_groups_complete (fs : list DataFile)
  (parameters_ : list string) (min_group_size : nat) (f : DataFile)
  (key : string) :
  In f fs -> multi_key py_str parameters_ f = Some key ->
  (min_group_size
   <= List.length (members (multi_key py_str parameters_) key fs))%nat ->
  exists group,
    In group
       (group_files_by_multiple_parameters py_str fs parameters_ min_group_size)
    /\ name group = key /\ In f (files group).
Proof.
  intros Hin Hkey Hsize.
  assert (Hm : In f (members (multi_key py_str parameters_) key fs))
    by (apply members_key; auto).
  destruct (grouped_present (multi_key py_str parameters_)
              (multi_fresh py_str parameters_) (multi_fresh_empty parameters_)
              fs key)
    as [g [Hg Hof]].
  { intro E. rewrite E in Hm. contradiction. }
  unfold group_of in Hof.
  destruct (members (multi_key py_str parameters_) key fs) as [|f0 rest] eqn:E;
    [contradiction|].
  exists g. split; [|split].
  - unfold group_files_by_multiple_parameters. apply filter_In. split.
    + apply in_map_iff. exists (key, g). split; [reflexivity|].
      now rewrite multi_groups_eq.
    + apply Nat.leb_le. now rewrite Hof.
  - now rewrite Hof.
  - now rewrite Hof.
Qed.

Lemma filter_keeps_distinct_names {A B : Type} (name_of : A -> B)
  (keep : A -> bool) (xs : list A) :
  NoDup (map name_of xs) -> NoDup (map name_of (filter keep xs)).
Proof.
  induction xs as [|x xs IH]; simpl; intro H; [constructor|].
  inversion H as [|? ? Hn Hd]; subst.
  destruct (keep x); simpl; [|auto]. constructor; [|auto].
  intro Hin. apply Hn. apply in_map_iff in Hin.
  destruct Hin as [y [Hy Hin]]. apply filter_In in Hin.
  apply in_map_iff. exists y. tauto.
Qed.

(** X3: the returned groups have pairwise different names, and no file
    is in two different groups. *)
Theorem multiple_parameter_groups_disjoint (fs : list DataFile)
  (parameters_ : list string) (min_group_size : nat) :
  NoDup (map name
           (group_files_by_multiple_parameters py_str fs parameters_
              min_group_size))
  /\ forall g1 g2 f,
       In g1 (group_files_by_multiple_parameters py_str fs parameters_
                min_group_size) ->
       In g2 (group_files_by_multiple_parameters py_str fs parameters_
                min_group_size) ->
       In f (files g1) -> In f (files g2) -> g1 = g2.
Proof.
  destruct (grouped_all (multi_key py_str parameters_)
              (multi_fresh py_str parameters_) (multi_fresh_empty parameters_) fs)
    as [Hnd _].
  rewrite <- multi_groups_eq in Hnd.
  split.
  - unfold group_files_by_multiple_parameters. apply filter_keeps_distinct_names.
    rewrite map_map.
    replace (map (fun x => name (snd x))
                 (fold_left (group_step py_str parameters_) fs []))
      with (map fst (fold_left (group_step py_str parameters_) fs []));
      [assumption|].
    apply map_ext_in. intros [k g] Hin. simpl.
    apply multi_entry_of in Hin.
    unfold group_of in Hin.
    destruct (members (multi_key py_str parameters_) k fs); [contradiction|].
    now rewrite Hin.
  - intros g1 g2 f H1 H2 Hf1 Hf2.
    destruct (multi_entry _ _ _ _ H1) as [_ [He1 Hg1]].
    destruct (multi_entry _ _ _ _ H2) as [_ [He2 Hg2]].
    assert (K1 : multi_key py_str parameters_ f = Some (name g1)).
    { unfold group_of in Hg1.
      destruct (members (multi_key py_str parameters_) (name g1) fs) eqn:E;
        [contradiction|].
      rewrite Hg1 in Hf1. cbn [files] in Hf1. rewrite <- E in Hf1.
      now apply members_key in Hf1. }
    assert (K2 : multi_key py_str parameters_ f = Some (name g2)).
    { unfold group_of in Hg2.
      destruct (members (multi_key py_str parameters_) (name g2) fs) eqn:E;
        [contradiction|].
      rewrite Hg2 in Hf2. cbn [files] in Hf2. rewrite <- E in Hf2.
      now apply members_key in Hf2. }
    rewrite K1 in K2. injection K2 as K. rewrite <- K in He2.
    apply (assoc_In _ _ _ Hnd) in He1, He2. congruence.
Qed.

Lemma key_of_length (parameters_ : list string) (file : DataFile) :
  List.length (fst (key_of py_str parameters_ file)) = List.length parameters_.
Proof.
  unfold key_of.
  assert (G : forall ps acc,
             List.length
               (fst (fold_left
                       (fun (acc0 : list string * list (string * option value))
                            param =>
                          let param_value := getattr (parameters file) param in
                          (app (fst acc0)
                               [param ++ "_" ++ py_str_opt py_str param_value],
                           dict_set (snd acc0) param param_value))
                       ps acc))
             = (List.length (fst acc) + List.length ps)%nat).
  { induction ps as [|p ps IH]; intro acc; simpl; [lia|].
    rewrite IH. simpl. rewrite length_app. simpl. lia. }
  apply (G parameters_ ([], [])).
Qed.

Lemma filter_all_true {A : Type} (p : A -> bool) (l : list A) :
  (forall a, In a l -> p a = true) -> filter p l = l.
Proof.
  induction l as [|a l IH]; simpl; intro H; [reflexivity|].
  rewrite (H a (or_introl eq_refl)), IH; auto.
Qed.

(** X4: with at least one parameter and a minimum size of at most one,
    the groups partition the catalog: their sizes add up to the number
    of files. *)
Theorem multiple_parameter_groups_cover (fs : list DataFile)
  (parameters_ : list string) (min_group_size : nat) :
  parameters_ <> [] -> (min_group_size <= 1)%nat ->
  list_sum
    (map (fun group => List.length (files group))
         (group_files_by_multiple_parameters py_str fs parameters_
            min_group_size))
  = List.length fs.
Proof.
  intros Hne Hmin. unfold group_files_by_multiple_parameters.
  rewrite filter_all_true.
  - rewrite map_map. rewrite multi_groups_eq.
    pose proof (held_fold (multi_key py_str parameters_)
                  (multi_fresh py_str parameters_)
                  (multi_fresh_empty parameters_) fs [])
      as H.
    unfold held in H. simpl in H. rewrite H.
    rewrite filter_all_true; [reflexivity|].
    intros f _. unfold has_key, multi_key.
    pose proof (key_of_length parameters_ f) as L.
    destruct (fst (key_of py_str parameters_ f)); [|reflexivity].
    destruct parameters_; [congruence|discriminate].
  - intros g Hg. apply in_map_iff in Hg. destruct Hg as [[k g'] [<- Hin]].
    apply multi_entry_of in Hin.
    unfold group_of in Hin. simpl.
    destruct (members (multi_key py_str parameters_) k fs); [contradiction|].
    rewrite Hin. apply Nat.leb_le. cbn. lia.
Qed.

(** X5: with no parameter to group by, no group is built, and
    [find_comparison_sets] with no fixed parameter returns nothing,
    whatever the files. *)
Theorem no_parameters_no_groups (fs : list DataFile) (min_group_size : nat)
  (varying_parameter : string) :
  group_files_by_multiple_parameters py_str fs [] min_group_size = []
  /\ find_comparison_sets py_str fs [] varying_parameter = [].
Proof.
  assert (E : fold_left (group_step py_str []) fs [] = []).
  { induction fs as [|f fs IH]; simpl; [reflexivity|exact IH]. }
  unfold find_comparison_sets, group_files_by_multiple_parameters.
  rewrite E. split; reflexivity.
Qed.

(** X6: a group returned by [group_files_by_parameter] is named after the
    parameter and the text of a value; it holds exactly the files whose
    value of the parameter is present and has that text, so a file
    without the parameter is in no group. *)
Theorem single_parameter_groups (fs : list DataFile) (parameter : string)
  (min_group_size : nat) (group : ExperimentGroup) :
  In group (group_files_by_parameter py_str fs parameter min_group_size) ->
  exists key,
    name group = parameter ++ "_" ++ key
    /\ (min_group_size <= List.length (files group))%nat
    /\ files group = members (single_key py_str parameter) key fs
    /\ Forall (fun f => exists v,
                 getattr (parameters f) parameter = Some v /\ py_str v = key)
              (files group)
    /\ exists first rest,
         files group = first :: rest
         /\ common_parameters group
            = [(parameter, getattr (parameters first) parameter)].
Proof.
  unfold group_files_by_parameter. intro H.
  apply filter_In in H. destruct H as [H Hsize]. apply Nat.leb_le in Hsize.
  apply in_map_iff in H. destruct H as [[k g] [Hg Hin]]. simpl in Hg. subst g.
  rewrite single_groups_eq in Hin.
  apply (grouped_entry (single_key py_str parameter)
           (single_fresh py_str parameter) (single_fresh_empty parameter))
    in Hin.
  unfold group_of in Hin.
  destruct (members (single_key py_str parameter) k fs) as [|f0 rest] eqn:E;
    [contradiction|].
  exists k. rewrite Hin. cbn [name files common_parameters single_fresh].
  split; [reflexivity|]. split; [now rewrite Hin in Hsize|].
  split; [now rewrite E|]. split.
  - rewrite <- E. apply Forall_forall. intros f Hf.
    apply members_key in Hf. destruct Hf as [_ Hk]. unfold single_key in Hk.
    destruct (getattr (parameters f) parameter) as [v|]; [|discriminate].
    exists v. split; [reflexivity|]. now injection Hk.
  - now exists f0, rest.
Qed.

End GroupingClaims.

Section GroupingExamples.

Import PyStr FilenameParser DataModel CatalogSpec CatalogMore.
Local Open Scope string_scope.

(** On the sample catalog, grouping by the beam energy with a minimum of
    two files returns a group of the two 1000 eV files. *)
Lemma multiple_parameter_groups_witness :
  exists group,
    In group
       (group_files_by_multiple_parameters show_value sample_catalog
          ["beam_energy_value"] 2)
    /\ (2 <= List.length (files group))%nat
    /\ files group
       = members (multi_key show_value ["beam_energy_value"]) (name group)
           sample_catalog
    /\ (exists first rest,
          files group = first :: rest
          /\ common_parameters group
             = snd (key_of show_value ["beam_energy_value"] first))
    /\ varying_parameters group = [].
Proof.
  destruct (group_files_by_multiple_parameters show_value sample_catalog
              ["beam_energy_value"] 2) as [|group gs] eqn:E.
  - vm_compute in E. discriminate E.
  - exists group. split; [now left|].
    apply (multiple_parameter_groups show_value sample_catalog
             ["beam_energy_value"] 2 group).
    rewrite E. now left.
Defined.

(** The first file of the sample catalog is in the returned group of the
    1000 eV files. *)
Lemma multiple_parameter_groups_complete_witness :
  exists group,
    In group
       (group_files_by_multiple_parameters show_value sample_catalog
          ["beam_energy_value"] 2)
    /\ name group = "beam_energy_value_1000.0"
    /\ In (entity "data/ACI ESA 181V 1000eV BEAM240921-215501.fits")
          (files group).
Proof.
  apply (multiple_parameter_groups_complete show_value sample_catalog
           ["beam_energy_value"] 2
           (entity "data/ACI ESA 181V 1000eV BEAM240921-215501.fits")
           "beam_energy_value_1000.0").
  - now left.
  - vm_compute. reflexivity.
  - vm_compute. lia.
Defined.

(** With a minimum size of one, the groups by beam energy of the sample
    catalog hold its three files. *)
Lemma multiple_parameter_groups_cover_witness :
  list_sum
    (map (fun group => List.length (files group))
         (group_files_by_multiple_parameters show_value sample_catalog
            ["beam_energy_value"] 1))
  = List.length sample_catalog.
Proof.
  apply (multiple_parameter_groups_cover show_value sample_catalog
           ["beam_energy_value"] 1).
  - discriminate.
  - lia.
Defined.

(** Grouping the sample catalog by the beam energy alone. *)
Lemma single_parameter_groups_witness :
  exists group key,
    In group
       (group_files_by_parameter show_value sample_catalog
          "beam_energy_value" 2)
    /\ name group = "beam_energy_value" ++ "_" ++ key
    /\ (2 <= List.length (files group))%nat
    /\ files group
       = members (single_key show_value "beam_energy_value") key
           sample_catalog
    /\ Forall (fun f => exists v,
                 getattr (parameters f) "beam_energy_value" = Some v
                 /\ show_value v = key)
              (files group)
    /\ exists first rest,
         files group = first :: rest
         /\ common_parameters group
            = [("beam_energy_value",
                getattr (parameters first) "beam_energy_value")].
Proof.
  destruct (group_files_by_parameter show_value sample_catalog
              "beam_energy_value" 2) as [|group gs] eqn:E.
  - vm_compute in E. discriminate E.
  - destruct (single_parameter_groups show_value sample_catalog
                "beam_energy_value" 2 group) as [key H].
    + rewrite E. now left.
    + exists group, key. split; [now left|exact H].
Defined.

End GroupingExamples.

(** ** The catalog: values of a parameter within a group *)

Section ValueFacts.

Import PyStr FilenameParser DataModel CatalogSpec CatalogMore.
Local Open Scope string_scope.

Lemma datetime_eqb_refl d : datetime_eqb d d = true.
Proof. unfold datetime_eqb. now rewrite !Z.eqb_refl. Qed.

Lemma datetime_eqb_eq a b : datetime_eqb a b = true -> a = b.
Proof.
  unfold datetime_eqb. rewrite !andb_true_iff, !Z.eqb_eq.
  destruct a, b; simpl. intuition congruence.
Qed.

Lemma value_eqb_refl v : value_eqb v v = true.
Proof.
  destruct v as [s|q|lo hi|b|d]; simpl.
  - apply String.eqb_refl.
  - apply Qeq_bool_iff. reflexivity.
  - apply andb_true_iff. split; apply Qeq_bool_iff; reflexivity.
  - now destruct b.
  - apply datetime_eqb_refl.
Qed.

Lemma value_eqb_sym v w : value_eqb v w = value_eqb w v.
Proof.
  destruct v as [s|q|lo hi|b|d], w as [s'|q'|lo' hi'|b'|d']; simpl;
    try reflexivity.
  - apply String.eqb_sym.
  - apply eq_true_iff_eq. rewrite !Qeq_bool_iff. split; intro H; now symmetry.
  - apply eq_true_iff_eq. rewrite !andb_true_iff, !Qeq_bool_iff.
    split; intros [H1 H2]; split; now symmetry.
  - now destruct b, b'.
  - apply eq_true_iff_eq. split; intro H; apply datetime_eqb_eq in H; subst;
      apply datetime_eqb_refl.
Qed.

Lemma value_eqb_trans u v w :
  value_eqb u v = true -> value_eqb v w = true -> value_eqb u w = true.
Proof.
  destruct u as [s|q|lo hi|b|d], v as [s'|q'|lo' hi'|b'|d'],
    w as [s''|q''|lo'' hi''|b''|d'']; simpl; try discriminate.
  - rewrite !String.eqb_eq. congruence.
  - rewrite !Qeq_bool_iff. intros H1 H2. now rewrite H1.
  - rewrite !andb_true_iff, !Qeq_bool_iff. intros [A B] [C D].
    split; [now rewrite A|now rewrite B].
  - destruct b, b', b''; auto.
  - intros H1 H2. apply datetime_eqb_eq in H1, H2. subst.
    apply datetime_eqb_refl.
Qed.

Lemma lex_leb_total a : forall b, lex_leb a b = false -> lex_leb b a = true.
Proof.
  induction a as [|x a IH]; intros [|y b]; simpl; try discriminate; auto.
  intro H. apply orb_false_iff in H. destruct H as [H1 H2].
  apply Z.ltb_ge in H1.
  destruct (Z.eqb_spec x y) as [->|Hne].
  - simpl in H2. rewrite Z.eqb_refl, (IH _ H2). apply orb_true_r.
  - assert (E : (y <? x)%Z = true) by (apply Z.ltb_lt; lia). now rewrite E.
Qed.

Lemma Qle_bool_total x y : Qle_bool x y = false -> Qle_bool y x = true.
Proof.
  intro H. apply Qle_bool_iff. destruct (Qlt_le_dec x y) as [L|L]; [|assumption].
  assert (T : Qle_bool x y = true) by (apply Qle_bool_iff; now apply Qlt_le_weak).
  congruence.
Qed.

Lemma value_leb_total v w : value_leb v w = false -> value_leb w v = true.
Proof.
  destruct v as [s|q|lo hi|b|d], w as [s'|q'|lo' hi'|b'|d'];
    cbn [value_leb kind Nat.leb]; try discriminate; try reflexivity.
  - intro H. destruct (String.leb_total s s'); congruence.
  - apply Qle_bool_total.
  - intro H. apply orb_false_iff in H. destruct H as [H1 H2].
    apply negb_false_iff in H1.
    destruct (Qle_bool lo lo') eqn:B; [|reflexivity].
    assert (E : Qeq_bool lo lo' = true).
    { apply Qeq_bool_iff. apply Qle_bool_iff in H1, B. now apply Qle_antisym. }
    rewrite E in H2. simpl in H2.
    assert (E' : Qeq_bool lo' lo = true).
    { apply Qeq_bool_iff. apply Qeq_bool_iff in E. now symmetry. }
    rewrite E'. simpl. now apply Qle_bool_total.
  - now destruct b, b'.
  - apply lex_leb_total.
Qed.

Lemma insert_sorted_In v l : forall w, In w (insert_sorted v l) <-> w = v \/ In w l.
Proof.
  induction l as [|x l IH]; intro w; simpl.
  - intuition.
  - destruct (value_leb v x); simpl; [intuition|]. rewrite IH. intuition.
Qed.

Lemma sorted_In l : forall w, In w (sorted l) <-> In w l.
Proof.
  unfold sorted. induction l as [|x l IH]; intro w; simpl; [tauto|].
  rewrite insert_sorted_In, IH. intuition.
Qed.

Lemma insert_sorted_Sorted v l :
  Sorted value_le l -> Sorted value_le (insert_sorted v l).
Proof.
  induction l as [|x l IH]; intro H; simpl.
  - repeat constructor.
  - destruct (value_leb v x) eqn:E.
    + constructor; [assumption|]. constructor. exact E.
    + inversion H as [|? ? Hs Hh]; subst. constructor; [now apply IH|].
      apply value_leb_total in E.
      destruct l as [|y l]; simpl.
      * constructor. exact E.
      * destruct (value_leb v y); constructor; [exact E|].
        inversion Hh; subst. assumption.
Qed.

Lemma sorted_Sorted l : Sorted value_le (sorted l).
Proof.
  unfold sorted. induction l as [|x l IH]; simpl; [constructor|].
  now apply insert_sorted_Sorted.
Qed.

Lemma set_add_keeps v s : forall w, In w s -> In w (set_add v s).
Proof.
  induction s as [|x s IH]; simpl; intros w H; [contradiction|].
  destruct (value_eqb x v); [assumption|].
  destruct H as [<-|H]; [now left|right; auto].
Qed.

Lemma set_add_has v s : exists w, In w (set_add v s) /\ value_eqb w v = true.
Proof.
  induction s as [|x s IH]; simpl.
  - exists v. split; [now left|apply value_eqb_refl].
  - destruct (value_eqb x v) eqn:E.
    + exists x. split; [now left|assumption].
    + destruct IH as [w [Hin Hw]]. exists w. split; [now right|assumption].
Qed.

(** The set [get_parameter_values] collects has a member equal to every
    present value of a file. *)
Lemma collected_complete (parameter : string) (fs : list DataFile) :
  forall acc,
  let values :=
    fold_left
      (fun values file =>
         match getattr (parameters file) parameter with
         | Some param_value => set_add param_value values
         | None => values
         end) fs acc in
  (forall w, In w acc -> In w values)
  /\ (forall f v, In f fs -> getattr (parameters f) parameter = Some v ->
        exists w, In w values /\ value_eqb w v = true).
Proof.
  induction fs as [|f fs IH]; intro acc; simpl.
  - split; [auto|]. intros f v [].
  - destruct (getattr (parameters f) parameter) as [pv|] eqn:G.
    + destruct (IH (set_add pv acc)) as [Hk Hc]. split.
      * intros w Hw. apply Hk. now apply set_add_keeps.
      * intros f' v [<-|Hin] Hv.
        -- rewrite G in Hv. injection Hv as <-.
           destruct (set_add_has pv acc) as [w [Hw He]].
           exists w. split; [now apply Hk|assumption].
        -- now apply (Hc f').
    + destruct (IH acc) as [Hk Hc]. split; [assumption|].
      intros f' v [<-|Hin] Hv; [congruence|now apply (Hc f')].
Qed.

Lemma distinct_eq (l : list value) :
  distinct l ->
  forall v w, In v l -> In w l -> value_eqb v w = true -> v = w.
Proof.
  induction l as [|x l IH]; simpl; intros Hd v w Hv Hw E; [contradiction|].
  destruct Hd as [Hx Hl].
  destruct Hv as [<-|Hv]; destruct Hw as [<-|Hw]; auto.
  - rewrite (Hx _ Hw) in E. discriminate.
  - rewrite value_eqb_sym, (Hx _ Hv) in E. discriminate.
Qed.

Lemma parameter_values_distinct (group : ExperimentGroup) (parameter : string) :
  forall v w,
    In v (get_parameter_values group parameter) ->
    In w (get_parameter_values group parameter) ->
    value_eqb v w = true -> v = w.
Proof.
  unfold get_parameter_values.
  destruct (collected_values parameter (files group) [] I) as [Hd _].
  cbv zeta in Hd.
  intros v w Hv Hw. apply (proj1 (sorted_In _ _)) in Hv, Hw.
  exact (distinct_eq _ Hd v w Hv Hw).
Qed.

Lemma parameter_values_sound (group : ExperimentGroup) (parameter : string) :
  forall v,
    In v (get_parameter_values group parameter) ->
    exists f, In f (files group) /\ getattr (parameters f) parameter = Some v.
Proof.
  unfold get_parameter_values.
  destruct (collected_values parameter (files group) [] I) as [_ Hs].
  cbv zeta in Hs.
  intros v Hv. apply (proj1 (sorted_In _ _)) in Hv.
  destruct (Hs v Hv) as [[]|H]. exact H.
Qed.

Lemma parameter_values_complete (group : ExperimentGroup) (parameter : string) :
  forall f v,
    In f (files group) -> getattr (parameters f) parameter = Some v ->
    exists w, In w (get_parameter_values group parameter)
              /\ value_eqb w v = true.
Proof.
  unfold get_parameter_values.
  destruct (collected_complete parameter (files group) []) as [_ Hc].
  cbv zeta in Hc.
  intros f v Hf Hv. destruct (Hc f v Hf Hv) as [w [Hw He]].
  exists w. split; [now apply (proj2 (sorted_In _ _))|assumption].
Qed.

(** X7: [get_parameter_values] returns a list in ascending order, without
    two equal members; each member is the value of the parameter in some
    file of the group, and every file's present value is equal to a
    member. *)
Theorem get_parameter_values_spec (group : ExperimentGroup) (parameter : string) :
  Sorted value_le (get_parameter_values group parameter)
  /\ (forall v w,
        In v (get_parameter_values group parameter) ->
        In w (get_parameter_values group parameter) ->
        value_eqb v w = true -> v = w)
  /\ (forall v,
        In v (get_parameter_values group parameter) ->
        exists f, In f (files group)
                  /\ getattr (parameters f) parameter = Some v)
  /\ (forall f v,
        In f (files group) -> getattr (parameters f) parameter = Some v ->
        exists w, In w (get_parameter_values group parameter)
                  /\ value_eqb w v = true).
Proof.
  split; [unfold get_parameter_values; apply sorted_Sorted|].
  split; [apply parameter_values_distinct|].
  split; [apply parameter_values_sound|apply parameter_values_complete].
Qed.

Lemma varies_two_values (group : ExperimentGroup) (parameter : string) :
  varies group parameter ->
  (1 < List.length (get_parameter_values group parameter))%nat.
Proof.
  intros [f1 [f2 [v1 [v2 [H1 [H2 [G1 [G2 Hne]]]]]]]].
  unfold get_parameter_values. rewrite sorted_length.
  destruct (collected_complete parameter (files group) []) as [_ Hc].
  cbv zeta in Hc.
  destruct (Hc f1 v1 H1 G1) as [w1 [Hw1 E1]].
  destruct (Hc f2 v2 H2 G2) as [w2 [Hw2 E2]].
  destruct (fold_left _ (files group) []) as [|a [|b l]]; simpl in *;
    [contradiction| |lia].
  destruct Hw1 as [<-|[]]. destruct Hw2 as [<-|[]].
  exfalso. rewrite value_eqb_sym in E1.
  rewrite (value_eqb_trans _ _ _ E1 E2) in Hne. discriminate.
Qed.

Variable py_str : value -> string.

(** X8: the comparison sets are exactly the groups by the fixed
    parameters with at least two files in which the varying parameter
    takes two different present values, each marked with that parameter. *)
Theorem find_comparison_sets_iff (fs : list DataFile)
  (fixed_parameters : list string) (varying_parameter : string)
  (group : ExperimentGroup) :
  In group (find_comparison_sets py_str fs fixed_parameters varying_parameter)
  <-> exists g0,
        In g0 (group_files_by_multiple_parameters py_str fs fixed_parameters 2)
        /\ varies g0 varying_parameter
        /\ group = mark_varying g0 varying_parameter.
Proof.
  unfold find_comparison_sets. rewrite comparison_fold. cbn [app].
  rewrite in_map_iff. split.
  - intros [g0 [<- H]]. apply filter_In in H. destruct H as [Hin Hlen].
    apply Nat.ltb_lt in Hlen. exists g0.
    split; [assumption|]. split; [now apply two_values_vary|reflexivity].
  - intros [g0 [Hin [Hv ->]]]. exists g0. split; [reflexivity|].
    apply filter_In. split; [assumption|].
    apply Nat.ltb_lt. now apply varies_two_values.
Qed.

(** X9: every file of a group is returned by [get_files_by_parameter]
    for exactly one query among [None] and the values
    [get_parameter_values] lists: [None] when the file lacks the
    parameter, the listed value equal to its own otherwise. *)
Theorem get_files_by_parameter_partition (group : ExperimentGroup)
  (parameter : string) (f : DataFile) :
  In f (files group) ->
  exists q,
    (q = None
     \/ exists w, q = Some w /\ In w (get_parameter_values group parameter))
    /\ In f (get_files_by_parameter group parameter q)
    /\ forall q',
         (q' = None
          \/ exists w', q' = Some w'
                        /\ In w' (get_parameter_values group parameter)) ->
         In f (get_files_by_parameter group parameter q') -> q' = q.
Proof.
  intro Hf.
  pose proof (parameter_values_distinct group parameter) as Hd.
  pose proof (parameter_values_complete group parameter) as Hc.
  unfold get_files_by_parameter.
  destruct (getattr (parameters f) parameter) as [v|] eqn:G.
  - destruct (Hc f v Hf G) as [w [Hw E]].
    exists (Some w). split; [right; now exists w|]. split.
    + apply filter_In. split; [assumption|]. rewrite G. simpl.
      now rewrite value_eqb_sym.
    + intros q' Hq' Hin. apply filter_In in Hin. destruct Hin as [_ Hin].
      rewrite G in Hin. destruct Hq' as [->|[w' [-> Hw']]]; [discriminate|].
      simpl in Hin. f_equal. apply Hd; try assumption.
      rewrite value_eqb_sym. apply (value_eqb_trans _ v); [|assumption].
      assumption.
  - exists None. split; [now left|]. split.
    + apply filter_In. split; [assumption|]. now rewrite G.
    + intros q' Hq' Hin. apply filter_In in Hin. destruct Hin as [_ Hin].
      rewrite G in Hin. destruct q'; [discriminate|reflexivity].
Qed.

End ValueFacts.

Section ValueExamples.

Import PyStr FilenameParser DataModel CatalogSpec CatalogMore.
Local Open Scope string_scope.

(** In a group of the whole sample catalog, the first file is returned
    for one query on the beam energy only. *)
Lemma get_files_by_parameter_partition_witness :
  let group :=
    {| name := "all"; description := ""; files := sample_catalog;
       common_parameters := []; varying_parameters := [] |} in
  let f := entity "data/ACI ESA 181V 1000eV BEAM240921-215501.fits" in
  exists q,
    (q = None
     \/ exists w, q = Some w
                  /\ In w (get_parameter_values group "beam_energy_value"))
    /\ In f (get_files_by_parameter group "beam_energy_value" q)
    /\ forall q',
         (q' = None
          \/ exists w', q' = Some w'
                        /\ In w' (get_parameter_values group
                                    "beam_energy_value")) ->
         In f (get_files_by_parameter group "beam_energy_value" q') -> q' = q.
Proof.
  intros group f.
  apply (get_files_by_parameter_partition group "beam_energy_value" f).
  simpl. now left.
Defined.

End ValueExamples.

(** ** The parser's helpers on their own *)

Section HelperFacts.

Import PyStr CharClass Re FilenameParser ParserSpec ParserMore.
Local Open Scope string_scope.

Lemma endswith_iff (s suf : string) :
  endswith s suf = true <-> exists a, s = a ++ suf.
Proof.
  split; [apply endswith_inv|]. intros [a ->]. apply endswith_append.
Qed.

Lemma endswith_longer (s u v : string) :
  endswith s (u ++ v) = true -> endswith s v = true.
Proof.
  intro H. apply endswith_inv in H. destruct H as [a ->].
  rewrite <- append_assoc. apply endswith_append.
Qed.

(** Two suffixes of one string that end in different characters. *)
Ltac ends_apart :=
  match goal with
  | H1 : endswith ?s ?u = true, H2 : endswith ?s ?v = true |- _ =>
      let a := fresh "a" in
      let b := fresh "b" in
      let E := fresh "E" in
      apply endswith_inv in H1; destruct H1 as [a H1];
      apply endswith_inv in H2; destruct H2 as [b H2];
      assert (E : a ++ u = b ++ v) by congruence;
      apply (f_equal (fun t => rev (list_ascii_of_string t))) in E;
      rewrite !rev_list_of_append in E; simpl in E; discriminate E
  end.

Lemma append_longer (a ext : string) : ext <> "" -> a <> a ++ ext.
Proof.
  intros Hne E. apply (f_equal String.length) in E.
  rewrite length_append in E. destruct ext; [congruence|]. simpl in E. lia.
Qed.

(** X10: a name is its cleaned form followed by the extension removed,
    one of six including the empty one, and its file type is the one of
    that extension: the type is ["unknown"] exactly when cleaning leaves
    the name as it is, and the double extensions [.fits.map] and
    [.fits.phd] count as [map] and [phd]. *)
Theorem file_type_by_extension (fname : string) :
  (exists ext,
     fname = _clean_filename_for_parsing fname ++ ext
     /\ In (ext, _get_file_type fname) extensions)
  /\ (_get_file_type fname = "unknown"
      <-> _clean_filename_for_parsing fname = fname).
Proof.
  unfold _clean_filename_for_parsing, _get_file_type, extensions.
  destruct (endswith fname ".fits") eqn:Hf;
    destruct (endswith fname ".map") eqn:Hm;
    destruct (endswith fname ".phd") eqn:Hp;
    try (exfalso; ends_apart).
  - (* .fits *)
    assert (H1 : endswith fname ".fits.map" = false).
    { destruct (endswith fname ".fits.map") eqn:E; [|reflexivity].
      apply (endswith_longer fname ".fits" ".map") in E. congruence. }
    assert (H2 : endswith fname ".fits.phd" = false).
    { destruct (endswith fname ".fits.phd") eqn:E; [|reflexivity].
      apply (endswith_longer fname ".fits" ".phd") in E. congruence. }
    rewrite H1, H2. apply endswith_inv in Hf. destruct Hf as [a ->].
    pose proof (drop_last_append a ".fits") as D; cbn [String.length] in D; rewrite D. split.
    + exists ".fits". split; [reflexivity|]. simpl. auto.
    + split; [discriminate|]. intro E. exfalso.
      apply (append_longer a ".fits"); [discriminate|assumption].
  - (* .map *)
    assert (H2 : endswith fname ".fits.phd" = false).
    { destruct (endswith fname ".fits.phd") eqn:E; [|reflexivity].
      apply (endswith_longer fname ".fits" ".phd") in E. congruence. }
    destruct (endswith fname ".fits.map") eqn:H1.
    + apply endswith_inv in H1. destruct H1 as [a ->].
      pose proof (drop_last_append a ".fits.map") as D; cbn [String.length] in D; rewrite D. split.
      * exists ".fits.map". split; [reflexivity|]. simpl. auto 6.
      * split; [discriminate|]. intro E. exfalso.
        apply (append_longer a ".fits.map"); [discriminate|assumption].
    + rewrite H2. apply endswith_inv in Hm. destruct Hm as [a ->].
      pose proof (drop_last_append a ".map") as D; cbn [String.length] in D; rewrite D. split.
      * exists ".map". split; [reflexivity|]. simpl. auto 6.
      * split; [discriminate|]. intro E. exfalso.
        apply (append_longer a ".map"); [discriminate|assumption].
  - (* .phd *)
    assert (H1 : endswith fname ".fits.map" = false).
    { destruct (endswith fname ".fits.map") eqn:E; [|reflexivity].
      apply (endswith_longer fname ".fits" ".map") in E. congruence. }
    rewrite H1.
    destruct (endswith fname ".fits.phd") eqn:H2.
    + apply endswith_inv in H2. destruct H2 as [a ->].
      pose proof (drop_last_append a ".fits.phd") as D; cbn [String.length] in D; rewrite D. split.
      * exists ".fits.phd". split; [reflexivity|]. simpl. auto 8.
      * split; [discriminate|]. intro E. exfalso.
        apply (append_longer a ".fits.phd"); [discriminate|assumption].
    + apply endswith_inv in Hp. destruct Hp as [a ->].
      pose proof (drop_last_append a ".phd") as D; cbn [String.length] in D; rewrite D. split.
      * exists ".phd". split; [reflexivity|]. simpl. auto 8.
      * split; [discriminate|]. intro E. exfalso.
        apply (append_longer a ".phd"); [discriminate|assumption].
  - (* no extension *)
    assert (H1 : endswith fname ".fits.map" = false).
    { destruct (endswith fname ".fits.map") eqn:E; [|reflexivity].
      apply (endswith_longer fname ".fits" ".map") in E. congruence. }
    assert (H2 : endswith fname ".fits.phd" = false).
    { destruct (endswith fname ".fits.phd") eqn:E; [|reflexivity].
      apply (endswith_longer fname ".fits" ".phd") in E. congruence. }
    rewrite H1, H2. split.
    + exists "". split; [now rewrite append_nil_r|]. simpl. auto.
    + split; reflexivity.
Qed.

Ltac unit_clash Hnum :=
  match goal with
  | |- endswith ?s ?v = false =>
      let E := fresh "E" in
      let a := fresh "a" in
      let Hc := fresh "Hc" in
      destruct (endswith s v) eqn:E; [exfalso|reflexivity];
      apply endswith_inv in E; destruct E as [a E];
      apply (f_equal (fun t => rev (list_ascii_of_string t))) in E;
      rewrite ?rev_list_of_append in E; simpl in E;
      first
        [ discriminate E
        | pose proof (last_char_numeric _ _ _ Hnum E) as Hc;
          vm_compute in Hc; discriminate Hc ]
  end.

Lemma py_float_raises (s : string) (e : exn) :
  py_float s = Raise e -> e = ValueError.
Proof.
  unfold py_float, unsigned_float. destruct s as [|c s]; [congruence|].
  destruct (Ascii.eqb c "-").
  - destruct (unsigned_value s); simpl; congruence.
  - destruct (unsigned_value (String c s)); congruence.
Qed.

Lemma py_float_unit_raises (num u : string) (q : Q) :
  py_float num = Ok q ->
  u = "kev" \/ u = "Kev" \/ u = "ev" \/ u = "Ev" ->
  py_float (num ++ u) = Raise ValueError.
Proof.
  intros Hq Hu. destruct (py_float (num ++ u)) as [q'|e] eqn:E.
  - apply py_float_chars in E. apply all_in_append in E. destruct E as [_ E].
    exfalso. destruct Hu as [-> | [-> | [-> | ->]]]; simpl in E;
      intuition discriminate.
  - f_equal. now apply py_float_raises in E.
Qed.

(** X11: on a number followed by a unit, [_parse_energy] multiplies by
    1000 for the four kilo spellings, keeps the number for ["eV"],
    ["EV"] and no unit, always with the unit ["eV"]; a unit with a
    lower-case [v] is a [ValueError]. *)
Theorem parse_energy_units (num : string) (q : Q) :
  py_float num = Ok q ->
  (forall u, In u ["keV"; "kEV"; "KEV"; "KeV"] ->
     _parse_energy (num ++ u) = Ok ((q * 1000)%Q, "eV"))
  /\ (forall u, In u ["eV"; "EV"; ""] ->
        _parse_energy (num ++ u) = Ok (q, "eV"))
  /\ (forall u, In u ["kev"; "Kev"; "ev"; "Ev"] ->
        _parse_energy (num ++ u) = Raise ValueError).
Proof.
  intro Hq. pose proof (py_float_chars _ _ Hq) as Hnum.
  split; [|split]; intros u Hu; cbn [In] in Hu.
  - apply parse_energy_kilo; [assumption|]. intuition.
  - destruct Hu as [<- | [<- | [<- | []]]].
    + apply parse_energy_plain; auto.
    + apply parse_energy_plain; auto.
    + rewrite append_nil_r. unfold _parse_energy.
      assert (H1 : endswith num "keV" = false) by unit_clash Hnum.
      assert (H2 : endswith num "kEV" = false) by unit_clash Hnum.
      assert (H3 : endswith num "KEV" = false) by unit_clash Hnum.
      assert (H4 : endswith num "KeV" = false) by unit_clash Hnum.
      assert (H5 : endswith num "eV" = false) by unit_clash Hnum.
      assert (H6 : endswith num "EV" = false) by unit_clash Hnum.
      rewrite H1, H2, H3, H4, H5, H6, Hq. reflexivity.
  - assert (Hu' : u = "kev" \/ u = "Kev" \/ u = "ev" \/ u = "Ev")
      by (intuition).
    pose proof (py_float_unit_raises num u q Hq Hu') as Hr.
    unfold _parse_energy.
    assert (H1 : endswith (num ++ u) "keV" = false)
      by (destruct Hu' as [-> | [-> | [-> | ->]]]; unit_clash Hnum).
    assert (H2 : endswith (num ++ u) "kEV" = false)
      by (destruct Hu' as [-> | [-> | [-> | ->]]]; unit_clash Hnum).
    assert (H3 : endswith (num ++ u) "KEV" = false)
      by (destruct Hu' as [-> | [-> | [-> | ->]]]; unit_clash Hnum).
    assert (H4 : endswith (num ++ u) "KeV" = false)
      by (destruct Hu' as [-> | [-> | [-> | ->]]]; unit_clash Hnum).
    assert (H5 : endswith (num ++ u) "eV" = false)
      by (destruct Hu' as [-> | [-> | [-> | ->]]]; unit_clash Hnum).
    assert (H6 : endswith (num ++ u) "EV" = false)
      by (destruct Hu' as [-> | [-> | [-> | ->]]]; unit_clash Hnum).
    rewrite H1, H2, H3, H4, H5, H6, Hr. reflexivity.
Qed.

(** X12: a number with ["to"] before or after it and nothing on the
    other side does not fall back to that number: [float] fails on the
    empty side, the handler evaluates [logger], which the module does
    not define, and [_parse_angle] raises [NameError]. *)
Theorem parse_angle_never_falls_back (s : string) (a : Q) :
  py_float s = Ok a ->
  _parse_angle (s ++ "to") = Raise NameError
  /\ _parse_angle ("to" ++ s) = Raise NameError.
Proof.
  intro H. pose proof (float_not_t _ _ H) as Hs. split.
  - change (s ++ "to") with (s ++ "to" ++ "").
    unfold _parse_angle, split.
    rewrite contains_to_true, (split_to s "" "" Hs I).
    cbn [append]. rewrite H. reflexivity.
  - change ("to" ++ s) with ("" ++ "to" ++ s).
    unfold _parse_angle, split.
    rewrite contains_to_true, (split_to "" s "" I Hs).
    reflexivity.
Qed.

Lemma split_go_nonempty (sep : string) (s : string) :
  forall skip cur, exists p l, split_go sep skip s cur = p :: l.
Proof.
  induction s as [|c s IH]; intros skip cur; cbn [split_go].
  - now exists cur, [].
  - destruct skip as [|n]; [|apply IH].
    destruct (prefix sep (String c s)); [|apply IH].
    destruct (IH (String.length sep - 1)%nat "") as [p [l ->]].
    now exists cur, (p :: l).
Qed.

Lemma split_go_two (s : string) :
  forall cur, contains "to" s = true ->
  exists p q l, split_go "to" 0 s cur = p :: q :: l.
Proof.
  induction s as [|c s IH]; intros cur H; [discriminate|].
  cbn [contains] in H. cbn [split_go].
  destruct (prefix "to" (String c s)).
  - destruct (split_go_nonempty "to" s (String.length "to" - 1) "")
      as [q [l ->]].
    now exists cur, q, l.
  - apply IH. exact H.
Qed.

Lemma split_first (a rest : string) : forall cur,
  all_in is_not_t a ->
  split_go "to" 0 (a ++ "to" ++ rest) cur
  = (cur ++ a) :: split_go "to" 0 rest "".
Proof.
  induction a as [|c a IH]; intros cur Ha.
  - cbn [append split_go].
    replace (prefix "to" (String "t" (String "o" rest))) with true
      by (destruct rest; reflexivity).
    cbn [String.length Nat.sub split_go]. now rewrite append_nil_r.
  - destruct Ha as [Hc Ha]. cbn [append split_go].
    rewrite (prefix_to_false _ _ Hc).
    change (a ++ String "t" (String "o" rest)) with (a ++ "to" ++ rest).
    rewrite (IH _ Ha), append_assoc. reflexivity.
Qed.

(** X13: with more than one ["to"] in the token, [_parse_angle] returns
    the number before the first one and ignores the rest, whatever it
    is. *)
Theorem parse_angle_first_of_many (s rest : string) (a : Q) :
  py_float s = Ok a -> contains "to" rest = true ->
  _parse_angle (s ++ "to" ++ rest) = Ok (Single a).
Proof.
  intros H Hrest. unfold _parse_angle, split.
  rewrite contains_to_true, (split_first s rest "" (float_not_t _ _ H)).
  destruct (split_go_two rest "" Hrest) as [p [q [l ->]]].
  cbn [append]. rewrite H. reflexivity.
Qed.

End HelperFacts.

Section HelperExamples.

Import PyStr CharClass Re FilenameParser ParserSpec ParserMore.
Local Open Scope string_scope.

(** The spellings of 5 keV and 5 eV. *)
Lemma parse_energy_units_witness :
  (forall u, In u ["keV"; "kEV"; "KEV"; "KeV"] ->
     _parse_energy ("5" ++ u) = Ok ((5 * 1000)%Q, "eV"))
  /\ (forall u, In u ["eV"; "EV"; ""] -> _parse_energy ("5" ++ u) = Ok (5, "eV"))
  /\ (forall u, In u ["kev"; "Kev"; "ev"; "Ev"] ->
        _parse_energy ("5" ++ u) = Raise ValueError).
Proof. apply (parse_energy_units "5" 5). reflexivity. Defined.

Lemma parse_angle_never_falls_back_witness :
  _parse_angle "84to" = Raise NameError
  /\ _parse_angle "to84" = Raise NameError.
Proof. apply (parse_angle_never_falls_back "84" 84). reflexivity. Defined.

Lemma parse_angle_first_of_many_witness :
  _parse_angle "84to-118to7" = Ok (Single 84).
Proof.
  apply (parse_angle_first_of_many "84" "-118to7" 84); reflexivity.
Defined.

End HelperExamples.

(** ** The records [parse_filename] builds *)

Section RecordFacts.

Import PyStr CharClass Re FilenameParser ParserSpec ParserMore.
Local Open Scope string_scope.

Lemma digit_value_nonneg c : is_digit c = true -> (0 <= digit_value c <= 9)%Z.
Proof.
  destruct c as [[] [] [] [] [] [] [] []]; vm_compute;
    intuition congruence.
Qed.

Lemma digits_value_nonneg (s : string) : forall acc n,
  digits_value s acc = Some n -> (0 <= acc)%Z -> (0 <= n)%Z.
Proof.
  induction s as [|c s IH]; intros acc n H Hacc; cbn [digits_value] in H.
  - injection H as <-. assumption.
  - destruct (is_digit c) eqn:Hc; [|discriminate].
    apply (IH _ _ H). pose proof (digit_value_nonneg c Hc). lia.
Qed.

Lemma inject_Z_nonneg (n : Z) : (0 <= n)%Z -> (0 <= inject_Z n)%Q.
Proof. intro H. unfold Qle. simpl. lia. Qed.

Lemma unsigned_value_nonneg (s : string) (q : Q) :
  unsigned_value s = Some q -> (0 <= q)%Q.
Proof.
  unfold unsigned_value. destruct (cut_at_dot s) as [ip fp].
  destruct ip as [|c ip]; [discriminate|].
  destruct fp as [fp|].
  - destruct fp as [|d fp]; [discriminate|].
    destruct (digits_value (String c ip) 0) as [n|] eqn:Hn; [|discriminate].
    destruct (digits_value (String d fp) 0) as [m|] eqn:Hm; [|discriminate].
    intro H. injection H as <-.
    apply digits_value_nonneg in Hn; [|lia].
    apply digits_value_nonneg in Hm; [|lia].
    setoid_replace 0%Q with (0 + 0)%Q by reflexivity.
    apply Qplus_le_compat; [now apply inject_Z_nonneg|].
    apply Qmult_le_0_compat; [now apply inject_Z_nonneg|].
    apply Qinv_le_0_compat. apply inject_Z_nonneg.
    exact (Z.pow_nonneg 10 (Z.of_nat (String.length (String d fp)))
             ltac:(lia)).
  - destruct (digits_value (String c ip) 0) as [n|] eqn:Hn; [|discriminate].
    intro H. injection H as <-.
    apply digits_value_nonneg in Hn; [|lia]. now apply inject_Z_nonneg.
Qed.

Lemma number_nonneg (w : string) :
  lang number w -> exists q, py_float w = Ok q /\ (0 <= q)%Q.
Proof.
  intro H. destruct (number_value _ H) as [c [w' [q [-> [Hc Hq]]]]].
  exists q. split; [|now apply unsigned_value_nonneg in Hq].
  unfold py_float, unsigned_float.
  now rewrite (digit_not_minus _ Hc), Hq.
Qed.

Lemma kilo_nonneg (q : Q) : (0 <= q)%Q -> (0 <= q * 1000)%Q.
Proof. intro H. apply Qmult_le_0_compat; [assumption|discriminate]. Qed.

(** [\d+(?:\.\d+)?(?:k)?eV] *)
Lemma energy_token_nonneg (w : string) :
  lang (Seq number (Seq (Opt (Lit "k")) (Lit "eV"))) w ->
  exists q, _parse_energy w = Ok (q, "eV") /\ (0 <= q)%Q.
Proof.
  intros [num [u [-> [Hnum [k [e [-> [Hk ->]]]]]]]].
  destruct (number_nonneg _ Hnum) as [q [Hq Hpos]].
  destruct Hk as [-> | ->].
  - exists q. split; [apply parse_energy_plain; auto|assumption].
  - exists (q * 1000)%Q.
    split; [apply parse_energy_kilo; auto|now apply kilo_nonneg].
Qed.

(** [\d+(?:\.\d+)?[kK]?[eE]V] *)
Lemma energy_any_case_nonneg (w : string) :
  lang energy_any_case w ->
  exists q, _parse_energy w = Ok (q, "eV") /\ (0 <= q)%Q.
Proof.
  intros [num [u [-> [Hnum [k [ev [-> [Hk [e [v [-> [[c [-> Hc]] ->]]]]]]]]]]]].
  destruct (number_nonneg _ Hnum) as [q [Hq Hpos]].
  apply eE_cases in Hc.
  destruct Hk as [-> | [c' [-> Hc']]].
  - exists q. split; [|assumption]. apply parse_energy_plain; [assumption|].
    destruct Hc as [-> | ->]; auto.
  - exists (q * 1000)%Q. split; [|now apply kilo_nonneg].
    apply parse_energy_kilo; [assumption|].
    apply kK_cases in Hc'.
    destruct Hc as [-> | ->]; destruct Hc' as [-> | ->]; simpl; auto.
Qed.

(** No pattern of the dictionary captures a negative energy. *)
Lemma patterns_energy_not_negative (pattern_name : string) (pattern : regex) :
  In (pattern_name, pattern) patterns ->
  groups_good energy_not_negative pattern.
Proof.
  intro H. unfold patterns in H. cbn [In] in H.
  destruct H as [E|[E|[E|[E|[E|[E|[E|[]]]]]]]]; injection E as <- <-;
    cbn [groups_good detailed simple_energy voltage_energy beam_prep ramp_up
         dark rotating beam_to_end timestamp_opt number energy_any_case];
    repeat match goal with |- _ /\ _ => split end; try exact I;
    intros w Hw Hn; try discriminate Hn;
    first [ apply energy_token_nonneg; exact Hw
          | apply energy_any_case_nonneg; exact Hw ].
Qed.

Lemma groups_good_mono (P Q : string -> string -> Prop) (r : regex) :
  (forall n w, P n w -> Q n w) -> groups_good P r -> groups_good Q r.
Proof.
  intro HPQ. induction r; simpl; auto.
  - intros [H1 H2]. split; auto.
  - intros [H1 H2]. split; auto.
Qed.

(** A match only sets groups the pattern names. *)
Lemma groups_good_names (r : regex) :
  groups_good (fun n _ => In n (group_names r)) r.
Proof.
  induction r; simpl; auto.
  - split.
    + apply (groups_good_mono (fun n _ => In n (group_names r1))); [|assumption].
      intros n w H. apply in_or_app. now left.
    + apply (groups_good_mono (fun n _ => In n (group_names r2))); [|assumption].
      intros n w H. apply in_or_app. now right.
  - split; [intros w _; now left|].
    apply (groups_good_mono (fun n _ => In n (group_names r))); [|assumption].
    intros n w H. now right.
Qed.

Lemma group_unnamed (g : groups) (names : list string) (n : string) :
  captures_good (fun n _ => In n names) g -> ~ In n names -> group g n = None.
Proof.
  intros Hg Hn. destruct (group g n) as [tok|] eqn:E; [|reflexivity].
  apply group_In in E. elim Hn. exact (Hg _ _ E).
Qed.

Lemma group_defined (g : groups) (n : string) :
  captures_good converts g -> lookup g n <> None ->
  n = "beam_energy" \/ n = "esa_voltage" ->
  exists tok, group g n = Some tok.
Proof.
  intros Hg Hl Hn. unfold group.
  destruct (lookup g n) as [tok|] eqn:E; [|congruence].
  apply lookup_In in E. destruct (Hg _ _ E) as [He [Hf _]].
  destruct tok as [|c tok]; [exfalso|now exists (String c tok)].
  destruct Hn as [-> | ->].
  - destruct (He eq_refl) as [q Hq]. discriminate Hq.
  - destruct (Hf (or_introl eq_refl)) as [q Hq]. discriminate Hq.
Qed.

Lemma float_group_present (g : groups) (n : string) (v : option Q) :
  float_group g n = Ok v -> present v = present (group g n).
Proof.
  unfold float_group. destruct (group g n) as [tok|].
  - destruct (py_float tok); simpl; [|discriminate].
    intro H. now injection H as <-.
  - intro H. now injection H as <-.
Qed.

Lemma angle_group_present (g : groups) (a : option angle) :
  angle_group g = Ok a -> present a = present (group g "inner_angle").
Proof.
  unfold angle_group. destruct (group g "inner_angle") as [tok|].
  - destruct (_parse_angle tok); simpl; [|discriminate].
    intro H. now injection H as <-.
  - intro H. now injection H as <-.
Qed.

Lemma two_digits_range (s s' : string) (n : Z) :
  two_digits s = Some (n, s') -> (0 <= n <= 99)%Z.
Proof.
  unfold two_digits. destruct s as [|a [|b s0]]; try discriminate.
  destruct (is_digit a) eqn:Ha; [|discriminate].
  destruct (is_digit b) eqn:Hb; [|discriminate].
  cbn [andb]. intro H.
  assert (E : n = (10 * digit_value a + digit_value b)%Z) by congruence.
  pose proof (digit_value_nonneg a Ha). pose proof (digit_value_nonneg b Hb).
  lia.
Qed.

Lemma parse_timestamp_valid (tok : string) (d : datetime) :
  _parse_timestamp tok = Some d -> valid_datetime d.
Proof.
  unfold _parse_timestamp.
  destruct (two_digits tok) as [[yy s1]|] eqn:E1; [|discriminate].
  destruct (two_digits s1) as [[mo s2]|] eqn:E2; [|discriminate].
  destruct (two_digits s2) as [[dd s3]|] eqn:E3; [|discriminate].
  destruct s3 as [|c s3]; [discriminate|].
  destruct (Ascii.eqb_spec c "-") as [->|Hc].
  2:{ destruct c as [[] [] [] [] [] [] [] []]; try discriminate; congruence. }
  destruct (two_digits s3) as [[hh s4]|] eqn:E4; [|discriminate].
  destruct (two_digits s4) as [[mi s5]|] eqn:E5; [|discriminate].
  destruct (two_digits s5) as [[ss s6]|] eqn:E6; [|discriminate].
  destruct s6; [|discriminate].
  cbv zeta.
  destruct ((1 <=? mo)%Z && (mo <=? 12)%Z && (1 <=? dd)%Z
            && (dd <=? days_in_month (full_year yy) mo)%Z
            && (hh <=? 23)%Z && (mi <=? 59)%Z && (ss <=? 59)%Z) eqn:C;
    [|discriminate].
  intro H. injection H as <-.
  repeat (apply andb_true_iff in C; destruct C as [C ?]).
  apply two_digits_range in E1, E4, E5, E6.
  unfold valid_datetime. cbn [year month day hour minute second].
  assert (Hy : (1969 <= full_year yy <= 2068)%Z).
  { unfold full_year. destruct (69 <=? yy)%Z eqn:Y.
    - apply Z.leb_le in Y. lia.
    - apply Z.leb_gt in Y. lia. }
  repeat match goal with
         | H : (_ <=? _)%Z = true |- _ => apply Z.leb_le in H
         end.
  lia.
Qed.

(** What every branch of [parsed_from] keeps from the call. *)
Lemma parsed_identity (fname : string) (p' : ExperimentalParameters) :
  parsed_from fname p' ->
  filename p' = fname /\ base_name p' = basename fname
  /\ file_type p' = _get_file_type (basename fname).
Proof.
  intros [[_ ->]|[pn [r [g [e [esa [mcp [ang [hor H]]]]]]]]].
  - repeat split.
  - destruct H as [_ [_ [_ [_ [_ [_ [_ [_ [_ [_ ->]]]]]]]]]]. repeat split.
Qed.

(** The energy of a parsed record: absent with its unit, or a number
    that is not negative with the unit ["eV"]. *)
Lemma parse_filename_energy (fname : string) (p : ExperimentalParameters) :
  parse_filename fname = Ok p ->
  (beam_energy_value p = None /\ beam_energy_unit p = None)
  \/ (exists q, beam_energy_value p = Some q /\ (0 <= q)%Q
                /\ beam_energy_unit p = Some "eV").
Proof.
  intros Hp. destruct (parse_filename_cases fname) as [p' [Hp' Hp2]].
  rewrite Hp in Hp2. injection Hp2 as ->.
  destruct Hp' as [[_ ->]|[pn [r [g [e [esa [mcp [ang [hor H]]]]]]]]];
    [left; split; reflexivity|].
  destruct H as [Hin [Hs [_ [He [_ [_ [_ [_ [_ [_ ->]]]]]]]]]].
  destruct (search_sound energy_not_negative r
              (patterns_energy_not_negative _ _ Hin) _ _ Hs) as [Hg _].
  cbn [_post_process_parameters set_test_type beam_energy_value
       beam_energy_unit assign_parameters new_parameters] in *.
  unfold energy_group in He.
  destruct (group g "beam_energy") as [tok|] eqn:G.
  - apply group_In in G. destruct (Hg _ _ G eq_refl) as [q' [Hq' Hpos]].
    rewrite Hq' in He. simpl in He. injection He as <-.
    right. exists q'. repeat split. assumption.
  - injection He as <-. left. split; reflexivity.
Qed.

(** X14: a beam energy read from a file name is never negative, and its
    unit is ["eV"]. *)
Theorem parsed_energy_not_negative (fname : string)
  (p : ExperimentalParameters) (q : Q) :
  parse_filename fname = Ok p -> beam_energy_value p = Some q ->
  (0 <= q)%Q /\ beam_energy_unit p = Some "eV".
Proof.
  intros Hp Hq.
  destruct (parse_filename_energy fname p Hp) as [[Hnone _]|[q' [Hv [Hpos Hu]]]].
  - rewrite Hnone in Hq. discriminate Hq.
  - rewrite Hv in Hq. injection Hq as <-. split; assumption.
Qed.

(** X15: in every record [parse_filename] returns, the name fields are
    those of the call, each number is present exactly when its token is,
    the range flag is set exactly when a range is stored, and a datetime
    comes from the stored timestamp token and is a calendar date of the
    years 1969 to 2068. *)
Theorem parsed_record_consistent (fname : string) :
  exists p,
    parse_filename fname = Ok p
    /\ filename p = fname /\ base_name p = basename fname
    /\ file_type p = _get_file_type (basename fname)
    /\ present (beam_energy_value p) = present (beam_energy p)
    /\ present (beam_energy_unit p) = present (beam_energy p)
    /\ present (esa_voltage_value p) = present (esa_voltage p)
    /\ present (mcp_voltage_value p) = present (mcp_voltage p)
    /\ present (horizontal_value_num p) = present (horizontal_value p)
    /\ present (inner_angle_value p) = present (inner_angle p)
    /\ is_angle_range p = present (inner_angle_range p)
    /\ (forall d, datetime_obj p = Some d ->
          valid_datetime d
          /\ exists tok, timestamp p = Some tok
                         /\ _parse_timestamp tok = Some d).
Proof.
  destruct (parse_filename_cases fname) as [p' [Hp' Hp]].
  exists (_post_process_parameters p'). split; [assumption|].
  destruct (parsed_identity _ _ Hp') as [I1 [I2 I3]].
  split; [exact I1|]. split; [exact I2|]. split; [exact I3|].
  destruct Hp' as [[_ ->]|[pn [r [g [e [esa [mcp [ang [hor H]]]]]]]]].
  - repeat match goal with |- _ /\ _ => split end; try reflexivity.
    intros d Hd. discriminate Hd.
  - destruct H as [_ [_ [_ [He [Hpe [Hesa [_ [Hmcp [Hang [Hhor ->]]]]]]]]]].
    apply float_group_present in Hesa, Hmcp, Hhor.
    apply angle_group_present in Hang.
    cbn [_post_process_parameters set_test_type assign_parameters
         new_parameters beam_energy beam_energy_value beam_energy_unit
         esa_voltage esa_voltage_value mcp_voltage mcp_voltage_value
         horizontal_value horizontal_value_num inner_angle inner_angle_value
         inner_angle_range is_angle_range timestamp datetime_obj].
    repeat match goal with |- _ /\ _ => split end.
    + destruct e, (group g "beam_energy"); simpl in *; congruence.
    + destruct e, (group g "beam_energy"); simpl in *; congruence.
    + destruct esa, (group g "esa_voltage"); simpl in *; congruence.
    + destruct mcp, (group g "mcp_voltage"); simpl in *; congruence.
    + destruct hor, (group g "hor_value"); simpl in *; congruence.
    + destruct ang as [[a|lo hi]|], (group g "inner_angle");
        simpl in *; congruence.
    + destruct ang as [[a|lo hi]|]; reflexivity.
    + intros d Hd. destruct (group g "timestamp") as [tok|]; [|discriminate].
      split; [now apply parse_timestamp_valid in Hd|now exists tok].
Qed.

(** X16: the test type of a record is decided by the pattern that
    matched: ['detailed'] and ['voltage_energy'] give a voltage sweep,
    ['simple_energy'] and ['beam_prep'] an energy test, the three
    flagged patterns their own type, no match ["unknown"]; and at most
    one of the three flags is set. *)
Theorem test_type_by_pattern (fname : string) :
  exists p,
    parse_filename fname = Ok p
    /\ test_type p
       = Some (match first_match patterns (name_for_parsing fname) with
               | Some (pattern_name, _) => test_type_of_pattern pattern_name
               | None => "unknown"
               end)
    /\ is_dark p && is_ramp p = false
    /\ is_dark p && is_rotating p = false
    /\ is_ramp p && is_rotating p = false.
Proof.
  destruct (parse_filename_cases fname) as [p' [Hp' Hp]].
  exists (_post_process_parameters p'). split; [assumption|].
  destruct Hp' as [[Hm ->]|[pn [r [g [e [esa [mcp [ang [hor H]]]]]]]]].
  - rewrite Hm. repeat split.
  - destruct H as [Hin [Hs [Hm [_ [_ [_ [_ [_ [_ [_ ->]]]]]]]]]].
    rewrite Hm.
    destruct (search_sound converts r (patterns_convert _ _ Hin) _ _ Hs)
      as [Hg Hdef].
    destruct (search_sound (fun n _ => In n (group_names r)) r
                (groups_good_names r) _ _ Hs) as [Hnames _].
    unfold _post_process_parameters, classify.
    cbn [set_test_type test_type is_dark is_ramp is_rotating beam_energy
         esa_voltage assign_parameters new_parameters or_else].
    unfold patterns in Hin. cbn [In] in Hin.
    destruct Hin as [E|[E|[E|[E|[E|[E|[E|[]]]]]]]]; injection E as <- <-;
      cbn [String.eqb Ascii.eqb Bool.eqb];
      try (repeat split; reflexivity).
    + (* detailed *)
      destruct (group_defined g "beam_energy" Hg (Hdef "beam_energy" eq_refl)
                  (or_introl eq_refl)) as [t1 E1].
      destruct (group_defined g "esa_voltage" Hg (Hdef "esa_voltage" eq_refl)
                  (or_intror eq_refl)) as [t2 E2].
      rewrite E1, E2. cbn [or_else].
      rewrite (group_truthy _ _ _ E1), (group_truthy _ _ _ E2).
      repeat split; reflexivity.
    + (* simple_energy *)
      destruct (group_defined g "beam_energy" Hg (Hdef "beam_energy" eq_refl)
                  (or_introl eq_refl)) as [t1 E1].
      rewrite E1. cbn [or_else]. rewrite (group_truthy _ _ _ E1).
      rewrite (group_unnamed g _ "esa_voltage" Hnames)
        by (cbn; intuition discriminate).
      repeat split; reflexivity.
    + (* voltage_energy *)
      destruct (group_defined g "beam_energy" Hg (Hdef "beam_energy" eq_refl)
                  (or_introl eq_refl)) as [t1 E1].
      destruct (group_defined g "esa_voltage" Hg (Hdef "esa_voltage" eq_refl)
                  (or_intror eq_refl)) as [t2 E2].
      rewrite E1, E2. cbn [or_else].
      rewrite (group_truthy _ _ _ E1), (group_truthy _ _ _ E2).
      repeat split; reflexivity.
    + (* beam_prep *)
      destruct (group_defined g "beam_energy" Hg (Hdef "beam_energy" eq_refl)
                  (or_introl eq_refl)) as [t1 E1].
      rewrite E1. cbn [or_else]. rewrite (group_truthy _ _ _ E1).
      rewrite (group_unnamed g _ "esa_voltage" Hnames)
        by (cbn; intuition discriminate).
      repeat split; reflexivity.
Qed.

Lemma parse_filename_keeps_name (fname : string) :
  exists p, parse_filename fname = Ok p /\ filename p = fname.
Proof.
  destruct (parse_filename_cases fname) as [p' [Hp' Hp]].
  exists (_post_process_parameters p'). split; [assumption|].
  now destruct (parsed_identity _ _ Hp') as [I1 _].
Qed.

(** X17: [parse_filenames] returns on every list, one record for each
    name and in the order of the names: the record [parse_filename]
    returns for it, which carries the name. *)
Theorem parse_filenames_each (filenames : list string) :
  exists ps,
    parse_filenames filenames = Ok ps
    /\ Forall2 (fun fname p => parse_filename fname = Ok p /\ filename p = fname)
              filenames ps.
Proof.
  induction filenames as [|fname rest IH].
  - exists []. split; [reflexivity|constructor].
  - destruct IH as [ps [Hps Hall]].
    destruct (parse_filename_keeps_name fname) as [p [Hp Hn]].
    exists (p :: ps). cbn [parse_filenames]. rewrite Hp, Hps.
    split; [reflexivity|]. constructor; [split; assumption|assumption].
Qed.

End RecordFacts.

Section RecordExamples.

Import PyStr CharClass Re FilenameParser ParserSpec ParserMore.
Local Open Scope string_scope.

(** The energy of the sample energy file. *)
Lemma parsed_energy_not_negative_witness :
  exists p,
    parse_filename energy_file = Ok p
    /\ beam_energy_value p = Some 1000
    /\ (0 <= 1000)%Q /\ beam_energy_unit p = Some "eV".
Proof.
  destruct (parse_filename energy_file) as [p|e] eqn:E.
  - assert (Hv : beam_energy_value p = Some 1000)
      by (vm_compute in E; injection E as <-; reflexivity).
    exists p. split; [reflexivity|]. split; [exact Hv|].
    exact (parsed_energy_not_negative energy_file p 1000 E Hv).
  - vm_compute in E. discriminate E.
Defined.

End RecordExamples.

(** ** The regions the detector produces *)

Section RegionFacts.

Import PyStr DataModel EsaAnalysis EsaSpec EsaMore.
Local Open Scope Q_scope.

Lemma fold_Qplus_shift (l : list Q) : forall a,
  fold_left Qplus l a == a + fold_left Qplus l 0.
Proof.
  induction l as [|x l IH]; intro a; simpl; [ring|].
  rewrite (IH (a + x)), (IH (0 + x)). ring.
Qed.

Lemma np_sum_cons (x : Q) (l : list Q) : np_sum (x :: l) == x + np_sum l.
Proof. unfold np_sum. simpl. rewrite fold_Qplus_shift. ring. Qed.

Lemma count_cons {A : Type} (x : A) (l : list A) : count (x :: l) == 1 + count l.
Proof.
  unfold count. cbn [List.length]. rewrite Nat2Z.inj_succ, <- Z.add_1_l.
  now rewrite inject_Z_plus.
Qed.

(** A sum of numbers in [(a, b]] is within the count times the bounds. *)
Lemma np_sum_between (a b : Q) (l : list Q) :
  Forall (fun v => a < v /\ v <= b) l ->
  a * count l <= np_sum l /\ np_sum l <= b * count l
  /\ (l <> [] -> a * count l < np_sum l).
Proof.
  induction 1 as [|v l [Hv1 Hv2] Hl [IH1 [IH2 _]]].
  - change (count (@nil Q)) with 0. change (np_sum []) with 0.
    split; [lra|]. split; [lra|congruence].
  - rewrite np_sum_cons, count_cons. split; [lra|]. split; [lra|].
    intros _. lra.
Qed.

Lemma fold_q_max_ge (l : list Q) : forall x,
  x <= fold_left q_max l x /\ Forall (fun v => v <= fold_left q_max l x) l.
Proof.
  induction l as [|y l IH]; intro x; simpl.
  - split; [lra|constructor].
  - destruct (IH (q_max x y)) as [H1 H2].
    assert (Hx : x <= q_max x y /\ y <= q_max x y).
    { unfold q_max. destruct (Qle_bool x y) eqn:E.
      - apply Qle_bool_iff in E. split; lra.
      - split; [lra|]. destruct (Qlt_le_dec y x) as [L|L]; [lra|].
        apply Qle_bool_iff in L. congruence. }
    split; [lra|]. constructor; [lra|assumption].
Qed.

Lemma np_max_ge (l : list Q) (m : Q) :
  np_max l = Ok m -> Forall (fun v => v <= m) l.
Proof.
  destruct l as [|x l]; [discriminate|]. simpl. intro H. injection H as <-.
  destruct (fold_q_max_ge l x) as [H1 H2]. constructor; assumption.
Qed.

(** The values of the signal set are within [(0.05, 1]]. *)
Lemma flagged_between (img : image) (m : Q) :
  0 < m -> np_max (flat img) = Ok m ->
  Forall (fun v => noise_threshold < v /\ v <= 1) (flagged img m).
Proof.
  intros Hm Hmax. unfold flagged. rewrite (np_max_scale _ _ _ Hm Hmax).
  assert (E : m / m == 1) by (field; lra).
  apply Forall_forall. intros v Hv. apply filter_In in Hv.
  destruct Hv as [Hin Hv]. apply Qlt_bool_iff in Hv. rewrite E in Hv.
  split; [lra|].
  apply in_map_iff in Hin. destruct Hin as [x [<- Hx]].
  pose proof (np_max_ge _ _ Hmax) as Hall.
  rewrite Forall_forall in Hall. specialize (Hall x Hx).
  apply Qle_shift_div_r; [assumption|lra].
Qed.

Lemma fold_Zmin_spec (l : list Z) : forall x,
  (fold_left Z.min l x <= x)%Z
  /\ Forall (fun v => (fold_left Z.min l x <= v)%Z) l
  /\ In (fold_left Z.min l x) (x :: l).
Proof.
  induction l as [|y l IH]; intro x; simpl.
  - split; [lia|]. split; [constructor|now left].
  - destruct (IH (Z.min x y)) as [H1 [H2 H3]].
    split; [lia|]. split; [constructor; [lia|assumption]|].
    destruct H3 as [H3|H3]; [|now right; right].
    rewrite <- H3. destruct (Z.min_spec x y) as [[_ ->]|[_ ->]]; auto.
Qed.

Lemma fold_Zmax_spec (l : list Z) : forall x,
  (x <= fold_left Z.max l x)%Z
  /\ Forall (fun v => (v <= fold_left Z.max l x)%Z) l
  /\ In (fold_left Z.max l x) (x :: l).
Proof.
  induction l as [|y l IH]; intro x; simpl.
  - split; [lia|]. split; [constructor|now left].
  - destruct (IH (Z.max x y)) as [H1 [H2 H3]].
    split; [lia|]. split; [constructor; [lia|assumption]|].
    destruct H3 as [H3|H3]; [|now right; right].
    rewrite <- H3. destruct (Z.max_spec x y) as [[_ ->]|[_ ->]]; auto.
Qed.

Lemma np_min_int_spec (l : list Z) (x : Z) :
  np_min_int l = Ok x -> In x l /\ Forall (fun v => (x <= v)%Z) l.
Proof.
  destruct l as [|y l]; [discriminate|]. simpl. intro H. injection H as <-.
  destruct (fold_Zmin_spec l y) as [H1 [H2 H3]].
  split; [assumption|]. constructor; assumption.
Qed.

Lemma np_max_int_spec (l : list Z) (x : Z) :
  np_max_int l = Ok x -> In x l /\ Forall (fun v => (v <= x)%Z) l.
Proof.
  destruct l as [|y l]; [discriminate|]. simpl. intro H. injection H as <-.
  destruct (fold_Zmax_spec l y) as [H1 [H2 H3]].
  split; [assumption|]. constructor; assumption.
Qed.

(** Where the pixels of an image are. *)
Lemma enum_row_position (y : Z) (row : list Q) : forall x0 y' x v,
  In (y', x, v) (enum_row y x0 row) ->
  y' = y /\ (x0 <= x < x0 + Z.of_nat (List.length row))%Z.
Proof.
  induction row as [|w row IH]; intros x0 y' x v H; simpl in H; [contradiction|].
  destruct H as [H|H].
  - injection H as <- <- _. split; [reflexivity|]. cbn [List.length]. lia.
  - destruct (IH _ _ _ _ H) as [-> Hx]. split; [reflexivity|].
    cbn [List.length]. lia.
Qed.

Lemma enum_rows_position (img : image) : forall y0 y x v,
  In (y, x, v) (enum_rows y0 img) ->
  (y0 <= y < y0 + Z.of_nat (List.length img))%Z
  /\ exists row, In row img /\ (0 <= x < Z.of_nat (List.length row))%Z.
Proof.
  induction img as [|row img IH]; intros y0 y x v H; simpl in H; [contradiction|].
  apply in_app_or in H. destruct H as [H|H].
  - destruct (enum_row_position _ _ _ _ _ _ H) as [-> Hx].
    split; [cbn [List.length]; lia|]. exists row. split; [now left|lia].
  - destruct (IH _ _ _ _ H) as [Hy [r [Hr Hx]]].
    split; [cbn [List.length]; lia|]. exists r. split; [now right|assumption].
Qed.

Lemma signal_position (img : image) (m : Q) (y x : Z) (v : Q) :
  In (y, x, v) (signal_pixels img m) ->
  (0 <= y < Z.of_nat (List.length img))%Z
  /\ exists row, In row img /\ (0 <= x < Z.of_nat (List.length row))%Z.
Proof.
  unfold signal_pixels, pixels. intro H. apply filter_In in H.
  destruct H as [H _]. apply enum_rows_position in H.
  destruct H as [Hy [row [Hr Hx]]]. rewrite length_map in Hy.
  split; [lia|]. apply in_map_iff in Hr. destruct Hr as [row0 [<- Hr0]].
  exists row0. split; [assumption|]. now rewrite length_map in Hx.
Qed.

Variable sqrtQ : Q -> Q.

(** A produced region comes from a loaded image with a positive maximum
    and at least ten pixels in the signal set. *)
Lemma analyze_some (load_ok : bool) (data_file : DataFile) (r : ImpactRegion) :
  _analyze_single_impact_region sqrtQ load_ok data_file = Ok (Some r) ->
  exists fd img m,
    load_ok = true /\ fits_data data_file = Some fd /\ data fd = Some img
    /\ np_max (flat img) = Ok m /\ 0 < m
    /\ (min_region_size <= List.length (flagged img m))%nat.
Proof.
  intro H. destruct load_ok; [|discriminate].
  destruct (fits_data data_file) as [fd|] eqn:Hfits;
    [|unfold _analyze_single_impact_region in H; rewrite Hfits in H; discriminate].
  destruct (data fd) as [img|] eqn:Hdata;
    [|unfold _analyze_single_impact_region in H; rewrite Hfits, Hdata in H;
      discriminate].
  destruct (np_max (flat img)) as [m|e] eqn:Hmax.
  - destruct (analyze_cases sqrtQ _ _ _ Hfits Hdata _ Hmax)
      as [[H0 _]|[Hm [Hbig _]]]; [congruence|].
    exists fd, img, m. auto 10.
  - unfold _analyze_single_impact_region in H.
    rewrite Hfits, Hdata in H. cbn [negb] in H. rewrite Hmax in H.
    discriminate.
Qed.

(** The fields of a produced region, in terms of the signal set. *)
Lemma analyze_region_full (data_file : DataFile) (fd : FitsData) (img : image)
  (m : Q) :
  fits_data data_file = Some fd -> data fd = Some img ->
  np_max (flat img) = Ok m -> 0 < m ->
  (min_region_size <= List.length (flagged img m))%nat ->
  exists r,
    _analyze_single_impact_region sqrtQ true data_file = Ok (Some r)
    /\ weights_of (signal_pixels img m) = flagged img m
    /\ region_area r = List.length (signal_pixels img m)
    /\ total_intensity r = np_sum (flagged img m)
    /\ np_min_int (xs_of (signal_pixels img m)) = Ok (min_x r)
    /\ np_max_int (xs_of (signal_pixels img m)) = Ok (max_x r)
    /\ np_min_int (ys_of (signal_pixels img m)) = Ok (min_y r)
    /\ np_max_int (ys_of (signal_pixels img m)) = Ok (max_y r)
    /\ beam_energy r
       = or_zero (FilenameParser.beam_energy_value (parameters data_file))
    /\ esa_voltage r
       = or_zero (FilenameParser.esa_voltage_value (parameters data_file))
    /\ rotation_angle r = FilenameParser.inner_angle_value (parameters data_file)
    /\ filename r = df_filename data_file.
Proof.
  intros Hfits Hdata Hmax Hm Hbig. unfold _analyze_single_impact_region.
  rewrite Hfits, Hdata. cbn [negb]. rewrite Hmax. cbn [bind].
  apply Qlt_bool_iff in Hm as Hb. rewrite Hb.
  rewrite flat_map_map, (np_max_scale _ _ _ Hm Hmax). cbn [bind].
  rewrite (noise_values _ _ Hm Hmax).
  pose proof (signal_values _ _ Hm Hmax) as Hsig.
  pose proof (flagged_positive _ _ Hm Hmax) as Hpos.
  fold (signal_pixels img m) in *.
  fold (xs_of (signal_pixels img m)). fold (ys_of (signal_pixels img m)).
  set (signal := signal_pixels img m) in *.
  assert (Hlen : List.length signal = List.length (flagged img m))
    by (now rewrite <- Hsig, length_map).
  assert (Hxl : List.length (xs_of signal) = List.length signal)
    by (unfold xs_of; now rewrite length_map).
  rewrite Hxl, Hsig.
  assert (Hne : flagged img m <> []).
  { intro E. rewrite E in Hbig. unfold min_region_size in Hbig. simpl in Hbig. lia. }
  assert (Hsne : signal <> []).
  { intro E. rewrite E in Hlen. destruct (flagged img m); [congruence|discriminate]. }
  rewrite Hlen.
  destruct (List.length (flagged img m) <? min_region_size)%nat eqn:E1.
  { apply Nat.ltb_lt in E1. lia. }
  destruct (List.length (flagged img m) =? 0)%nat eqn:E2.
  { apply Nat.eqb_eq in E2. unfold min_region_size in Hbig. lia. }
  unfold np_average.
  assert (Hsum : Qeq_bool (np_sum (flagged img m)) 0 = false).
  { apply Qeq_bool_false_iff. pose proof (np_sum_pos _ Hne Hpos). lra. }
  rewrite Hsum. cbn [bind].
  destruct (fold_min_ok (xs_of signal)) as [mnx Emnx].
  { unfold xs_of. destruct signal; [congruence|discriminate]. }
  destruct (fold_max_ok (xs_of signal)) as [mxx Emxx].
  { unfold xs_of. destruct signal; [congruence|discriminate]. }
  destruct (fold_min_ok (ys_of signal)) as [mny Emny].
  { unfold ys_of. destruct signal; [congruence|discriminate]. }
  destruct (fold_max_ok (ys_of signal)) as [mxy Emxy].
  { unfold ys_of. destruct signal; [congruence|discriminate]. }
  rewrite Emnx, Emxx, Emny, Emxy.
  cbn [bind].
  assert (Hflat : flat img <> []) by (destruct (flat img); [discriminate|congruence]).
  unfold py_div.
  assert (Hc : Qeq_bool (count (flat img)) 0 = false).
  { apply Qeq_bool_false_iff. pose proof (count_pos _ Hflat). lra. }
  rewrite Hc.
  eexists. split; [reflexivity|].
  cbn [region_area total_intensity min_x max_x min_y max_y beam_energy
       esa_voltage rotation_angle filename].
  split; [exact Hsig|]. repeat split.
Qed.

End RegionFacts.

Section RegionClaims.

Import PyStr DataModel EsaAnalysis EsaSpec EsaMore.
Local Open Scope Q_scope.

Variable sqrtQ : Q -> Q.


(** X19: a produced region has at least ten pixels and no more than the
    image; its total intensity is above 0.05 times its area and at most
    its area. *)
Theorem region_size_and_intensity (load_ok : bool) (data_file : DataFile)
  (fd : FitsData) (img : image) (r : ImpactRegion) :
  fits_data data_file = Some fd -> data fd = Some img ->
  _analyze_single_impact_region sqrtQ load_ok data_file = Ok (Some r) ->
  (min_region_size <= region_area r <= List.length (flat img))%nat
  /\ noise_threshold * inject_Z (Z.of_nat (region_area r)) < total_intensity r
  /\ total_intensity r <= inject_Z (Z.of_nat (region_area r)).
Proof.
  intros Hfits Hdata Hr.
  destruct (analyze_some sqrtQ _ _ _ Hr)
    as [fd' [img' [m [-> [Hfits' [Hdata' [Hmax [Hm Hbig]]]]]]]].
  assert (fd' = fd) by congruence. subst fd'.
  assert (img' = img) by congruence. subst img'.
  destruct (analyze_region_full sqrtQ _ _ _ _ Hfits Hdata Hmax Hm Hbig)
    as [r' [Hr' [Hw [Harea [Htot _]]]]].
  assert (r' = r) by congruence. subst r'.
  assert (Hlen : region_area r = List.length (flagged img m)).
  { rewrite Harea, <- Hw. unfold weights_of. now rewrite length_map. }
  rewrite Hlen, Htot. split.
  - split; [assumption|apply flagged_le].
  - destruct (np_sum_between noise_threshold 1 (flagged img m)
                (flagged_between _ _ Hm Hmax)) as [_ [H2 H3]].
    fold (count (flagged img m)). split.
    + apply H3. intro E. rewrite E in Hbig. unfold min_region_size in Hbig.
      simpl in Hbig. lia.
    + lra.
Qed.

(** X20: the bounding box of a produced region has its bounds in order
    and lies within the image. *)
Theorem region_box (load_ok : bool) (data_file : DataFile) (fd : FitsData)
  (img : image) (r : ImpactRegion) :
  fits_data data_file = Some fd -> data fd = Some img ->
  _analyze_single_impact_region sqrtQ load_ok data_file = Ok (Some r) ->
  (0 <= min_x r <= max_x r)%Z
  /\ (exists row, In row img /\ (max_x r < Z.of_nat (List.length row))%Z)
  /\ (0 <= min_y r <= max_y r)%Z
  /\ (max_y r < Z.of_nat (List.length img))%Z.
Proof.
  intros Hfits Hdata Hr.
  destruct (analyze_some sqrtQ _ _ _ Hr)
    as [fd' [img' [m [-> [Hfits' [Hdata' [Hmax [Hm Hbig]]]]]]]].
  assert (fd' = fd) by congruence. subst fd'.
  assert (img' = img) by congruence. subst img'.
  destruct (analyze_region_full sqrtQ _ _ _ _ Hfits Hdata Hmax Hm Hbig)
    as [r' [Hr' [_ [_ [_ [Hmnx [Hmxx [Hmny [Hmxy _]]]]]]]]].
  assert (r' = r) by congruence. subst r'.
  set (S := signal_pixels img m) in *.
  apply np_min_int_spec in Hmnx, Hmny. apply np_max_int_spec in Hmxx, Hmxy.
  destruct Hmnx as [Imnx Amnx]. destruct Hmxx as [Imxx _].
  destruct Hmny as [Imny Amny]. destruct Hmxy as [Imxy _].
  rewrite Forall_forall in Amnx, Amny.
  assert (Hwhere : forall px, In px S ->
            (0 <= fst (fst px) < Z.of_nat (List.length img))%Z
            /\ exists row, In row img
                 /\ (0 <= snd (fst px) < Z.of_nat (List.length row))%Z).
  { intros [[y x] v] Hpx. exact (signal_position _ _ _ _ _ Hpx). }
  unfold xs_of in Imnx, Imxx. unfold ys_of in Imny, Imxy.
  apply in_map_iff in Imnx, Imxx, Imny, Imxy.
  destruct Imnx as [p1 [E1 P1]]. destruct Imxx as [p2 [E2 P2]].
  destruct Imny as [p3 [E3 P3]]. destruct Imxy as [p4 [E4 P4]].
  destruct (Hwhere _ P1) as [_ [row1 [_ B1]]].
  destruct (Hwhere _ P2) as [_ [row2 [R2 B2]]].
  destruct (Hwhere _ P3) as [B3 _]. destruct (Hwhere _ P4) as [B4 _].
  assert (X12 : (min_x r <= max_x r)%Z).
  { apply Amnx. unfold xs_of. rewrite <- E2.
    now apply (in_map (fun px : pixel => snd (fst px))). }
  assert (Y12 : (min_y r <= max_y r)%Z).
  { apply Amny. unfold ys_of. rewrite <- E4.
    now apply (in_map (fun px : pixel => fst (fst px))). }
  split; [lia|]. split; [exists row2; split; [assumption|lia]|].
  split; lia.
Qed.

End RegionClaims.

Section RegionExamples.

Import PyStr DataModel EsaAnalysis EsaSpec EsaMore.
Local Open Scope Q_scope.


Lemma region_size_and_intensity_witness :
  exists r,
    _analyze_single_impact_region sqrt_floor true
      (loaded_file "spot.fits" spot_image) = Ok (Some r)
    /\ (min_region_size <= region_area r <= List.length (flat spot_image))%nat
    /\ noise_threshold * inject_Z (Z.of_nat (region_area r)) < total_intensity r
    /\ total_intensity r <= inject_Z (Z.of_nat (region_area r)).
Proof.
  destruct (_analyze_single_impact_region sqrt_floor true
              (loaded_file "spot.fits" spot_image)) as [[r|]|e] eqn:E.
  - exists r. split; [reflexivity|].
    exact (region_size_and_intensity sqrt_floor true
             (loaded_file "spot.fits" spot_image)
             {| data := Some spot_image; fits_has_errors := false |}
             spot_image r eq_refl eq_refl E).
  - vm_compute in E. discriminate E.
  - vm_compute in E. discriminate E.
Defined.

Lemma region_box_witness :
  exists r,
    _analyze_single_impact_region sqrt_floor true
      (loaded_file "spot.fits" spot_image) = Ok (Some r)
    /\ (0 <= min_x r <= max_x r)%Z
    /\ (exists row, In row spot_image
                    /\ (max_x r < Z.of_nat (List.length row))%Z)
    /\ (0 <= min_y r <= max_y r)%Z
    /\ (max_y r < Z.of_nat (List.length spot_image))%Z.
Proof.
  destruct (_analyze_single_impact_region sqrt_floor true
              (loaded_file "spot.fits" spot_image)) as [[r|]|e] eqn:E.
  - exists r. split; [reflexivity|].
    exact (region_box sqrt_floor true (loaded_file "spot.fits" spot_image)
             {| data := Some spot_image; fits_has_errors := false |}
             spot_image r eq_refl eq_refl E).
  - vm_compute in E. discriminate E.
  - vm_compute in E. discriminate E.
Defined.

End RegionExamples.

(** ** The statistics of the estimator, and the three stages together *)

Section StatisticsFacts.

Import PyStr DataModel EsaAnalysis EsaSpec EsaMore.
Local Open Scope Q_scope.

Lemma q_max_cases (a b : Q) :
  (q_max a b = a \/ q_max a b = b) /\ a <= q_max a b /\ b <= q_max a b.
Proof.
  unfold q_max. destruct (Qle_bool a b) eqn:E.
  - apply Qle_bool_iff in E. split; [now right|]. split; lra.
  - split; [now left|]. split; [lra|].
    destruct (Qlt_le_dec b a) as [L|L]; [lra|].
    apply Qle_bool_iff in L. congruence.
Qed.

Lemma q_min_cases (a b : Q) :
  (q_min a b = a \/ q_min a b = b) /\ q_min a b <= a /\ q_min a b <= b.
Proof.
  unfold q_min. destruct (Qle_bool b a) eqn:E.
  - apply Qle_bool_iff in E. split; [now right|]. split; lra.
  - split; [now left|]. split; [lra|].
    destruct (Qlt_le_dec a b) as [L|L]; [lra|].
    apply Qle_bool_iff in L. congruence.
Qed.

Lemma fold_q_max_spec (l : list Q) : forall x,
  In (fold_left q_max l x) (x :: l)
  /\ Forall (fun v => v <= fold_left q_max l x) (x :: l).
Proof.
  induction l as [|y l IH]; intro x; simpl.
  - split; [now left|]. constructor; [lra|constructor].
  - destruct (IH (q_max x y)) as [H1 H2].
    destruct (q_max_cases x y) as [Hc [Hx Hy]].
    inversion H2 as [|? ? Hm Hl]; subst.
    split.
    + destruct H1 as [H1|H1]; [|now right; right].
      rewrite <- H1. destruct Hc as [-> | ->]; auto.
    + constructor; [lra|]. constructor; [lra|assumption].
Qed.

Lemma fold_q_min_spec (l : list Q) : forall x,
  In (fold_left q_min l x) (x :: l)
  /\ Forall (fun v => fold_left q_min l x <= v) (x :: l).
Proof.
  induction l as [|y l IH]; intro x; simpl.
  - split; [now left|]. constructor; [lra|constructor].
  - destruct (IH (q_min x y)) as [H1 H2].
    destruct (q_min_cases x y) as [Hc [Hx Hy]].
    inversion H2 as [|? ? Hm Hl]; subst.
    split.
    + destruct H1 as [H1|H1]; [|now right; right].
      rewrite <- H1. destruct Hc as [-> | ->]; auto.
    + constructor; [lra|]. constructor; [lra|assumption].
Qed.

Lemma nonzero_opp (q : Q) : nonzero (- q) = nonzero q.
Proof.
  unfold nonzero. f_equal. apply eq_true_iff_eq.
  rewrite !Qeq_bool_iff. split; intro H; lra.
Qed.

Lemma Qabs_opp_eq (q : Q) : Qabs (- q) = Qabs q.
Proof. destruct q as [n d]. unfold Qabs, Qopp. simpl. now rewrite Z.abs_opp. Qed.

Lemma valid_reverse (r : ImpactRegion) :
  valid_region (reverse_polarity r) = valid_region r.
Proof.
  unfold valid_region. cbn [reverse_polarity beam_energy esa_voltage].
  now rewrite nonzero_opp.
Qed.

Lemma k_of_reverse (r : ImpactRegion) : k_of (reverse_polarity r) = k_of r.
Proof.
  unfold k_of. cbn [reverse_polarity beam_energy esa_voltage].
  now rewrite Qabs_opp_eq.
Qed.

Lemma filter_reverse (l : list ImpactRegion) :
  filter valid_region (map reverse_polarity l)
  = map reverse_polarity (filter valid_region l).
Proof.
  induction l as [|r l IH]; simpl; [reflexivity|].
  rewrite valid_reverse. destruct (valid_region r); simpl; now rewrite IH.
Qed.

Lemma unformattable_reverse (l : list ImpactRegion) :
  existsb unformattable (map reverse_polarity l) = existsb unformattable l.
Proof.
  induction l as [|r l IH]; simpl; [reflexivity|]. now rewrite IH.
Qed.

Variable sqrtQ : Q -> Q.

(** X21: in the statistics the estimator returns, the number of
    measurements is the number of k-factors, of stored measurements and
    of regions with non-zero energy and voltage, and the range holds the
    least and the greatest k-factor. *)
Theorem k_factor_statistics_consistent (regions : list ImpactRegion)
  (st : KFactorStats) :
  estimate_k_factor sqrtQ regions = Ok (KStats st) ->
  num_measurements st = List.length (k_factors st)
  /\ List.length (measurements st) = List.length (k_factors st)
  /\ num_measurements st = List.length (filter valid_region regions)
  /\ In (fst (k_factor_range st)) (k_factors st)
  /\ In (snd (k_factor_range st)) (k_factors st)
  /\ Forall (fun k => fst (k_factor_range st) <= k
                      /\ k <= snd (k_factor_range st)) (k_factors st).
Proof.
  rewrite estimate_k_factor_eq. intro H.
  destruct (existsb unformattable (filter valid_region regions));
    [discriminate|].
  injection H as H. unfold estimate_of in H.
  destruct (filter valid_region regions) as [|r rs]; [discriminate|].
  injection H as <-. unfold stats_of.
  cbn [num_measurements k_factors measurements k_factor_range fst snd].
  destruct (fold_q_min_spec (map k_of rs) (k_of r)) as [Imin Amin].
  destruct (fold_q_max_spec (map k_of rs) (k_of r)) as [Imax Amax].
  split; [reflexivity|]. split; [cbn [List.length]; now rewrite !length_map|].
  split; [cbn [List.length]; now rewrite length_map|].
  split; [assumption|]. split; [assumption|].
  rewrite Forall_forall in *. intros k Hk.
  split; [now apply Amin|now apply Amax].
Qed.

(** X22: the outcome does not depend on the polarity of the voltages:
    with the sign of every voltage reversed, the estimator raises the
    same exception if it raised, and otherwise returns the same
    k-factors, mean, deviation, median, range and number, or the error
    value if it returned it. *)
Theorem statistics_ignore_polarity (regions : list ImpactRegion) :
  match estimate_k_factor sqrtQ regions,
        estimate_k_factor sqrtQ (map reverse_polarity regions) with
  | Ok res, Ok res' => summary res' = summary res
  | Raise e, Raise e' => e' = e
  | _, _ => False
  end.
Proof.
  rewrite !estimate_k_factor_eq, filter_reverse, unformattable_reverse.
  destruct (existsb unformattable (filter valid_region regions));
    [reflexivity|].
  unfold estimate_of. rewrite filter_reverse.
  destruct (filter valid_region regions) as [|r rs]; [reflexivity|].
  cbn [map]. unfold summary, stats_of.
  cbn [k_factor_mean k_factor_std k_factor_median k_factor_range
       num_measurements k_factors].
  rewrite k_of_reverse, map_map.
  rewrite (map_ext (fun x => k_of (reverse_polarity x)) k_of k_of_reverse).
  reflexivity.
Qed.

End StatisticsFacts.

Section PipelineFacts.

Import PyStr DataModel EsaAnalysis EsaSpec EsaMore.
Local Open Scope Q_scope.

Variable sqrtQ : Q -> Q.

Lemma workable_returns (f : bool * DataFile) :
  workable f ->
  exists o, _analyze_single_impact_region sqrtQ (fst f) (snd f) = Ok o.
Proof.
  destruct f as [load_ok data_file]. unfold workable. cbn [fst snd].
  destruct load_ok; [|intros _; now exists None].
  intros [H|[H|[fd [Hfits [H|[img [Hdata Hne]]]]]]].
  - discriminate.
  - exists None. unfold _analyze_single_impact_region. now rewrite H.
  - exists None. unfold _analyze_single_impact_region. now rewrite Hfits, H.
  - destruct (np_max_nonempty _ Hne) as [m Hmax].
    destruct (analyze_cases sqrtQ _ _ _ Hfits Hdata _ Hmax)
      as [[H0 _]|[_ [_ [r [Hr _]]]]]; eauto.
Qed.

Lemma analyze_fold (files_ : list (bool * DataFile)) : forall acc,
  Forall workable files_ ->
  foldM (fun regions f =>
           region <- _analyze_single_impact_region sqrtQ (fst f) (snd f) ;;
           match region with
           | Some r => Ok (regions ++ [r])
           | None => Ok regions
           end) files_ acc
  = Ok (acc ++ flat_map (produced sqrtQ) files_).
Proof.
  induction files_ as [|f fs IH]; intros acc Hall; cbn [foldM flat_map].
  - now rewrite app_nil_r.
  - inversion Hall as [|? ? Hf Hfs]; subst.
    destruct (workable_returns f Hf) as [o Ho].
    unfold produced at 1. rewrite Ho. cbn [bind].
    destruct o as [r|]; cbn [bind]; rewrite (IH _ Hfs).
    + now rewrite <- app_assoc.
    + reflexivity.
Qed.

Lemma analyze_fold_inv (files_ : list (bool * DataFile)) : forall acc regions,
  foldM (fun regions f =>
           region <- _analyze_single_impact_region sqrtQ (fst f) (snd f) ;;
           match region with
           | Some r => Ok (regions ++ [r])
           | None => Ok regions
           end) files_ acc
  = Ok regions ->
  regions = (acc ++ flat_map (produced sqrtQ) files_)%list.
Proof.
  induction files_ as [|f fs IH]; intros acc regions H; cbn [foldM flat_map] in *.
  - injection H as <-. now rewrite app_nil_r.
  - unfold produced at 1.
    destruct (_analyze_single_impact_region sqrtQ (fst f) (snd f))
      as [[r|]|e]; cbn [bind] in H; [| |discriminate].
    + rewrite (IH _ _ H). now rewrite <- app_assoc.
    + now rewrite (IH _ _ H).
Qed.

Lemma analyze_fold_raises (files_ : list (bool * DataFile)) (e : exn) :
  forall acc,
  (exists before f after,
     files_ = (before ++ f :: after)%list /\ Forall workable before
     /\ _analyze_single_impact_region sqrtQ (fst f) (snd f) = Raise e) ->
  foldM (fun regions f =>
           region <- _analyze_single_impact_region sqrtQ (fst f) (snd f) ;;
           match region with
           | Some r => Ok (regions ++ [r])
           | None => Ok regions
           end) files_ acc
  = Raise e.
Proof.
  intros acc [before [f [after [-> [Hall Hf]]]]]. revert acc.
  induction before as [|b before IH]; intro acc; cbn [app foldM].
  - now rewrite Hf.
  - inversion Hall as [|? ? Hb Hbs]; subst.
    destruct (workable_returns b Hb) as [o ->]. cbn [bind].
    destruct o; cbn [bind]; now apply IH.
Qed.

Lemma produced_length (f : bool * DataFile) :
  (List.length (produced sqrtQ f) <= 1)%nat.
Proof.
  unfold produced.
  destruct (_analyze_single_impact_region sqrtQ (fst f) (snd f)) as [[r|]|e];
    simpl; lia.
Qed.

Lemma flat_map_produced_length (files_ : list (bool * DataFile)) :
  (List.length (flat_map (produced sqrtQ) files_) <= List.length files_)%nat.
Proof.
  induction files_ as [|f fs IH]; simpl; [lia|].
  rewrite length_app. pose proof (produced_length f). lia.
Qed.

(** X23: when every file failed to load, has no image, or has an image
    with at least one pixel, [analyze_impact_regions] returns the
    regions of the files for which the detector produces one, in the
    order of the files; a loaded image without pixels, after such
    files, makes the whole call raise [ValueError]. *)
Theorem analyze_impact_regions_batch (files_ : list (bool * DataFile)) :
  (Forall workable files_ ->
   analyze_impact_regions sqrtQ files_ = Ok (flat_map (produced sqrtQ) files_)
   /\ (List.length (flat_map (produced sqrtQ) files_)
       <= List.length files_)%nat)
  /\ (forall before data_file fd img after,
        files_ = (before ++ (true, data_file) :: after)%list ->
        Forall workable before ->
        fits_data data_file = Some fd -> data fd = Some img ->
        flat img = [] ->
        analyze_impact_regions sqrtQ files_ = Raise ValueError).
Proof.
  split.
  - intro Hall. split; [|apply flat_map_produced_length].
    unfold analyze_impact_regions. now rewrite (analyze_fold _ [] Hall).
  - intros before data_file fd img after Hfiles Hall Hfits Hdata Hflat.
    unfold analyze_impact_regions. apply analyze_fold_raises.
    exists before, (true, data_file), after.
    split; [assumption|]. split; [assumption|].
    exact (analyze_empty_raises sqrtQ _ _ _ Hfits Hdata Hflat).
Qed.

Lemma or_zero_nonneg (o : option Q) :
  (forall q, o = Some q -> 0 <= q) -> 0 <= or_zero o.
Proof.
  intro H. unfold or_zero. destruct o as [v|]; [|lra].
  destruct (Qeq_bool v 0); [lra|]. now apply H.
Qed.

(** The energy of a region produced from a file with parsed parameters. *)
Lemma produced_energy (f : bool * DataFile) (r : ImpactRegion) :
  (exists fname,
     FilenameParser.parse_filename fname = Ok (parameters (snd f))) ->
  In r (produced sqrtQ f) -> 0 <= beam_energy r.
Proof.
  intros [fname Hp] Hr. unfold produced in Hr.
  destruct (_analyze_single_impact_region sqrtQ (fst f) (snd f))
    as [[r'|]|e] eqn:E; try contradiction.
  destruct Hr as [<-|[]].
  destruct (analyze_some sqrtQ _ _ _ E)
    as [fd [img [m [Hl [Hfits [Hdata [Hmax [Hm Hbig]]]]]]]].
  rewrite Hl in E.
  destruct (analyze_region_full sqrtQ _ _ _ _ Hfits Hdata Hmax Hm Hbig)
    as [r'' [Hr'' [_ [_ [_ [_ [_ [_ [_ [He _]]]]]]]]]].
  assert (r'' = r') by congruence. subst r''.
  rewrite He. apply or_zero_nonneg. intros q Hq.
  destruct (parse_filename_energy fname _ Hp) as [[Hnone _]|[q' [Hv [Hpos _]]]].
  - rewrite Hnone in Hq. discriminate Hq.
  - rewrite Hv in Hq. injection Hq as <-. assumption.
Qed.

(** X24: through the three stages: when the parameters of the files come
    from [parse_filename], every measurement the estimator builds from
    the regions of [analyze_impact_regions] has a positive energy, the
    theoretical deflection [voltage / energy], and a positive
    k-factor. *)
Theorem parsed_files_deflection (files_ : list (bool * DataFile))
  (regions : list ImpactRegion) (st : KFactorStats) :
  Forall (fun f => exists fname,
            FilenameParser.parse_filename fname = Ok (parameters (snd f)))
         files_ ->
  analyze_impact_regions sqrtQ files_ = Ok regions ->
  estimate_k_factor sqrtQ regions = Ok (KStats st) ->
  Forall (fun m =>
            0 < beam_energy (impact_region m)
            /\ theoretical_deflection m
               = esa_voltage (impact_region m) / beam_energy (impact_region m)
            /\ exists k, k_factor_estimate m = Some k /\ 0 < k)
         (measurements st).
Proof.
  intros Hparsed Hregions Hest.
  unfold analyze_impact_regions in Hregions.
  apply analyze_fold_inv in Hregions. cbn [app] in Hregions.
  assert (Hnonneg : forall r, In r regions -> 0 <= beam_energy r).
  { intros r Hr. rewrite Hregions in Hr. apply in_flat_map in Hr.
    destruct Hr as [f [Hf Hr]]. rewrite Forall_forall in Hparsed.
    exact (produced_energy f r (Hparsed f Hf) Hr). }
  rewrite estimate_k_factor_eq in Hest.
  destruct (existsb unformattable (filter valid_region regions));
    [discriminate|].
  injection Hest as Hest. unfold estimate_of in Hest.
  destruct (filter valid_region regions) as [|r rs] eqn:F; [discriminate|].
  injection Hest as <-. unfold stats_of. cbn [measurements].
  change (measurement_of r :: map measurement_of rs)
    with (map measurement_of (r :: rs)).
  rewrite <- F. apply Forall_forall. intros m Hm.
  apply in_map_iff in Hm. destruct Hm as [r' [<- Hr']].
  apply filter_In in Hr'. destruct Hr' as [Hin Hvalid].
  apply valid_region_iff in Hvalid. destruct Hvalid as [He Hv].
  pose proof (Hnonneg r' Hin) as H0.
  assert (Hpos : 0 < beam_energy r').
  { destruct (Qlt_le_dec 0 (beam_energy r')) as [L|L]; [assumption|].
    exfalso. apply He. lra. }
  unfold measurement_of.
  cbn [impact_region theoretical_deflection k_factor_estimate].
  split; [assumption|]. split.
  - apply Qlt_bool_iff in Hpos. now rewrite Hpos.
  - exists (k_of r'). split; [reflexivity|]. unfold k_of.
    assert (Habs : 0 < Qabs (esa_voltage r')).
    { pose proof (Qabs_nonneg (esa_voltage r')) as A.
      destruct (Qlt_le_dec 0 (Qabs (esa_voltage r'))) as [L|L]; [assumption|].
      exfalso. apply Hv. generalize L.
      apply (Qabs_case (esa_voltage r')
               (fun a => a <= 0 -> esa_voltage r' == 0)); intros; lra. }
    apply Qlt_shift_div_l; [assumption|lra].
Qed.

End PipelineFacts.

Section PipelineExamples.

Import PyStr DataModel EsaAnalysis EsaSpec EsaMore.
Local Open Scope Q_scope.

(** Two regions with a voltage and one without. *)
Lemma k_factor_statistics_consistent_witness :
  exists st,
    estimate_k_factor sqrt_floor
      [region_with 1000 (-181) 600; region_with 0 5 10;
       region_with 5000 (-912) 590] = Ok (KStats st)
    /\ num_measurements st = 2%nat
    /\ num_measurements st = List.length (k_factors st)
    /\ List.length (measurements st) = List.length (k_factors st)
    /\ In (fst (k_factor_range st)) (k_factors st)
    /\ In (snd (k_factor_range st)) (k_factors st)
    /\ Forall (fun k => fst (k_factor_range st) <= k
                        /\ k <= snd (k_factor_range st)) (k_factors st).
Proof.
  destruct (estimate_k_factor sqrt_floor
              [region_with 1000 (-181) 600; region_with 0 5 10;
               region_with 5000 (-912) 590]) as [[msg|st]|e] eqn:E.
  - vm_compute in E. discriminate E.
  - exists st. split; [reflexivity|].
    destruct (k_factor_statistics_consistent sqrt_floor _ st E)
      as [H1 [H2 [H3 H4]]].
    split; [rewrite H3; reflexivity|]. split; [exact H1|].
    split; [exact H2|exact H4].
  - vm_compute in E. discriminate E.
Defined.

(** A sweep file with the spot image, through the three stages. *)
Lemma parsed_files_deflection_witness :
  exists regions st,
    analyze_impact_regions sqrt_floor
      [(true,
        loaded_entity "data/ACI ESA 181V 1000eV BEAM240921-215501.fits"
          spot_image)] = Ok regions
    /\ estimate_k_factor sqrt_floor regions = Ok (KStats st)
    /\ Forall (fun m =>
                 0 < beam_energy (impact_region m)
                 /\ theoretical_deflection m
                    = esa_voltage (impact_region m)
                      / beam_energy (impact_region m)
                 /\ exists k, k_factor_estimate m = Some k /\ 0 < k)
              (measurements st).
Proof.
  destruct (analyze_impact_regions sqrt_floor
              [(true,
                loaded_entity
                  "data/ACI ESA 181V 1000eV BEAM240921-215501.fits"
                  spot_image)]) as [regions|e] eqn:E1.
  - destruct (estimate_k_factor sqrt_floor regions) as [[msg|st]|e] eqn:E2.
    + vm_compute in E1. injection E1 as <-. vm_compute in E2. discriminate E2.
    + exists regions, st. split; [reflexivity|]. split; [exact E2|].
      apply (parsed_files_deflection sqrt_floor
               [(true,
                 loaded_entity
                   "data/ACI ESA 181V 1000eV BEAM240921-215501.fits"
                   spot_image)] regions st); [|exact E1|exact E2].
      constructor; [|constructor].
      exists "data/ACI ESA 181V 1000eV BEAM240921-215501.fits"%string.
      vm_compute. reflexivity.
    + vm_compute in E1. injection E1 as <-. vm_compute in E2. discriminate E2.
  - vm_compute in E1. discriminate E1.
Defined.

End PipelineExamples.

(** ** Files without the parameter, and divisions *)

Section SingleGroupingClaims.

Import PyStr FilenameParser DataModel CatalogSpec CatalogMore.
Local Open Scope string_scope.

Variable py_str : value -> string.

Lemma single_entry_of (fs : list DataFile) (parameter : string)
  (k : string) (g : ExperimentGroup) :
  In (k, g) (fold_left (parameter_step py_str parameter) fs []) ->
  group_of (single_fresh py_str parameter) k
           (members (single_key py_str parameter) k fs) g.
Proof.
  rewrite single_groups_eq.
  apply (grouped_entry (single_key py_str parameter)
           (single_fresh py_str parameter) (single_fresh_empty py_str parameter)).
Qed.

(** X25: with a minimum size of at most one, the groups by one parameter
    hold, between them, as many files as the catalog has with that
    parameter present: the files without it are left out. *)
Theorem single_parameter_groups_cover (fs : list DataFile) (parameter : string)
  (min_group_size : nat) :
  (min_group_size <= 1)%nat ->
  list_sum
    (map (fun group => List.length (files group))
         (group_files_by_parameter py_str fs parameter min_group_size))
  = List.length
      (filter (fun f => present (getattr (parameters f) parameter)) fs).
Proof.
  intro Hmin. unfold group_files_by_parameter.
  rewrite filter_all_true.
  - rewrite map_map. rewrite single_groups_eq.
    pose proof (held_fold (single_key py_str parameter)
                  (single_fresh py_str parameter)
                  (single_fresh_empty py_str parameter) fs [])
      as H.
    unfold held in H. simpl in H. rewrite H.
    f_equal. apply filter_ext. intro f. unfold has_key, single_key.
    now destruct (getattr (parameters f) parameter).
  - intros g Hg. apply in_map_iff in Hg. destruct Hg as [[k g'] [<- Hin]].
    apply single_entry_of in Hin.
    unfold group_of in Hin. simpl.
    destruct (members (single_key py_str parameter) k fs); [contradiction|].
    rewrite Hin. apply Nat.leb_le. cbn. lia.
Qed.

End SingleGroupingClaims.

Section DivisionClaims.

Import PyStr DataModel EsaAnalysis EsaSpec EsaMore.
Local Open Scope Q_scope.

(** X26: neither [calculate_k_factor] nor
    [_calculate_theoretical_deflection] divides by zero.  The method
    returns the estimate it stores; on a region with a zero voltage or
    energy it leaves the measurement as it is; calling it again changes
    nothing.  The deflection is [voltage / energy] for a positive energy
    and [0] otherwise. *)
Theorem divisions_are_guarded (m : ESAMeasurement) (e v : Q) :
  (exists m' k,
     calculate_k_factor m = Ok (m', k)
     /\ k_factor_estimate m' = k
     /\ impact_region m' = impact_region m
     /\ (valid_region (impact_region m) = true ->
         k = Some (k_of (impact_region m)))
     /\ (valid_region (impact_region m) = false -> m' = m)
     /\ calculate_k_factor m' = Ok (m', k))
  /\ _calculate_theoretical_deflection e v
     = Ok (if Qlt_bool 0 e then v / e else 0).
Proof.
  split.
  - unfold calculate_k_factor, valid_region.
    destruct (nonzero (esa_voltage (impact_region m))
              && nonzero (beam_energy (impact_region m))) eqn:E.
    + apply andb_prop in E as E'. destruct E' as [Hv _].
      unfold py_div. rewrite (Qabs_nonzero _ Hv). cbn [bind].
      eexists. eexists. split; [reflexivity|].
      cbn [k_factor_estimate impact_region theoretical_deflection
           measured_deflection].
      rewrite E. rewrite (Qabs_nonzero _ Hv). cbn [bind].
      repeat split; try reflexivity. discriminate.
    + exists m, (k_factor_estimate m). rewrite E.
      repeat split; try reflexivity. discriminate.
  - unfold _calculate_theoretical_deflection.
    destruct (Qlt_bool 0 e) eqn:E; [|reflexivity].
    apply py_div_ok. apply nonzero_iff. apply Qlt_bool_iff in E. lra.
Qed.

End DivisionClaims.

Section GroupingCoverExamples.

Import PyStr FilenameParser DataModel CatalogSpec CatalogMore.
Local Open Scope string_scope.

(** Two of the three files of the sample catalog have a voltage. *)
Lemma single_parameter_groups_cover_witness :
  list_sum
    (map (fun group => List.length (files group))
         (group_files_by_parameter show_value sample_catalog
            "esa_voltage_value" 1))
  = List.length
      (filter (fun f => present (getattr (parameters f) "esa_voltage_value"))
              sample_catalog).
Proof.
  apply (single_parameter_groups_cover show_value sample_catalog
           "esa_voltage_value" 1).
  lia.
Defined.

End GroupingCoverExamples.
